(** * Verification of the layered configuration model of [bin/configure.py]

    A shallow embedding of the configurator's data model ([VaultId],
    [AnsibleConfig], [MainConfig]), its marshmallow schema
    ([PathField], [VaultIdField], [AnsibleConfigSchema]), the attribute
    merger ([AttrMerger]) and the [Configurator] orchestration, together with
    the properties the specification states about them.

    Python library functions the program calls ([pathlib], [os.path],
    [marshmallow]) are modelled by their documented POSIX behaviour; what
    depends on the machine (home directories, symbolic links, the working
    directory, the files present) is an explicit parameter. *)

From Stdlib Require Import Ascii String.
From stdpp Require Import base option list strings gmap fin_maps pretty.

(** ** Exceptions and results *)

Inductive exn :=
  | ValueError | AttributeError | TypeError | IndexError | ValidationError | OSError.

Inductive outcome (A : Type) :=
  | Returned (a : A)
  | Raised (e : exn).
Arguments Returned {A} a.
Arguments Raised {A} e.

Global Instance outcome_ret : MRet outcome := @Returned.
Global Instance outcome_bind : MBind outcome := λ A B f x,
  match x with Returned a => f a | Raised e => Raised e end.
Global Instance outcome_fmap : FMap outcome := λ A B f x,
  match x with Returned a => Returned (f a) | Raised e => Raised e end.

Definition returns {A} (x : outcome A) : bool :=
  match x with Returned _ => true | Raised _ => false end.

(** ** Python string primitives *)

Module Str.

(** [s.split(c)] for a one-character separator. *)
Fixpoint split (c : ascii) (s : string) : list string :=
  match s with
  | EmptyString => [EmptyString]
  | String a s' =>
      if decide (a = c) then EmptyString :: split c s'
      else match split c s' with
           | [] => [String a EmptyString]
           | w :: ws => String a w :: ws
           end
  end.

(** [c in s]. *)
Fixpoint contains (c : ascii) (s : string) : bool :=
  match s with
  | EmptyString => false
  | String a s' => if decide (a = c) then true else contains c s'
  end.

(** [s.split(c, 1)] when [c in s]: the text before the first [c] and the
    text after it. *)
Fixpoint split_first (c : ascii) (s : string) : string * string :=
  match s with
  | EmptyString => (EmptyString, EmptyString)
  | String a s' =>
      if decide (a = c) then (EmptyString, s')
      else let '(l, r) := split_first c s' in (String a l, r)
  end.

(** [s.lstrip(c)]. *)
Fixpoint lstrip (c : ascii) (s : string) : string :=
  match s with
  | String a s' => if decide (a = c) then lstrip c s' else s
  | EmptyString => EmptyString
  end.

(** [s.rstrip(c)]. *)
Fixpoint rstrip (c : ascii) (s : string) : string :=
  match s with
  | EmptyString => EmptyString
  | String a s' =>
      match rstrip c s' with
      | EmptyString => if decide (a = c) then EmptyString else String a EmptyString
      | r => String a r
      end
  end.

(** [s.startswith(p)]. *)
Fixpoint startswith (p s : string) : bool :=
  match p, s with
  | EmptyString, _ => true
  | String a p', String b s' => if decide (a = b) then startswith p' s' else false
  | String _ _, EmptyString => false
  end.

(** [sep.join(l)]. *)
Definition join (sep : string) (l : list string) : string := String.concat sep l.

End Str.

(** ** [pathlib.PurePosixPath] *)

(** A path is its root ([""], ["/"] or ["//"]) and its components; a path
    built by the constructor has no component that is empty, ["."] or contains
    a slash. *)
Record Path := mkPath { path_root : string; path_parts : list string }.

Global Instance Path_eq_dec : EqDecision Path.
Proof. solve_decision. Defined.

Definition sep : ascii := "/"%char.

(** [_PosixFlavour.splitroot]. *)
Definition splitroot (part : string) : string * string :=
  match part with
  | String a _ =>
      if decide (a = sep) then
        let stripped := Str.lstrip sep part in
        if decide (String.length part - String.length stripped = 2)
        then ("//", stripped) else ("/", stripped)
      else ("", part)
  | EmptyString => ("", part)
  end.

Definition is_component (x : string) : bool :=
  negb (bool_decide (x = "")) && negb (bool_decide (x = ".")).

(** [pathlib.Path(s)]. *)
Definition Path_of_string (s : string) : Path :=
  let '(r, rel) := splitroot s in
  mkPath r (filter (λ x, is_component x = true) (Str.split sep rel)).

(** [str(p)]. *)
Definition Path_str (p : Path) : string :=
  let s := path_root p +:+ Str.join "/" (path_parts p) in
  if decide (s = "") then "." else s.

(** [p / q]: a rooted right operand replaces the left one. *)
Definition truediv (p q : Path) : Path :=
  if decide (path_root q = "") then mkPath (path_root p) (path_parts p ++ path_parts q)
  else q.

(** [p.relative_to(other)]: [None] stands for the [ValueError] raised when
    [other] is not a leading part of [p]. *)
Definition relative_to (p other : Path) : option Path :=
  if decide (path_root p = path_root other) then
    if decide (path_parts other `prefix_of` path_parts p)
    then Some (mkPath "" (drop (length (path_parts other)) (path_parts p)))
    else None
  else None.

(** [p.parent]. *)
Definition parent (p : Path) : Path :=
  mkPath (path_root p) (removelast (path_parts p)).

Definition wf_component (x : string) : Prop :=
  x ≠ "" ∧ x ≠ "." ∧ Str.contains sep x = false.

Definition wf_Path (p : Path) : Prop :=
  (path_root p = "" ∨ path_root p = "/" ∨ path_root p = "//") ∧
  Forall wf_component (path_parts p).

(** ** The machine: [os.path], home directories and the files present *)

(** What the operating system decides. [os_homedir name] is the home directory
    [os.path.expanduser] finds for user [name] ([""] for the current user:
    [$HOME], else the password database), [os_realpath] and [os_abspath] are
    [os.path.realpath] and [os.path.abspath]. *)
Record OSEnv := mkOSEnv {
  os_homedir : string → option string;
  os_realpath : string → string;
  os_abspath : string → string;
}.

Definition bytes := list Byte.byte.

Global Instance byte_eq_dec : EqDecision Byte.byte := Byte.byte_eq_dec.

Inductive node :=
  | File (content : bytes)
  | Dir.

Global Instance node_eq_dec : EqDecision node.
Proof. solve_decision. Defined.

(** The files present, each known by one name (symbolic links are not
    modelled), and the names on which renaming or opening for writing is
    refused. *)
Record FS := mkFS {
  fs_nodes : gmap string node;
  fs_denied : gset string;
}.

(** [os.path.exists]. *)
Definition path_exists (fs : FS) (p : string) : bool :=
  bool_decide (is_Some (fs_nodes fs !! p)).

(** [os.path.isabs]. *)
Definition isabs (s : string) : bool := Str.startswith "/" s.

Module StrPath.
(** The text before the first [c] and the text from it on ([s[:i]] and
    [s[i:]] for [i = s.find(c)], the length of [s] when [c] is absent). *)
Fixpoint break (c : ascii) (s : string) : string * string :=
  match s with
  | EmptyString => (EmptyString, EmptyString)
  | String a s' =>
      if decide (a = c) then (EmptyString, s)
      else let '(l, r) := break c s' in (String a l, r)
  end.

(** [s.endswith(c)]. *)
Fixpoint endswith (c : ascii) (s : string) : bool :=
  match s with
  | EmptyString => false
  | String a EmptyString => bool_decide (a = c)
  | String _ s' => endswith c s'
  end.
End StrPath.

(** [os.path.join(a, b)]. *)
Definition path_join (a b : string) : string :=
  if Str.startswith "/" b then b
  else if bool_decide (a = "") || StrPath.endswith sep a then a +:+ b
  else a +:+ "/" +:+ b.

Section Codec.
Context (os : OSEnv) (fs : FS).

(** [os.path.expanduser]. *)
Definition expanduser (path : string) : string :=
  match path with
  | String "~" rest =>
      let '(name, tail) := StrPath.break sep rest in
      match os_homedir os name with
      | None => path
      | Some userhome =>
          let r := Str.rstrip sep userhome +:+ tail in
          if decide (r = "") then "/" else r
      end
  | _ => path
  end.

Definition auto_realpath (path : string) (base_dir : option string)
    (force_abs_path : bool) : string :=
  if isabs path && path_exists fs path then os_realpath os path
  else
    let abs_path := match base_dir with
                    | None => path
                    | Some d => path_join d path
                    end in
    if path_exists fs abs_path then os_realpath os abs_path
    else if force_abs_path then abs_path
    else path.
End Codec.

(** ** [VaultId] *)

Record VaultId := mkVaultId { label : string; source : string }.

Global Instance VaultId_eq_dec : EqDecision VaultId.
Proof. solve_decision. Defined.

(** The [source] argument of the constructor: omitted, a string, or the path
    [VaultId.relative_to] passes. *)
Inductive source_arg :=
  | SourceNone
  | SourceStr (s : string)
  | SourcePath (p : Path).

Global Instance source_arg_eq_dec : EqDecision source_arg.
Proof. solve_decision. Defined.

(** Truth value of the argument: [None] and [""] are false. *)
Definition source_truthy (a : source_arg) : bool :=
  match a with
  | SourceNone => false
  | SourceStr s => negb (bool_decide (s = ""))
  | SourcePath _ => true
  end.

(** [source != "prompt"]. *)
Definition source_ne_prompt (a : source_arg) : bool :=
  match a with
  | SourceStr s => negb (bool_decide (s = "prompt"))
  | _ => true
  end.

(** [str(source)]. *)
Definition source_str (a : source_arg) : string :=
  match a with
  | SourceNone => "None"
  | SourceStr s => s
  | SourcePath p => Path_str p
  end.

Section VaultIdOps.
Context (os : OSEnv) (fs : FS).

(** [VaultId.__init__]. *)
Definition VaultId_init (vault_id : option string) (base_dir : option string)
    (label_arg : option string) (source_a : source_arg) (apply_realpath : bool)
    : outcome VaultId :=
  '(l, src) ← match vault_id with
              | Some v =>
                  if bool_decide (label_arg ≠ None) || negb (bool_decide (source_a = SourceNone))
                  then Raised ValueError
                  else if Str.contains "@" v
                       then let '(l, s) := Str.split_first "@" v in Returned (l, SourceStr s)
                       else Returned (v, SourceStr "")
              | None =>
                  match label_arg with
                  | None => Raised ValueError
                  | Some l => Returned (l, source_a)
                  end
              end;
  let s := if source_truthy src && source_ne_prompt src && apply_realpath
           then auto_realpath os fs (source_str src) base_dir true
           else source_str src in
  Returned (mkVaultId l s).

(** [VaultId.copy]. *)
Definition VaultId_copy (self : VaultId) : outcome VaultId :=
  VaultId_init None None (Some (label self)) (SourceStr (source self)) true.
End VaultIdOps.

(** [VaultId.id] and [__str__]. *)
Definition VaultId_id (self : VaultId) : string :=
  label self +:+ "@" +:+ source self.

Definition source_is_path (self : VaultId) : bool :=
  negb (bool_decide (source self = "")) && negb (bool_decide (source self = "prompt")).

Definition source_path (self : VaultId) : option Path :=
  if source_is_path self then Some (Path_of_string (source self)) else None.

Section VaultIdRelative.
Context (os : OSEnv) (fs : FS).

(** [VaultId.relative_to]; the [ValueError] of [Path.relative_to] passes
    through. *)
Definition VaultId_relative_to (self : VaultId) (base_dir : Path) : outcome VaultId :=
  match source_path self with
  | Some sp =>
      match relative_to sp base_dir with
      | Some rel => VaultId_init os fs None None (Some (label self)) (SourcePath rel) false
      | None => Raised ValueError
      end
  | None => VaultId_copy os fs self
  end.
End VaultIdRelative.

(** ** Plain values: what YAML holds and what the schema dumps *)

(** Scalars. They are also the values an environment variable may hold:
    [env_vars] is declared [Dict[str, Any]]. *)
Inductive pyval :=
  | PNone
  | PBool (b : bool)
  | PInt (z : Z)
  | PStr (s : string).

Global Instance pyval_eq_dec : EqDecision pyval.
Proof. solve_decision. Defined.

(** The value under a key of the [ansible] mapping: a scalar, a list of
    scalars, or a mapping of scalars given by its items. *)
Inductive raw :=
  | RVal (v : pyval)
  | RList (l : list pyval)
  | RDict (d : list (pyval * pyval)).

Global Instance raw_eq_dec : EqDecision raw.
Proof. solve_decision. Defined.

(** The value under a top-level key of a configuration document. *)
Inductive entry :=
  | EScalar (v : pyval)
  | EList (l : list pyval)
  | EMapping (m : gmap string raw).

Global Instance entry_eq_dec : EqDecision entry.
Proof. solve_decision. Defined.

(** [str(v)]. *)
Definition py_str (v : pyval) : string :=
  match v with
  | PNone => "None"
  | PBool true => "True"
  | PBool false => "False"
  | PInt z => pretty z
  | PStr s => s
  end.

Definition is_str (v : pyval) : bool :=
  match v with PStr _ => true | _ => false end.

(** ** [AnsibleConfig] *)

Record AnsibleConfig := mkAnsibleConfig {
  config_file : option Path;
  inventories : list Path;
  vault_ids : list VaultId;
  vault_password_files : list Path;
  user_scripts : list Path;
  vars_files : list Path;
  vault_files : list Path;
  private_key_file : option Path;
  user : option string;
  vault_encrypt_identity : option string;
  log_path : option Path;
  env_vars : gmap string pyval;
}.

Global Instance AnsibleConfig_eq_dec : EqDecision AnsibleConfig.
Proof. solve_decision. Defined.

(** [AnsibleConfig()]: every field at its declared default. *)
Definition AnsibleConfig_default : AnsibleConfig :=
  mkAnsibleConfig None [] [] [] [] [] [] None None None None ∅.

(** Attribute assignment, one definition per attribute. *)
Definition set_config_file (c : AnsibleConfig) v :=
  mkAnsibleConfig v (inventories c) (vault_ids c) (vault_password_files c)
    (user_scripts c) (vars_files c) (vault_files c) (private_key_file c) (user c)
    (vault_encrypt_identity c) (log_path c) (env_vars c).
Definition set_inventories (c : AnsibleConfig) v :=
  mkAnsibleConfig (config_file c) v (vault_ids c) (vault_password_files c)
    (user_scripts c) (vars_files c) (vault_files c) (private_key_file c) (user c)
    (vault_encrypt_identity c) (log_path c) (env_vars c).
Definition set_vault_ids (c : AnsibleConfig) v :=
  mkAnsibleConfig (config_file c) (inventories c) v (vault_password_files c)
    (user_scripts c) (vars_files c) (vault_files c) (private_key_file c) (user c)
    (vault_encrypt_identity c) (log_path c) (env_vars c).
Definition set_vault_password_files (c : AnsibleConfig) v :=
  mkAnsibleConfig (config_file c) (inventories c) (vault_ids c) v
    (user_scripts c) (vars_files c) (vault_files c) (private_key_file c) (user c)
    (vault_encrypt_identity c) (log_path c) (env_vars c).
Definition set_user_scripts (c : AnsibleConfig) v :=
  mkAnsibleConfig (config_file c) (inventories c) (vault_ids c) (vault_password_files c)
    v (vars_files c) (vault_files c) (private_key_file c) (user c)
    (vault_encrypt_identity c) (log_path c) (env_vars c).
Definition set_vars_files (c : AnsibleConfig) v :=
  mkAnsibleConfig (config_file c) (inventories c) (vault_ids c) (vault_password_files c)
    (user_scripts c) v (vault_files c) (private_key_file c) (user c)
    (vault_encrypt_identity c) (log_path c) (env_vars c).
Definition set_vault_files (c : AnsibleConfig) v :=
  mkAnsibleConfig (config_file c) (inventories c) (vault_ids c) (vault_password_files c)
    (user_scripts c) (vars_files c) v (private_key_file c) (user c)
    (vault_encrypt_identity c) (log_path c) (env_vars c).
Definition set_private_key_file (c : AnsibleConfig) v :=
  mkAnsibleConfig (config_file c) (inventories c) (vault_ids c) (vault_password_files c)
    (user_scripts c) (vars_files c) (vault_files c) v (user c)
    (vault_encrypt_identity c) (log_path c) (env_vars c).
Definition set_user (c : AnsibleConfig) v :=
  mkAnsibleConfig (config_file c) (inventories c) (vault_ids c) (vault_password_files c)
    (user_scripts c) (vars_files c) (vault_files c) (private_key_file c) v
    (vault_encrypt_identity c) (log_path c) (env_vars c).
Definition set_vault_encrypt_identity (c : AnsibleConfig) v :=
  mkAnsibleConfig (config_file c) (inventories c) (vault_ids c) (vault_password_files c)
    (user_scripts c) (vars_files c) (vault_files c) (private_key_file c) (user c)
    v (log_path c) (env_vars c).
Definition set_log_path (c : AnsibleConfig) v :=
  mkAnsibleConfig (config_file c) (inventories c) (vault_ids c) (vault_password_files c)
    (user_scripts c) (vars_files c) (vault_files c) (private_key_file c) (user c)
    (vault_encrypt_identity c) v (env_vars c).
Definition set_env_vars (c : AnsibleConfig) v :=
  mkAnsibleConfig (config_file c) (inventories c) (vault_ids c) (vault_password_files c)
    (user_scripts c) (vars_files c) (vault_files c) (private_key_file c) (user c)
    (vault_encrypt_identity c) (log_path c) v.

(** ** [AttrMerger] *)

Definition REPLACE_VARS_MERGE_ACTION : string := "$replace_vars".

Record AttrMerger := mkAttrMerger {
  merge_options : gmap string entry;
  replace_vars : gset string;
  cur_attr_name : string;
  attr_name_stack : list string;
}.

Definition strings_of (l : list pyval) : list string :=
  omap (λ v, match v with PStr s => Some s | _ => None end) l.

Fixpoint chars_of (s : string) : list string :=
  match s with
  | EmptyString => []
  | String a s' => String a EmptyString :: chars_of s'
  end.

(** [set(merge_options.get('$replace_vars', []))], kept to its strings (an
    attribute name is compared with nothing else): the elements of a list,
    the characters of a string, the keys of a mapping; a scalar that cannot
    be iterated raises [TypeError]. *)
Definition replace_vars_of (merge_options : gmap string entry) : outcome (gset string) :=
  match merge_options !! REPLACE_VARS_MERGE_ACTION with
  | None => Returned ∅
  | Some (EList l) => Returned (list_to_set (strings_of l))
  | Some (EScalar (PStr s)) => Returned (list_to_set (chars_of s))
  | Some (EMapping m) => Returned (dom m)
  | Some (EScalar _) => Raised TypeError
  end.

(** [AttrMerger.__init__]. *)
Definition AttrMerger_init (merge_options : gmap string entry) : outcome AttrMerger :=
  rv ← replace_vars_of merge_options;
  Returned (mkAttrMerger merge_options rv "" []).

Definition begin_attr (self : AttrMerger) (name : string) : AttrMerger :=
  mkAttrMerger (merge_options self) (replace_vars self)
    (if decide (cur_attr_name self = "") then name
     else cur_attr_name self +:+ "." +:+ name)
    (attr_name_stack self ++ [cur_attr_name self]).

(** [end_attr]: [list.pop()] of an empty stack raises [IndexError]. *)
Definition end_attr (self : AttrMerger) : outcome AttrMerger :=
  match last (attr_name_stack self) with
  | None => Raised IndexError
  | Some top =>
      Returned (mkAttrMerger (merge_options self) (replace_vars self) top
                  (removelast (attr_name_stack self)))
  end.

(** What [merge_attr] assigns when the attribute is not replaced: two
    sequences give the first followed by the items of the second that are
    not in the first; any other pair gives the second value. *)
Class Mergeable (V : Type) := merge_values : V → V → V.

Global Instance list_mergeable {A} `{EqDecision A} : Mergeable (list A) :=
  λ this_value that_value,
    this_value ++ filter (λ item, item ∉ this_value) that_value.

Global Instance dict_mergeable : Mergeable (gmap string pyval) :=
  λ this_value that_value, that_value.

(** An attribute name with its [getattr] and [setattr]. *)
Record Attr := mkAttr {
  attr_type : Type;
  attr_name : string;
  attr_get : AnsibleConfig → attr_type;
  attr_set : AnsibleConfig → attr_type → AnsibleConfig;
  attr_mergeable : Mergeable attr_type;
}.

Definition merge_attr (self : AttrMerger) (this_obj that_obj : AnsibleConfig)
    (a : Attr) : outcome (AnsibleConfig * AttrMerger) :=
  let self := begin_attr self (attr_name a) in
  let do_replace_attr := bool_decide (cur_attr_name self ∈ replace_vars self) in
  let this_obj :=
    if do_replace_attr then attr_set a this_obj (attr_get a that_obj)
    else attr_set a this_obj
           (@merge_values _ (attr_mergeable a) (attr_get a this_obj) (attr_get a that_obj)) in
  self ← end_attr self;
  Returned (this_obj, self).

Definition merged_attrs : list Attr :=
  [ mkAttr _ "inventories" inventories set_inventories _;
    mkAttr _ "vault_ids" vault_ids set_vault_ids _;
    mkAttr _ "vault_password_files" vault_password_files set_vault_password_files _;
    mkAttr _ "user_scripts" user_scripts set_user_scripts _;
    mkAttr _ "vars_files" vars_files set_vars_files _;
    mkAttr _ "vault_files" vault_files set_vault_files _;
    mkAttr _ "env_vars" env_vars set_env_vars _ ].

Fixpoint merge_attrs (attr_merger : AttrMerger) (self other : AnsibleConfig)
    (attrs : list Attr) : outcome (AnsibleConfig * AttrMerger) :=
  match attrs with
  | [] => Returned (self, attr_merger)
  | a :: attrs =>
      '(self, attr_merger) ← merge_attr attr_merger self other a;
      merge_attrs attr_merger self other attrs
  end.

(** [AnsibleConfig.merge]. *)
Definition AnsibleConfig_merge (self other : AnsibleConfig) (attr_merger : AttrMerger)
    : outcome (AnsibleConfig * AttrMerger) :=
  let self := set_config_file self (config_file other) in
  '(self, attr_merger) ← merge_attrs attr_merger self other merged_attrs;
  let self := set_private_key_file self (private_key_file other) in
  let self := set_user self (user other) in
  let self := set_vault_encrypt_identity self (vault_encrypt_identity other) in
  let self := set_log_path self (log_path other) in
  Returned (self, attr_merger).

(** ** [ConfigContext] and [MainConfig] *)

Record ConfigContext := mkConfigContext {
  context_config_file : Path;
  create_model : bool;
  serialize_relative_paths : bool;
}.

Global Instance ConfigContext_eq_dec : EqDecision ConfigContext.
Proof. solve_decision. Defined.

(** [ConfigContext(config_file=f)]: both flags default to [True]. *)
Definition ConfigContext_for (f : Path) : ConfigContext := mkConfigContext f true true.

Definition config_dir (ctx : ConfigContext) : Path := parent (context_config_file ctx).

Record MainConfig := mkMainConfig {
  ansible : AnsibleConfig;
  config_context : option ConfigContext;
}.

Global Instance MainConfig_eq_dec : EqDecision MainConfig.
Proof. solve_decision. Defined.

(** [MainConfig.merge]. *)
Definition MainConfig_merge (self other : MainConfig) (attr_merger : AttrMerger)
    : outcome (MainConfig * AttrMerger) :=
  let attr_merger := begin_attr attr_merger "ansible" in
  '(a, attr_merger) ← AnsibleConfig_merge (ansible self) (ansible other) attr_merger;
  attr_merger ← end_attr attr_merger;
  Returned (mkMainConfig a (config_context other), attr_merger).

(** ** The marshmallow schema *)

(** A Python [dict] built from items in order: a later item replaces an
    earlier one with the same key. *)
Definition dict_of_items {V} (items : list (string * V)) : gmap string V :=
  foldl (λ m kv, <[kv.1 := kv.2]> m) ∅ items.

(** [fields.String._serialize]. *)
Definition String_serialize (value : pyval) : pyval :=
  match value with
  | PNone => PNone
  | v => PStr (py_str v)
  end.

(** [fields.String._deserialize]. *)
Definition String_deserialize (value : pyval) : outcome string :=
  match value with
  | PStr s => Returned s
  | _ => Raised ValidationError
  end.

(** [Field.deserialize] of a field that allows [None]. *)
Definition deserialize_allow_none {A} (f : pyval → outcome A) (value : pyval)
    : outcome (option A) :=
  match value with
  | PNone => Returned None
  | v => Some <$> f v
  end.

(** [Field.deserialize] of a field that does not. *)
Definition deserialize_not_none {A} (f : pyval → outcome A) (value : pyval) : outcome A :=
  match value with
  | PNone => Raised ValidationError
  | v => f v
  end.

(** A scalar field given a list or a mapping is not a valid string. *)
Definition scalar_field {A} (f : pyval → outcome A) (r : raw) : outcome (option A) :=
  match r with
  | RVal v => deserialize_allow_none f v
  | _ => Raised ValidationError
  end.

(** [fields.List(inner)._deserialize]. *)
Definition List_deserialize {A} (inner : pyval → outcome A) (r : raw) : outcome (list A) :=
  match r with
  | RList l => mapM (deserialize_not_none inner) l
  | _ => Raised ValidationError
  end.

(** [fields.Dict(keys=Str(), values=Str())._deserialize]. *)
Definition Dict_deserialize (r : raw) : outcome (gmap string string) :=
  match r with
  | RDict d =>
      items ← mapM (λ kv : pyval * pyval,
                      k ← deserialize_not_none String_deserialize kv.1;
                      v ← deserialize_not_none String_deserialize kv.2;
                      Returned (k, v)) d;
      Returned (dict_of_items items)
  | _ => Raised ValidationError
  end.

(** [fields.Dict(keys=Str(), values=Str())._serialize]. *)
Definition Dict_serialize (value : gmap string pyval) : raw :=
  RDict ((λ kv : string * pyval, (String_serialize (PStr kv.1), String_serialize kv.2))
           <$> map_to_list value).

Section Fields.
Context (os : OSEnv) (fs : FS) (context : ConfigContext).

(** [PathField._serialize]. *)
Definition PathField_serialize (value : option Path) : pyval :=
  match value with
  | None => String_serialize PNone
  | Some p =>
      if serialize_relative_paths context then
        let value := match relative_to p (config_dir context) with
                     | Some rel => rel
                     | None => p
                     end in
        String_serialize (PStr (Path_str value))
      else String_serialize (PStr (Path_str p))
  end.

(** [PathField._deserialize]. *)
Definition PathField_deserialize (value : pyval) : outcome Path :=
  svalue ← String_deserialize value;
  Returned (truediv (config_dir context) (Path_of_string (expanduser os svalue))).

(** [VaultIdField._serialize]: only [ValueError] is caught. *)
Definition VaultIdField_serialize (value : VaultId) : outcome pyval :=
  if serialize_relative_paths context then
    value ← match VaultId_relative_to os fs value (config_dir context) with
            | Raised ValueError => Returned value
            | r => r
            end;
    Returned (String_serialize (PStr (VaultId_id value)))
  else Returned (String_serialize (PStr (VaultId_id value))).

(** [VaultIdField._deserialize]. *)
Definition VaultIdField_deserialize (value : pyval) : outcome VaultId :=
  svalue ← String_deserialize value;
  vault_id ← VaultId_init os fs (Some svalue) None None SourceNone true;
  match source_path vault_id with
  | Some sp =>
      let sp := truediv (config_dir context) (Path_of_string (expanduser os (Path_str sp))) in
      Returned (mkVaultId (label vault_id) (Path_str sp))
  | None => Returned vault_id
  end.

(** [BaseSchema.remove_none_values]. *)
Definition remove_none_values (data : gmap string raw) : gmap string raw :=
  filter (λ kv, kv.2 ≠ RVal PNone) data.

Definition opt_str (o : option string) : pyval :=
  match o with None => PNone | Some s => PStr s end.

(** The serialized fields in the order of their declaration
    ([Schema._serialize]). *)
Definition AnsibleConfigSchema_serialize (obj : AnsibleConfig)
    : outcome (list (string * raw)) :=
  ids ← mapM VaultIdField_serialize (vault_ids obj);
  let paths l := RList ((λ p, PathField_serialize (Some p)) <$> l) in
  Returned
    [ ("config_file", RVal (PathField_serialize (config_file obj)));
      ("inventories", paths (inventories obj));
      ("vault_ids", RList ids);
      ("vault_password_files", paths (vault_password_files obj));
      ("user_scripts", paths (user_scripts obj));
      ("vars_files", paths (vars_files obj));
      ("vault_files", paths (vault_files obj));
      ("private_key_file", RVal (PathField_serialize (private_key_file obj)));
      ("user", RVal (String_serialize (opt_str (user obj))));
      ("vault_encrypt_identity", RVal (String_serialize (opt_str (vault_encrypt_identity obj))));
      ("log_path", RVal (PathField_serialize (log_path obj)));
      ("env_vars", Dict_serialize (env_vars obj)) ].

(** [AnsibleConfigSchema().dump]: the fields, then the [post_dump] hook. *)
Definition AnsibleConfigSchema_dump (obj : AnsibleConfig) : outcome (gmap string raw) :=
  data ← AnsibleConfigSchema_serialize obj;
  Returned (remove_none_values (dict_of_items data)).

(** The deserialized fields of a document: [None] for a key the document
    does not have. *)
Record AnsibleData := mkAnsibleData {
  d_config_file : option (option Path);
  d_inventories : option (list Path);
  d_vault_ids : option (list VaultId);
  d_vault_password_files : option (list Path);
  d_user_scripts : option (list Path);
  d_vars_files : option (list Path);
  d_vault_files : option (list Path);
  d_private_key_file : option (option Path);
  d_user : option (option string);
  d_vault_encrypt_identity : option (option string);
  d_log_path : option (option Path);
  d_env_vars : option (gmap string string);
}.

Definition load_field {A} (data : gmap string raw) (key : string)
    (f : raw → outcome A) : outcome (option A) :=
  match data !! key with
  | None => Returned None
  | Some r => Some <$> f r
  end.

Definition declared_fields : gset string :=
  list_to_set [ "config_file"; "inventories"; "vault_ids"; "vault_password_files";
                "user_scripts"; "vars_files"; "vault_files"; "private_key_file";
                "user"; "vault_encrypt_identity"; "log_path"; "env_vars" ].

(** Deserialization of the declared fields; a key that is not declared is
    refused (marshmallow's default [unknown=RAISE]). *)
Definition AnsibleConfigSchema_fields (data : gmap string raw) : outcome AnsibleData :=
  if negb (bool_decide (dom data ⊆ declared_fields)) then Raised ValidationError else
  f1 ← load_field data "config_file" (scalar_field PathField_deserialize);
  f2 ← load_field data "inventories" (List_deserialize PathField_deserialize);
  f3 ← load_field data "vault_ids" (List_deserialize VaultIdField_deserialize);
  f4 ← load_field data "vault_password_files" (List_deserialize PathField_deserialize);
  f5 ← load_field data "user_scripts" (List_deserialize PathField_deserialize);
  f6 ← load_field data "vars_files" (List_deserialize PathField_deserialize);
  f7 ← load_field data "vault_files" (List_deserialize PathField_deserialize);
  f8 ← load_field data "private_key_file" (scalar_field PathField_deserialize);
  f9 ← load_field data "user" (scalar_field String_deserialize);
  f10 ← load_field data "vault_encrypt_identity" (scalar_field String_deserialize);
  f11 ← load_field data "log_path" (scalar_field PathField_deserialize);
  f12 ← load_field data "env_vars" Dict_deserialize;
  Returned (mkAnsibleData f1 f2 f3 f4 f5 f6 f7 f8 f9 f10 f11 f12).

(** The model built from the data by keyword arguments: a missing key takes
    the declared default. *)
Definition AnsibleConfig_of_data (d : AnsibleData) : AnsibleConfig :=
  mkAnsibleConfig
    (default None (d_config_file d))
    (default [] (d_inventories d))
    (default [] (d_vault_ids d))
    (default [] (d_vault_password_files d))
    (default [] (d_user_scripts d))
    (default [] (d_vars_files d))
    (default [] (d_vault_files d))
    (default None (d_private_key_file d))
    (default None (d_user d))
    (default None (d_vault_encrypt_identity d))
    (default None (d_log_path d))
    (default ∅ (fmap (M := gmap string) PStr <$> d_env_vars d)).

(** What [Schema.load] returns after [make_object]: the model, or the plain
    data when the context does not ask for a model. *)
Inductive loaded (M D : Type) :=
  | Model (m : M)
  | Data (d : D).

(** [AnsibleConfigSchema().load]. *)
Definition AnsibleConfigSchema_load (data : gmap string raw)
    : outcome (loaded AnsibleConfig AnsibleData) :=
  d ← AnsibleConfigSchema_fields data;
  Returned (if create_model context then Model _ _ (AnsibleConfig_of_data d)
            else Data _ _ d).

(** [MainConfigSchema().dump]: [config_context] is not a field. *)
Definition MainConfigSchema_dump (obj : MainConfig) : outcome (gmap string entry) :=
  a ← AnsibleConfigSchema_dump (ansible obj);
  Returned (filter (λ kv, kv.2 ≠ EScalar PNone) {[ "ansible" := EMapping a ]}).

(** [MainConfigSchema().load]: the nested schema shares the context. *)
Definition MainConfigSchema_load (doc : gmap string entry)
    : outcome (loaded MainConfig (option AnsibleData)) :=
  if negb (bool_decide (dom doc ⊆ {[ "ansible" ]})) then Raised ValidationError else
  nested ← match doc !! "ansible" with
           | None => Returned None
           | Some (EMapping m) => Some <$> AnsibleConfigSchema_fields m
           | Some _ => Raised ValidationError
           end;
  Returned (if create_model context
            then Model _ _ (mkMainConfig
                   (from_option AnsibleConfig_of_data AnsibleConfig_default nested)
                   (Some context))
            else Data _ _ nested).
End Fields.

Arguments Model {M D} m.
Arguments Data {M D} d.

(** ** Files: vault detection, backup and saving *)

Definition ANSIBLE_VAULT_MAGIC : bytes :=
  Eval cbv in list_byte_of_string "$ANSIBLE_VAULT;".

(** [is_vault]: opening a directory raises. *)
Definition is_vault (fs : FS) (filename : string) : outcome bool :=
  if negb (path_exists fs filename) then Returned false else
  match fs_nodes fs !! filename with
  | Some (File content) =>
      let s := take (length ANSIBLE_VAULT_MAGIC) content in
      Returned (bool_decide (s = ANSIBLE_VAULT_MAGIC))
  | _ => Raised OSError
  end.

(** [os.rename]. *)
Definition os_rename (fs : FS) (src dst : string) : outcome unit * FS :=
  if bool_decide (src ∈ fs_denied fs) || bool_decide (dst ∈ fs_denied fs)
  then (Raised OSError, fs)
  else match fs_nodes fs !! src with
       | None => (Raised OSError, fs)
       | Some n => (Returned (), mkFS (<[dst := n]> (delete src (fs_nodes fs))) (fs_denied fs))
       end.

(** The loop [while os.path.exists(bak_rpath): bak_rpath += "~"], bounded by
    [fuel] iterations. *)
Fixpoint backup_name (fs : FS) (fuel : nat) (bak_rpath : string) : option string :=
  match fuel with
  | 0 => None
  | S fuel =>
      if path_exists fs bak_rpath then backup_name fs fuel (bak_rpath +:+ "~")
      else Some bak_rpath
  end.

(** [except Exception]: every exception of the model is one. *)
Definition except_Exception {A} (body : outcome A * FS) (handler : FS → outcome A * FS)
    : outcome A * FS :=
  match body with
  | (Raised _, fs) => handler fs
  | ok => ok
  end.

(** What [yaml.load] gives for a document: a mapping whose keys are all
    strings; a mapping that has, beside its string keys, a key that is not a
    string ([None], a boolean or a number); a list; or a scalar, [None] for
    the empty document. *)
Inductive document :=
  | DocMapping (m : gmap string entry)
  | DocOddMapping (m : gmap string entry)
  | DocList (l : list pyval)
  | DocScalar (v : pyval).

Global Instance document_eq_dec : EqDecision document.
Proof. solve_decision. Defined.

Section Saving.
Context (os : OSEnv).
(** [yaml.dump] and [yaml.load] on the documents of the model; an empty
    document loads as the empty mapping. *)
Context (yaml_dump : gmap string entry → outcome bytes).
Context (yaml_load : bytes → outcome document).

(** [backup_file]. More files than there are cannot exist, so the loop ends
    within the bound. *)
Definition backup_file (fs : FS) (path : string) : outcome unit * FS :=
  let rpath := os_realpath os path in
  if path_exists fs rpath then
    match backup_name fs (S (size (fs_nodes fs))) (rpath +:+ "~") with
    | Some bak_rpath => os_rename fs rpath bak_rpath
    | None => (Raised OSError, fs)
    end
  else (Returned (), fs).

(** [with open(filename, "w") as f: f.write(yaml.dump(config_dict))]: the
    file is emptied when it is opened, before the document is dumped. *)
Definition write_config (fs : FS) (filename : string) (config_dict : gmap string entry)
    : outcome unit * FS :=
  if bool_decide (filename ∈ fs_denied fs) || bool_decide (fs_nodes fs !! filename = Some Dir)
  then (Raised OSError, fs)
  else
    let opened := mkFS (<[filename := File []]> (fs_nodes fs)) (fs_denied fs) in
    match yaml_dump config_dict with
    | Raised e => (Raised e, opened)
    | Returned text =>
        (Returned (), mkFS (<[filename := File text]> (fs_nodes fs)) (fs_denied fs))
    end.

Definition save_config_dict (fs : FS) (filename : string)
    (config_dict : gmap string entry) (do_backup : bool) : outcome bool * FS :=
  let backup :=
    if do_backup
    then except_Exception
           (let '(r, fs) := backup_file fs filename in (Some <$> r, fs))
           (λ fs, (Returned None, fs))
    else (Returned (Some ()), fs) in
  match backup with
  | (Returned None, fs) => (Returned false, fs)
  | (Raised e, fs) => (Raised e, fs)
  | (Returned (Some _), fs) =>
      except_Exception
        (let '(r, fs) := write_config fs filename config_dict in ((λ _, true) <$> r, fs))
        (λ fs, (Returned false, fs))
  end.

(** Python [dict] lookup among items: [1] and [True], [0] and [False] are
    the same key. *)
Definition py_eq (a b : pyval) : bool :=
  match a, b with
  | PBool x, PInt z | PInt z, PBool x => bool_decide (z = if x then 1%Z else 0%Z)
  | _, _ => bool_decide (a = b)
  end.

Fixpoint items_lookup (k : pyval) (d : list (pyval * pyval)) : option pyval :=
  match d with
  | [] => None
  | (k', v) :: d => if py_eq k k' then Some v else items_lookup k d
  end.

(** [simple_dict_merge] on the three levels of a document. *)
Definition simple_dict_merge_items (a b : list (pyval * pyval)) : list (pyval * pyval) :=
  ((λ kv : pyval * pyval, (kv.1, default kv.2 (items_lookup kv.1 b))) <$> a)
  ++ filter (λ kv, items_lookup kv.1 a = None) b.

Definition simple_dict_merge_raw (a b : gmap string raw) : gmap string raw :=
  union_with (λ v w, Some match v, w with
                          | RDict d1, RDict d2 => RDict (simple_dict_merge_items d1 d2)
                          | _, _ => w
                          end) a b.

Definition simple_dict_merge (a b : gmap string entry) : gmap string entry :=
  union_with (λ v w, Some match v, w with
                          | EMapping m1, EMapping m2 => EMapping (simple_dict_merge_raw m1 m2)
                          | _, _ => w
                          end) a b.

(** [needle in text] for two strings. *)
Fixpoint is_substring (needle text : string) : bool :=
  Str.startswith needle text ||
  match text with
  | EmptyString => false
  | String _ text' => is_substring needle text'
  end.

(** [simple_dict_merge(a, b)] for what a document can be. With a list or a
    string for [b], [k not in b] is membership or the substring test: a key of
    [a] found there is then looked up with [b[k]], which raises [TypeError],
    and when no key is found [b.items()] raises [AttributeError]. With a
    number, a boolean or [None], [k not in b] itself raises [TypeError] at
    the first key of [a], and without a key [b.items()] raises
    [AttributeError]. Keys that are not strings are carried over. *)
Definition simple_dict_merge_document (a : gmap string entry) (b : document)
    : outcome document :=
  match b with
  | DocMapping m => Returned (DocMapping (simple_dict_merge a m))
  | DocOddMapping m => Returned (DocOddMapping (simple_dict_merge a m))
  | DocList l =>
      if existsb (λ k, bool_decide (PStr k ∈ l)) (map_to_list a).*1
      then Raised TypeError else Raised AttributeError
  | DocScalar (PStr s) =>
      if existsb (λ k, is_substring k s) (map_to_list a).*1
      then Raised TypeError else Raised AttributeError
  | DocScalar _ =>
      if decide (a = ∅) then Raised AttributeError else Raised TypeError
  end.

(** [load_config_dict]: a missing or unreadable file and an empty document
    give the empty mapping; the merge with the defaults is outside the
    [try]. *)
Definition load_config_dict (fs : FS) (filename : string) (defaults : gmap string entry)
    : outcome document :=
  let config_dict :=
    if negb (bool_decide (filename = "")) && path_exists fs filename then
      match fs_nodes fs !! filename with
      | Some (File text) =>
          match yaml_load text with
          | Returned (DocScalar PNone) => DocMapping ∅
          | Returned d => d
          | Raised _ => DocMapping ∅
          end
      | _ => DocMapping ∅
      end
    else DocMapping ∅ in
  if decide (defaults = ∅) then Returned config_dict
  else simple_dict_merge_document defaults config_dict.

Definition CONFIG_DEFAULTS : gmap string entry :=
  {[ "ansible" := EMapping (list_to_map
       [ ("config_file", RVal (PStr "ansible.cfg"));
         ("inventories", RList [PStr "inventory"]) ]) ]}.

(** ** [Configurator] *)

Record Configurator := mkConfigurator {
  debug_mode : bool;
  _config : MainConfig;
  _initial_config_dict : gmap string entry;
}.

(** [Configurator.config_to_dict]: the absolute-path form. *)
Definition config_to_dict (fs : FS) (_config : MainConfig) : outcome (gmap string entry) :=
  match config_context _config with
  | None => Raised AttributeError
  | Some cc =>
      let config_context := mkConfigContext (context_config_file cc) true false in
      MainConfigSchema_dump os fs config_context _config
  end.

(** [Configurator.config_changed]. *)
Definition config_changed (fs : FS) (self : Configurator) : outcome bool :=
  d ← config_to_dict fs (_config self);
  Returned (negb (bool_decide (d = _initial_config_dict self))).

(** The model a schema load must give to become [self._config]. *)
Definition the_model {M D} (r : loaded M D) : outcome M :=
  match r with
  | Model m => Returned m
  | Data _ => Raised AttributeError
  end.

Definition is_merge_action (k : string) : bool := Str.startswith "$" k.

(** [schema.load] of a document: one that is not a mapping is an invalid
    input and a key that is not a string is an unknown field; both are
    reported as [ValidationError]. *)
Definition MainConfigSchema_load_document (fs : FS) (context : ConfigContext)
    (doc : document) : outcome (loaded MainConfig (option AnsibleData)) :=
  match doc with
  | DocMapping m => MainConfigSchema_load os fs context m
  | _ => Raised ValidationError
  end.

(** [[k for k in config_dict.keys() if k.startswith('$')]]: a key that is
    not a string has no [startswith], and a list or a scalar has no [keys];
    both raise [AttributeError]. *)
Definition scan_merge_actions (doc : document) : outcome (gmap string entry) :=
  match doc with
  | DocMapping m => Returned m
  | _ => Raised AttributeError
  end.

(** The loop over several configuration files: each file is read over the
    document of the previous one, its [$] keys are taken out as merge
    options, and its model is merged into the models before it. *)
Fixpoint load_all (fs : FS) (config_files : list string) (config_dict : gmap string entry)
    (merged_config_model : option MainConfig) : outcome (option MainConfig) :=
  match config_files with
  | [] => Returned merged_config_model
  | config_file :: config_files =>
      let config_context :=
        mkConfigContext (Path_of_string (os_realpath os config_file)) true true in
      config_dict ← load_config_dict fs config_file config_dict;
      config_dict ← scan_merge_actions config_dict;
      let merge_options := filter (λ kv, is_merge_action kv.1 = true) config_dict in
      let config_dict := filter (λ kv, is_merge_action kv.1 = false) config_dict in
      config_model ← MainConfigSchema_load os fs config_context config_dict ≫= the_model;
      merged ← match merged_config_model with
               | None => Returned config_model
               | Some merged =>
                   attr_merger ← AttrMerger_init merge_options;
                   fst <$> MainConfig_merge merged config_model attr_merger
               end;
      load_all fs config_files config_dict (Some merged)
  end.

(** [Configurator.__init__]. The names of the configuration files are taken
    to be names [os.path.realpath] accepts; one with an embedded null byte,
    for which it raises [ValueError], is excluded where a statement depends
    on it. *)
Definition Configurator_init (fs : FS) (config_files : list string) (debug_mode : bool)
    : outcome Configurator :=
  _config ← match config_files with
            | [] => Returned (mkMainConfig AnsibleConfig_default None)
            | [config_file] =>
                let config_context :=
                  mkConfigContext (Path_of_string (os_realpath os config_file)) true true in
                config_dict ← load_config_dict fs config_file CONFIG_DEFAULTS;
                MainConfigSchema_load_document fs config_context config_dict ≫= the_model
            | _ =>
                m ← load_all fs config_files CONFIG_DEFAULTS None;
                match m with
                | Some m => Returned m
                | None => Raised AttributeError
                end
            end;
  d ← config_to_dict fs _config;
  Returned (mkConfigurator debug_mode _config d).

(** [os.path.realpath] as [save] calls it, outside any [try]: a name with an
    embedded null byte raises [ValueError]. *)
Definition realpath (path : string) : outcome string :=
  if Str.contains "000" path then Raised ValueError else Returned (os_realpath os path).

(** The context and the document [save] hands to [save_config_dict];
    [None] when it returns [False] before. *)
Definition save_plan (fs : FS) (self : Configurator) (filename : option string)
    (force : bool) : outcome (option (ConfigContext * gmap string entry)) :=
  cc ← match filename with
       | Some f =>
           if negb (bool_decide (f = ""))
           then rpath ← realpath f;
                Returned (Some (ConfigContext_for (Path_of_string rpath)))
           else Returned None
       | None => Returned None
       end;
  cc ← match cc with
       | Some cc => Returned (Some cc)
       | None =>
           changed ← (if force then Returned true else config_changed fs self);
           if negb changed then Returned None
           else match config_context (_config self) with
                | None => Raised AttributeError
                | Some c => Returned (Some (ConfigContext_for (context_config_file c)))
                end
       end;
  match cc with
  | None => Returned None
  | Some cc =>
      serialized_config ← MainConfigSchema_dump os fs cc (_config self);
      Returned (Some (cc, serialized_config))
  end.

(** [Configurator.save]. *)
Definition save (fs : FS) (self : Configurator) (filename : option string)
    (force do_backup : bool) : outcome bool * FS :=
  match save_plan fs self filename force with
  | Raised e => (Raised e, fs)
  | Returned None => (Returned false, fs)
  | Returned (Some (config_context, serialized_config)) =>
      save_config_dict fs (Path_str (context_config_file config_context))
        serialized_config do_backup
  end.
End Saving.

(** ** The accessor API *)

(** An argument that [to_list] normalizes: a single value, a tuple or a
    list. *)
Inductive arg (A : Type) :=
  | ArgOne (a : A)
  | ArgTuple (l : list A)
  | ArgList (l : list A).
Arguments ArgOne {A} a.
Arguments ArgTuple {A} l.
Arguments ArgList {A} l.

(** Truth value of an optional string: [None] and [""] are false. *)
Definition str_truthy (p : option string) : bool :=
  match p with
  | None => false
  | Some s => negb (bool_decide (s = ""))
  end.

(** A vault id given to the setter: [None], a string or a [VaultId]. *)
Inductive vault_item :=
  | ItemNone
  | ItemStr (s : string)
  | ItemVaultId (v : VaultId).

Definition item_truthy (i : vault_item) : bool :=
  match i with
  | ItemNone => false
  | ItemStr s => negb (bool_decide (s = ""))
  | ItemVaultId _ => true
  end.

Definition to_list {A} (truthy : A → bool) (value : arg A) : list A :=
  match value with
  | ArgOne a => if truthy a then [a] else []
  | ArgTuple l => l
  | ArgList l => l
  end.

Section Accessors.
Context (os : OSEnv) (fs : FS).

Definition to_abspath_list (value : arg (option string)) : list string :=
  omap (λ p, if str_truthy p then os_abspath os <$> p else None) (to_list str_truthy value).

Definition with_ansible (self : Configurator) (f : AnsibleConfig → AnsibleConfig)
    : Configurator :=
  mkConfigurator (debug_mode self)
    (mkMainConfig (f (ansible (_config self))) (config_context (_config self)))
    (_initial_config_dict self).

(** [os.path.abspath(None)] raises [TypeError]. *)
Definition abspath_Path (value : option string) : outcome Path :=
  match value with
  | None => Raised TypeError
  | Some s => Returned (Path_of_string (os_abspath os s))
  end.

Definition paths_of (value : arg (option string)) : list Path :=
  Path_of_string <$> to_abspath_list value.

Definition set_ansible_user (self : Configurator) (value : option string) :=
  with_ansible self (λ c, set_user c value).

Definition set_ansible_private_key_file (self : Configurator) (value : option string) :=
  p ← abspath_Path value;
  Returned (with_ansible self (λ c, set_private_key_file c (Some p))).

Definition set_ansible_config_file (self : Configurator) (value : option string) :=
  p ← abspath_Path value;
  Returned (with_ansible self (λ c, set_config_file c (Some p))).

Definition set_ansible_inventories (self : Configurator) (value : arg (option string)) :=
  with_ansible self (λ c, set_inventories c (paths_of value)).

Definition set_ansible_vault_password_files (self : Configurator)
    (value : arg (option string)) :=
  with_ansible self (λ c, set_vault_password_files c (paths_of value)).

Definition set_ansible_vault_ids (self : Configurator) (value : arg vault_item) :=
  ids ← mapM (λ i, match i with
                   | ItemVaultId v => Returned v
                   | ItemStr s => VaultId_init os fs (Some s) None None SourceNone true
                   | ItemNone => VaultId_init os fs None None None SourceNone true
                   end)
             (filter (λ i, item_truthy i = true) (to_list item_truthy value));
  Returned (with_ansible self (λ c, set_vault_ids c ids)).

Definition set_ansible_vault_encrypt_identity (self : Configurator)
    (value : option string) :=
  with_ansible self (λ c, set_vault_encrypt_identity c value).

Definition set_ansible_log_path (self : Configurator) (value : option string) :=
  p ← abspath_Path value;
  Returned (with_ansible self (λ c, set_log_path c (Some p))).

Definition set_ansible_vault_files (self : Configurator) (value : arg (option string)) :=
  with_ansible self (λ c, set_vault_files c (paths_of value)).

Definition set_ansible_vars_files (self : Configurator) (value : arg (option string)) :=
  with_ansible self (λ c, set_vars_files c (paths_of value)).

Definition set_ansible_user_scripts (self : Configurator) (value : arg (option string)) :=
  with_ansible self (λ c, set_user_scripts c (paths_of value)).

(** [set_ansible_env_vars]: [value] is given by its items; the keys are
    turned into strings, the values are stored as they are. *)
Definition set_ansible_env_vars (self : Configurator) (value : list (pyval * pyval)) :=
  with_ansible self (λ c, set_env_vars c
    (dict_of_items ((λ kv : pyval * pyval, (py_str kv.1, kv.2)) <$> value))).

(** A call of one of the setters. *)
Inductive setter_call :=
  | Call_user (value : option string)
  | Call_private_key_file (value : option string)
  | Call_config_file (value : option string)
  | Call_inventories (value : arg (option string))
  | Call_vault_password_files (value : arg (option string))
  | Call_vault_ids (value : arg vault_item)
  | Call_vault_encrypt_identity (value : option string)
  | Call_log_path (value : option string)
  | Call_vault_files (value : arg (option string))
  | Call_vars_files (value : arg (option string))
  | Call_user_scripts (value : arg (option string))
  | Call_env_vars (value : list (pyval * pyval)).

Definition call_setter (self : Configurator) (c : setter_call) : outcome Configurator :=
  match c with
  | Call_user v => Returned (set_ansible_user self v)
  | Call_private_key_file v => set_ansible_private_key_file self v
  | Call_config_file v => set_ansible_config_file self v
  | Call_inventories v => Returned (set_ansible_inventories self v)
  | Call_vault_password_files v => Returned (set_ansible_vault_password_files self v)
  | Call_vault_ids v => set_ansible_vault_ids self v
  | Call_vault_encrypt_identity v => Returned (set_ansible_vault_encrypt_identity self v)
  | Call_log_path v => set_ansible_log_path self v
  | Call_vault_files v => Returned (set_ansible_vault_files self v)
  | Call_vars_files v => Returned (set_ansible_vars_files self v)
  | Call_user_scripts v => Returned (set_ansible_user_scripts self v)
  | Call_env_vars v => Returned (set_ansible_env_vars self v)
  end.
End Accessors.

(** ** Vocabulary of the statements *)

(** How often [x] occurs in [l]. *)
Definition occurrences {A} `{EqDecision A} (x : A) (l : list A) : nat :=
  length (filter (λ y, y = x) l).

(** [result] is [base], in its order, followed by a tail that keeps, in the
    order of [overlay], exactly the elements of [overlay] that [base] lacks,
    each as often as [overlay] has it: once when [overlay] repeats nothing. *)
Definition append_unique {A} `{EqDecision A} (base overlay result : list A) : Prop :=
  ∃ tail, result = base ++ tail ∧
          tail `sublist_of` overlay ∧
          (∀ x, x ∈ tail ↔ x ∈ overlay ∧ x ∉ base) ∧
          (∀ x, x ∈ tail → occurrences x result = occurrences x overlay) ∧
          (NoDup overlay → ∀ x, x ∈ tail → occurrences x result = 1).

(** The text [PathField._serialize] produces. *)
Definition path_text (context : ConfigContext) (p : Path) : string :=
  if serialize_relative_paths context then
    match relative_to p (config_dir context) with
    | Some rel => Path_str rel
    | None => Path_str p
    end
  else Path_str p.

(** The text [VaultIdField._serialize] produces. *)
Definition vault_id_text (context : ConfigContext) (value : VaultId) : string :=
  if serialize_relative_paths context then
    match source_path value with
    | Some sp =>
        match relative_to sp (config_dir context) with
        | Some rel => label value +:+ "@" +:+ Path_str rel
        | None => VaultId_id value
        end
    | None => VaultId_id value
    end
  else VaultId_id value.

(** What [dump] writes under the key of an optional path, of an optional
    string and of a list of paths. *)
Definition path_value (context : ConfigContext) (o : option Path) : option raw :=
  (λ p, RVal (PStr (path_text context p))) <$> o.
Definition str_value (o : option string) : option raw :=
  (λ s, RVal (PStr s)) <$> o.
Definition paths_value (context : ConfigContext) (l : list Path) : raw :=
  RList ((λ p, PStr (path_text context p)) <$> l).

(** The text of [p] does not start with a tilde. *)
Definition tilde_free (p : Path) : Prop :=
  match path_parts p with
  | x :: _ => Str.startswith "~" x = false
  | [] => True
  end.

(** [p] lies under the configuration directory, and its form relative to that
    directory does not start with a tilde. *)
Definition path_under (context : ConfigContext) (p : Path) : Prop :=
  wf_Path p ∧
  ∃ rel, relative_to p (config_dir context) = Some rel ∧ tilde_free rel.

(** The label of [v] has no [@]; when the source of [v] is a path, it is
    spelled the way [str] spells a path and lies under the configuration
    directory, and its relative form starts with no tilde, is not the word
    [prompt] and names nothing that exists. *)
Definition vault_id_under (fs : FS) (context : ConfigContext) (v : VaultId) : Prop :=
  Str.contains "@" (label v) = false ∧
  (source_is_path v = true →
     Path_str (Path_of_string (source v)) = source v ∧
     ∃ rel, relative_to (Path_of_string (source v)) (config_dir context) = Some rel ∧
            tilde_free rel ∧ Path_str rel ≠ "prompt" ∧
            path_exists fs (Path_str rel) = false).

Definition opt_under (context : ConfigContext) (o : option Path) : Prop :=
  ∀ p, o = Some p → path_under context p.

Definition settings_under (fs : FS) (context : ConfigContext) (c : AnsibleConfig) : Prop :=
  opt_under context (config_file c) ∧
  Forall (path_under context) (inventories c) ∧
  Forall (vault_id_under fs context) (vault_ids c) ∧
  Forall (path_under context) (vault_password_files c) ∧
  Forall (path_under context) (user_scripts c) ∧
  Forall (path_under context) (vars_files c) ∧
  Forall (path_under context) (vault_files c) ∧
  opt_under context (private_key_file c) ∧
  opt_under context (log_path c) ∧
  map_Forall (λ _ v, is_str v = true) (env_vars c).

(** Every path of the settings is one the path constructor builds. *)
Definition paths_wf (c : AnsibleConfig) : Prop :=
  (∀ p, config_file c = Some p → wf_Path p) ∧
  Forall wf_Path (inventories c) ∧
  Forall wf_Path (vault_password_files c) ∧
  Forall wf_Path (user_scripts c) ∧
  Forall wf_Path (vars_files c) ∧
  Forall wf_Path (vault_files c) ∧
  (∀ p, private_key_file c = Some p → wf_Path p) ∧
  (∀ p, log_path c = Some p → wf_Path p).

(** No vault identity has an [@] in its label, and every environment
    variable holds a string. *)
Definition plainly_encoded (c : AnsibleConfig) : Prop :=
  Forall (λ v, Str.contains "@" (label v) = false) (vault_ids c) ∧
  map_Forall (λ _ v, is_str v = true) (env_vars c).

(** ** Helpers of the command line *)

(** [vault_id_source] and [vault_id_label]: the two sides of the first [@],
    [None] when there is none. *)
Definition vault_id_source (vault_id : string) : option string :=
  if Str.contains "@" vault_id then Some (Str.split_first "@" vault_id).2 else None.

Definition vault_id_label (vault_id : string) : option string :=
  if Str.contains "@" vault_id then Some (Str.split_first "@" vault_id).1 else None.

(** [sep_at_end]. *)
Definition sep_at_end (path : string) : string :=
  if negb (StrPath.endswith sep path) then path +:+ "/" else path.

(** [list.remove(x)]: the first occurrence goes. *)
Fixpoint list_remove (x : string) (l : list string) : list string :=
  match l with
  | [] => []
  | y :: l => if decide (y = x) then l else y :: list_remove x l
  end.

Section ListArgs.
(** [str(value_class(item))], the normal form of an item. *)
Context (value_class : string → string).

(** One round of the loop over [remove_args]. *)
Definition remove_arg (new_values : list string) (item : string) : list string :=
  if bool_decide (item ∈ new_values) then list_remove item new_values
  else
    let _item := value_class item in
    if bool_decide (_item ∈ new_values) then list_remove _item new_values
    else new_values.

(** One round of the loop over [add_args]. *)
Definition add_arg (new_values : list string) (item : string) : list string :=
  let _item := value_class item in
  if negb (bool_decide (item ∈ new_values)) && negb (bool_decide (_item ∈ new_values))
  then new_values ++ [item]
  else new_values.

(** The list [process_list_args] computes before it compares it with the old
    one. *)
Definition processed_list (set_args add_args remove_args old_values : list string)
    : list string :=
  let new_values := if negb (bool_decide (set_args = [])) then set_args else old_values in
  let new_values := foldl remove_arg new_values remove_args in
  foldl add_arg new_values add_args.

(** [process_list_args]; [old_values] are the configured values as strings. *)
Definition process_list_args (set_args add_args remove_args old_values : list string)
    : option (list string) :=
  if negb (bool_decide (set_args = [])) || negb (bool_decide (remove_args = []))
     || negb (bool_decide (add_args = []))
  then
    let new_values := processed_list set_args add_args remove_args old_values in
    if bool_decide (new_values = old_values) then None else Some new_values
  else None.

(** The list in force after [process_list_args]: the new one, or the old one
    when the answer is [None] (the caller then leaves the setting alone). *)
Definition list_in_force (set_args add_args remove_args old_values : list string)
    : list string :=
  default old_values (process_list_args set_args add_args remove_args old_values).

(** [process_kvlist_args]: the pairs come from the command line and are
    strings. *)
Definition remove_key (new_values : gmap string pyval) (key : string) : gmap string pyval :=
  if bool_decide (is_Some (new_values !! key)) then delete key new_values
  else
    let _key := value_class key in
    if bool_decide (is_Some (new_values !! _key)) then delete _key new_values
    else new_values.

Definition processed_kvlist (set_args add_args : list (string * string))
    (remove_args : list string) (old_values : gmap string pyval) : gmap string pyval :=
  let new_values :=
    if negb (bool_decide (set_args = []))
    then dict_of_items ((λ kv : string * string, (kv.1, PStr kv.2)) <$> set_args)
    else old_values in
  let new_values := foldl remove_key new_values remove_args in
  foldl (λ m kv, <[kv.1 := PStr kv.2]> m) new_values add_args.

Definition process_kvlist_args (set_args add_args : list (string * string))
    (remove_args : list string) (old_values : gmap string pyval)
    : option (gmap string pyval) :=
  if negb (bool_decide (set_args = [])) || negb (bool_decide (remove_args = []))
     || negb (bool_decide (add_args = []))
  then
    let new_values := processed_kvlist set_args add_args remove_args old_values in
    if bool_decide (new_values = old_values) then None else Some new_values
  else None.
(** The mapping in force after [process_kvlist_args]. *)
Definition kvlist_in_force (set_args add_args : list (string * string))
    (remove_args : list string) (old_values : gmap string pyval) : gmap string pyval :=
  default old_values (process_kvlist_args set_args add_args remove_args old_values).
End ListArgs.

(** ** The [ansible-vault] command line *)

(** [add_ansible_vault_password_file_args]: only the files that exist. *)
Definition add_ansible_vault_password_file_args (fs : FS) (self : Configurator)
    (args : list string) : list string :=
  foldl (λ args f,
           if path_exists fs (Path_str f)
           then args ++ ["--vault-password-file"; Path_str f] else args)
        args (vault_password_files (ansible (_config self))).

(** [add_ansible_vault_id_args]. *)
Definition add_ansible_vault_id_args (self : Configurator) (args : list string)
    : list string :=
  foldl (λ args v, args ++ ["--vault-id"; VaultId_id v])
        args (vault_ids (ansible (_config self))).

(** [has_ansible_vault_password_file]. *)
Definition has_ansible_vault_password_file (fs : FS) (self : Configurator) : bool :=
  existsb (λ f, path_exists fs (Path_str f)) (vault_password_files (ansible (_config self))).

(** The argument list [run_ansible_vault] hands to the child process. *)
Definition ansible_vault_cmd_args (fs : FS) (self : Configurator) (command vault_file : string)
    (extra_cmd_args : option (list string)) : list string :=
  let cmd_args := ["ansible-vault"; command] in
  let cmd_args := add_ansible_vault_password_file_args fs self cmd_args in
  let cmd_args := add_ansible_vault_id_args self cmd_args in
  let cmd_args := cmd_args ++ [vault_file] in
  match extra_cmd_args with
  | Some (x :: l) => cmd_args ++ x :: l
  | _ => cmd_args
  end.

(** The setter calls made one after the other. *)
Fixpoint call_setters (os : OSEnv) (fs : FS) (self : Configurator)
    (calls : list setter_call) : outcome Configurator :=
  match calls with
  | [] => Returned self
  | c :: calls => self ← call_setter os fs self c; call_setters os fs self calls
  end.

(** [k] tildes. *)
Fixpoint tildes (k : nat) : string :=
  match k with
  | 0 => ""
  | S k => "~" +:+ tildes k
  end.


(** ** Helpers over sequences and directories *)

(** [foreach]: nothing for a false value, the function applied to a single
    value, or to each element of a list or tuple. *)
Definition foreach {A B} (truthy : A → bool) (value : arg A) (func : A → B) : list B :=
  match value with
  | ArgOne a => if truthy a then [func a] else []
  | ArgTuple l => func <$> l
  | ArgList l => func <$> l
  end.



(** [none_to_empty_str] and [array_none_to_empty_str]. *)
Definition none_to_empty_str (val : option string) : string := default "" val.

Definition array_none_to_empty_str (arr : arg (option string)) : list string :=
  foreach str_truthy arr none_to_empty_str.








(** ** Sample inputs *)

Definition path_a : Path := mkPath "/" ["etc"; "a"].
Definition path_b : Path := mkPath "/" ["etc"; "b"].
Definition demo_context : ConfigContext := ConfigContext_for (mkPath "/" ["etc"; "config.yml"]).
Definition demo_base : MainConfig :=
  mkMainConfig (set_user (set_inventories AnsibleConfig_default [path_a]) (Some "alice"))
    (Some demo_context).
Definition demo_overlay : MainConfig :=
  mkMainConfig (set_inventories AnsibleConfig_default [path_b; path_b]) (Some demo_context).
Definition no_options : gmap string entry := ∅.
Definition replace_inventories : gmap string entry :=
  {[ REPLACE_VARS_MERGE_ACTION := EList [PStr "ansible.inventories"] ]}.


(** A machine where the current user's home is [/root], names are their own
    real and absolute paths, and no file exists. *)
Definition demo_os : OSEnv :=
  mkOSEnv (λ name, if decide (name = "") then Some "/root" else None) id id.
Definition empty_fs : FS := mkFS ∅ ∅.

(** Settings whose paths lie under [/etc]. *)
Definition demo_settings : AnsibleConfig :=
  mkAnsibleConfig (Some (mkPath "/" ["etc"; "ansible.cfg"])) [path_a; path_b]
    [mkVaultId "prod" "/etc/vault_pw"; mkVaultId "dev" "prompt"] [] [] [] []
    None (Some "alice") None None {[ "LANG" := PStr "C" ]}.

(** Settings with a vault identity whose password file is named [prompt]. *)
Definition prompt_settings : AnsibleConfig :=
  set_vault_ids AnsibleConfig_default [mkVaultId "prod" "/etc/prompt"].

(** A loaded configurator whose environment holds the string ["1"]. *)
Definition demo_env_settings : AnsibleConfig :=
  set_env_vars AnsibleConfig_default {[ "A" := PStr "1" ]}.

(** A file that starts with the vault header and one that is too short. *)
Definition vault_text : bytes :=
  Eval cbv in list_byte_of_string "$ANSIBLE_VAULT;1.1;AES256".
Definition vault_fs : FS :=
  mkFS {[ "/etc/vault.yml" := File vault_text;
          "/etc/short" := File (take 5 vault_text);
          "/etc/dir" := Dir ]} ∅.

(** A configurator as [__init__] leaves it for the model [m]: the snapshot is
    the absolute-path form of [m]. *)
Definition loaded_with (os : OSEnv) (fs : FS) (m : MainConfig) : Configurator :=
  mkConfigurator false m
    (match config_to_dict os fs m with Returned d => d | Raised _ => ∅ end).

Definition demo_main : MainConfig := mkMainConfig demo_settings (Some demo_context).
Definition demo_loaded : Configurator := loaded_with demo_os empty_fs demo_main.

(** A dumper that writes nothing, and a machine where the configuration file
    exists and cannot be renamed or written. *)
Definition demo_yaml_dump (d : gmap string entry) : outcome bytes := Returned [].
Definition denied_fs : FS :=
  mkFS {[ "/etc/config.yml" := File [] ]} {[ "/etc/config.yml" ]}.

(** A machine with one configuration file, and what the YAML loader reads
    from it. *)
Definition config_fs : FS := mkFS {[ "/etc/config.yml" := File [] ]} ∅.
Definition demo_document : gmap string entry :=
  {[ "ansible" := EMapping (list_to_map
       [ ("user", RVal (PStr "alice"));
         ("env_vars", RDict [(PStr "A", PStr "1")]) ]) ]}.
Definition demo_yaml_load (text : bytes) : outcome document :=
  Returned (DocMapping demo_document).

(** The configurator loaded from that file. *)
Definition demo_initial : Configurator :=
  match Configurator_init demo_os demo_yaml_load config_fs ["/etc/config.yml"] false with
  | Returned self => self
  | Raised _ => loaded_with demo_os config_fs demo_main
  end.

(** A machine where [/etc/config.yml] and its first backup exist. *)
Definition old_text : bytes := Eval cbv in list_byte_of_string "old".
Definition older_text : bytes := Eval cbv in list_byte_of_string "older".
Definition new_text : bytes := Eval cbv in list_byte_of_string "new".
Definition backup_fs : FS :=
  mkFS {[ "/etc/config.yml" := File old_text; "/etc/config.yml~" := File older_text ]} ∅.
Definition new_yaml_dump (d : gmap string entry) : outcome bytes := Returned new_text.

(** A document with a replace policy, and a loader that reads it. *)
Definition policy_document : gmap string entry :=
  {[ "ansible" := EMapping (list_to_map [("inventories", RList [PStr "hosts"])]);
     "$replace_vars" := EList [PStr "ansible.inventories"] ]}.
Definition policy_yaml_load (text : bytes) : outcome document :=
  Returned (DocMapping policy_document).

(** A policy written as a bare string instead of a list. *)
Definition string_policy : gmap string entry :=
  {[ REPLACE_VARS_MERGE_ACTION := EScalar (PStr "ansible.inventories") ]}.

(** Normal form of a command-line item: the absolute path. *)
Definition demo_value_class (item : string) : string :=
  if Str.startswith "/" item then item else "/work/" +:+ item.

(** A machine whose working directory is [/work]. *)
Definition work_os : OSEnv :=
  mkOSEnv (λ name, None) id (λ s, if isabs s then s else "/work/" +:+ s).


(** * Properties *)

(** ** Sanity checks of the path model *)

Example split_ex : Str.split sep "/etc//a/./b/" = [""; "etc"; ""; "a"; "."; "b"; ""].
Proof. reflexivity. Qed.
Example parse_ex : Path_of_string "/etc//a/./b/" = mkPath "/" ["etc"; "a"; "b"].
Proof. vm_compute. reflexivity. Qed.
Example parse_ex2 : Path_of_string "//etc" = mkPath "//" ["etc"].
Proof. vm_compute. reflexivity. Qed.
Example parse_ex3 : Path_of_string "///etc" = mkPath "/" ["etc"].
Proof. vm_compute. reflexivity. Qed.
Example parse_ex4 : Path_str (Path_of_string "") = ".".
Proof. vm_compute. reflexivity. Qed.
Example rel_ex : relative_to (Path_of_string "/etc/a/b") (Path_of_string "/etc") = Some (mkPath "" ["a";"b"]).
Proof. vm_compute. reflexivity. Qed.

(** ** Splitting and joining *)

Section StrFacts.
Variable c : ascii.

Lemma split_nonempty s : Str.split c s ≠ [].
Proof. destruct s as [|a s]; simpl; [done|]. case_decide; [done|]. by destruct (Str.split c s). Qed.

Lemma split_no_sep x : Str.contains c x = false → Str.split c x = [x].
Proof.
  induction x as [|a x IH]; simpl; [done|].
  case_decide; [done|]. intros Hx. by rewrite IH.
Qed.

Lemma split_app_sep x s :
  Str.contains c x = false → Str.split c (x +:+ String c s) = x :: Str.split c s.
Proof.
  induction x as [|a x IH]; simpl; intros Hx.
  - by rewrite decide_True.
  - case_decide; [done|]. by rewrite IH.
Qed.

Lemma split_parts_no_sep s : Forall (λ x, Str.contains c x = false) (Str.split c s).
Proof.
  induction s as [|a s IH]; simpl.
  - by constructor.
  - case_decide; [by constructor|].
    destruct (Str.split c s) as [|w ws]; [by repeat constructor; simpl; rewrite decide_False|].
    inversion_clear IH. constructor; [|done]. simpl. by rewrite decide_False.
Qed.

Lemma contains_app x y :
  Str.contains c (x +:+ y) = Str.contains c x || Str.contains c y.
Proof. induction x as [|a x IH]; simpl; [done|]. by case_decide. Qed.

Lemma split_first_app l r :
  Str.contains c l = false → Str.split_first c (l +:+ String c r) = (l, r).
Proof.
  induction l as [|a l IH]; simpl; intros Hl.
  - by rewrite decide_True.
  - case_decide; [done|]. by rewrite IH.
Qed.

Lemma split_first_left_no_sep s : Str.contains c (Str.split_first c s).1 = false.
Proof.
  induction s as [|a s IH]; simpl; [done|].
  case_decide; [done|]. destruct (Str.split_first c s). simpl in *. by rewrite decide_False.
Qed.

Lemma lstrip_not_head a s : a ≠ c → Str.lstrip c (String a s) = String a s.
Proof. intros. simpl. by rewrite decide_False. Qed.
End StrFacts.

Lemma join_cons x y l : Str.join "/" (x :: y :: l) = x +:+ String sep (Str.join "/" (y :: l)).
Proof. reflexivity. Qed.

Lemma split_join l :
  Forall (λ x, Str.contains sep x = false) l → l ≠ [] →
  Str.split sep (Str.join "/" l) = l.
Proof.
  induction l as [|x [|y l] IH]; intros Hl Hne; [done| |].
  - simpl. apply split_no_sep. by inversion Hl.
  - rewrite join_cons. inversion_clear Hl.
    rewrite split_app_sep by done. f_equal. by apply IH.
Qed.

Lemma filter_components l :
  Forall wf_component l → filter (λ x, is_component x = true) l = l.
Proof.
  induction 1 as [|x l [H1 [H2 H3]] Hl IH]; [done|].
  rewrite filter_cons_True, IH; [done|].
  unfold is_component. by rewrite !bool_decide_eq_false_2.
Qed.

Lemma wf_component_no_sep l :
  Forall wf_component l → Forall (λ x, Str.contains sep x = false) l.
Proof. intros Hl. eapply Forall_impl; [exact Hl|]. by intros x (_ & _ & ?). Qed.

(** The components of a relative, non-empty path spell a string that starts
    with no slash. *)
Lemma join_head l :
  Forall wf_component l → l ≠ [] →
  ∃ a s, Str.join "/" l = String a s ∧ a ≠ sep.
Proof.
  intros Hl Hne. destruct l as [|x l]; [done|].
  inversion_clear Hl as [|? ? (Hx & _ & Hs)].
  destruct x as [|a x]; [done|]. simpl in Hs. case_decide; [done|].
  exists a. destruct l; simpl; eauto.
Qed.

Lemma parse_rel l :
  Forall wf_component l →
  filter (λ x, is_component x = true) (Str.split sep (Str.join "/" l)) = l.
Proof.
  intros Hl. destruct (decide (l = [])) as [->|Hne]; [done|].
  rewrite split_join by auto using wf_component_no_sep. by apply filter_components.
Qed.

Lemma lstrip_join l :
  Forall wf_component l → Str.lstrip sep (Str.join "/" l) = Str.join "/" l.
Proof.
  intros Hl. destruct (decide (l = [])) as [->|Hne]; [done|].
  destruct (join_head l Hl Hne) as (a & s & -> & Ha). by apply lstrip_not_head.
Qed.

(** ** [str] and the constructor are inverse on well-formed paths *)

Lemma Path_of_string_str p : wf_Path p → Path_of_string (Path_str p) = p.
Proof.
  destruct p as [r l]. intros [Hr Hl]. simpl in *.
  unfold Path_str, Path_of_string. simpl.
  destruct Hr as [->|[->| ->]].
  - destruct (decide (l = [])) as [->|Hne]; [done|].
    destruct (join_head l Hl Hne) as (a & s & E & Ha).
    change ("" +:+ Str.join "/" l) with (Str.join "/" l).
    rewrite decide_False by (by rewrite E).
    unfold splitroot. rewrite E, decide_False by done. rewrite <- E.
    by rewrite parse_rel.
  - change ("/" +:+ Str.join "/" l) with (String sep (Str.join "/" l)).
    rewrite decide_False by done. unfold splitroot.
    rewrite decide_True by done.
    change (Str.lstrip sep (String sep (Str.join "/" l))) with (Str.lstrip sep (Str.join "/" l)).
    rewrite lstrip_join by done. simpl String.length.
    rewrite decide_False by lia. by rewrite parse_rel.
  - change ("//" +:+ Str.join "/" l) with (String sep (String sep (Str.join "/" l))).
    rewrite decide_False by done. unfold splitroot.
    rewrite decide_True by done.
    change (Str.lstrip sep (String sep (String sep (Str.join "/" l)))) with (Str.lstrip sep (Str.join "/" l)).
    rewrite lstrip_join by done. simpl String.length.
    rewrite decide_True by lia. by rewrite parse_rel.
Qed.

Lemma splitroot_root s :
  (splitroot s).1 = "" ∨ (splitroot s).1 = "/" ∨ (splitroot s).1 = "//".
Proof. unfold splitroot. destruct s; [by left|]. repeat case_decide; simpl; auto. Qed.

Lemma wf_Path_of_string s : wf_Path (Path_of_string s).
Proof.
  unfold Path_of_string. pose proof (splitroot_root s) as Hr.
  destruct (splitroot s) as [r rel]. split; [done|]. simpl.
  apply Forall_forall. intros x [Hx Hin]%list_elem_of_filter.
  pose proof (split_parts_no_sep sep rel) as Hs.
  rewrite Forall_forall in Hs. specialize (Hs x Hin).
  unfold is_component in Hx. apply andb_true_iff in Hx as [H1 H2].
  apply negb_true_iff, bool_decide_eq_false in H1, H2. by repeat split.
Qed.

Lemma Path_str_inj p q : wf_Path p → wf_Path q → Path_str p = Path_str q → p = q.
Proof. intros Hp Hq E. by rewrite <- (Path_of_string_str p), <- (Path_of_string_str q), E. Qed.

(** ** The attribute merger *)

Lemma end_begin_attr m name : end_attr (begin_attr m name) = Returned m.
Proof.
  destruct m as [o rv cur st]. unfold end_attr, begin_attr. simpl.
  by rewrite last_snoc, removelast_last.
Qed.

(** The dotted name under which [merge_attr] looks an attribute up. *)
Lemma cur_begin_attr m name :
  cur_attr_name (begin_attr m name) =
  if decide (cur_attr_name m = "") then name else cur_attr_name m +:+ "." +:+ name.
Proof. done. Qed.

Lemma merge_attr_eq m this that a :
  merge_attr m this that a =
  Returned (attr_set a this
              (if bool_decide (cur_attr_name (begin_attr m (attr_name a)) ∈ replace_vars m)
               then attr_get a that
               else @merge_values _ (attr_mergeable a) (attr_get a this) (attr_get a that)),
            m).
Proof.
  unfold merge_attr. rewrite end_begin_attr. simpl.
  by destruct (bool_decide _).
Qed.

Lemma AnsibleConfig_merge_eq self other opts rv st :
  let m := mkAttrMerger opts rv "ansible" st in
  let pick {V} `{Mergeable V} (name : string) (f : AnsibleConfig → V) :=
    if bool_decide ("ansible." +:+ name ∈ rv) then f other
    else merge_values (f self) (f other) in
  AnsibleConfig_merge self other m =
  Returned (mkAnsibleConfig (config_file other)
              (pick "inventories" inventories)
              (pick "vault_ids" vault_ids)
              (pick "vault_password_files" vault_password_files)
              (pick "user_scripts" user_scripts)
              (pick "vars_files" vars_files)
              (pick "vault_files" vault_files)
              (private_key_file other) (user other)
              (vault_encrypt_identity other) (log_path other)
              (pick "env_vars" env_vars), m).
Proof.
  intros m pick. unfold AnsibleConfig_merge, merged_attrs, merge_attrs.
  repeat (rewrite merge_attr_eq; cbn [mbind outcome_bind attr_get attr_set attr_name attr_mergeable]).
  unfold pick, m. cbn.
  rewrite !(decide_False (P := "ansible" = "")) by done. reflexivity.
Qed.

Lemma AttrMerger_init_fresh opts m :
  AttrMerger_init opts = Returned m →
  m = mkAttrMerger opts (replace_vars m) "" [].
Proof.
  unfold AttrMerger_init. destruct (replace_vars_of opts); simpl; [|done].
  by intros [= <-].
Qed.

Lemma MainConfig_merge_eq self other opts rv :
  let m := mkAttrMerger opts rv "" [] in
  ∃ a, MainConfig_merge self other m = Returned (mkMainConfig a (config_context other), m) ∧
       AnsibleConfig_merge (ansible self) (ansible other) (begin_attr m "ansible")
       = Returned (a, begin_attr m "ansible").
Proof.
  intros m. unfold MainConfig_merge.
  change (begin_attr m "ansible") with (mkAttrMerger opts rv "ansible" [""]).
  rewrite AnsibleConfig_merge_eq. eexists. split; [|reflexivity].
  cbn [mbind outcome_bind].
  change (mkAttrMerger opts rv "ansible" [""]) with (begin_attr m "ansible").
  by rewrite end_begin_attr.
Qed.

Lemma merge_fresh base overlay opts m :
  AttrMerger_init opts = Returned m →
  ∃ a, MainConfig_merge base overlay m = Returned (mkMainConfig a (config_context overlay), m) ∧
       AnsibleConfig_merge (ansible base) (ansible overlay)
         (mkAttrMerger opts (replace_vars m) "ansible" [""])
       = Returned (a, mkAttrMerger opts (replace_vars m) "ansible" [""]).
Proof.
  intros Hm. rewrite (AttrMerger_init_fresh _ _ Hm). simpl.
  apply MainConfig_merge_eq.
Qed.

(** ** Append-unique lists *)

Section AppendUnique.
Context {A : Type} `{EqDecision A}.
Implicit Types (x : A) (l k base overlay result : list A).

Lemma occurrences_app x l k : occurrences x (l ++ k) = occurrences x l + occurrences x k.
Proof. unfold occurrences. by rewrite filter_app, length_app. Qed.

Lemma occurrences_absent x l : x ∉ l → occurrences x l = 0.
Proof.
  unfold occurrences. induction l as [|y l IH]; [done|].
  intros [Hne Hl]%not_elem_of_cons.
  rewrite filter_cons_False by congruence. auto.
Qed.

Lemma occurrences_filter (P : A → Prop) `{∀ x, Decision (P x)} x l :
  P x → occurrences x (filter P l) = occurrences x l.
Proof.
  intros Hx. unfold occurrences. rewrite list_filter_filter. f_equal.
  apply list_filter_iff. intros y. split; [by intros [? _]|by intros ->].
Qed.

Lemma occurrences_cons x y l :
  occurrences x (y :: l) = (if decide (y = x) then 1 else 0) + occurrences x l.
Proof. unfold occurrences. rewrite filter_cons. by destruct (decide (y = x)). Qed.

Lemma occurrences_NoDup x l : NoDup l → x ∈ l → occurrences x l = 1.
Proof.
  induction 1 as [|y l Hy Hl IH]; [by intros ?%elem_of_nil|].
  rewrite occurrences_cons. intros [->|Hx]%elem_of_cons.
  - rewrite decide_True by done. by rewrite (occurrences_absent y l Hy).
  - rewrite decide_False by (intros ->; done). auto.
Qed.

Lemma merge_values_append_unique base overlay :
  append_unique base overlay (merge_values base overlay).
Proof.
  assert (Hocc : ∀ x, x ∈ filter (λ item, item ∉ base) overlay →
            occurrences x (merge_values base overlay) = occurrences x overlay).
  { intros x [Hx _]%list_elem_of_filter.
    change (merge_values base overlay) with (base ++ filter (λ item, item ∉ base) overlay).
    rewrite occurrences_app, (occurrences_absent x base Hx).
    by rewrite (occurrences_filter (λ item, item ∉ base)). }
  exists (filter (λ item, item ∉ base) overlay). split; [done|].
  split; [apply sublist_filter|]. split; [|split; [done|]].
  - intros x. by rewrite list_elem_of_filter, (comm and).
  - intros Hnd x Hx. rewrite Hocc by done.
    apply occurrences_NoDup; [done|]. by apply list_elem_of_filter in Hx as [_ ?].
Qed.
End AppendUnique.

(** The merged inventories when they are not replaced. *)
Lemma merge_append_unique_lists base overlay opts m :
  AttrMerger_init opts = Returned m →
  ∃ r, MainConfig_merge base overlay m = Returned (r, m) ∧
       ("ansible.inventories" ∉ replace_vars m →
        append_unique (inventories (ansible base)) (inventories (ansible overlay))
          (inventories (ansible r))).
Proof.
  intros Hm. destruct (merge_fresh base overlay _ _ Hm) as (a & Hr & Ha).
  rewrite AnsibleConfig_merge_eq in Ha. injection Ha as <-.
  eexists. split; [exact Hr|]. cbn [ansible inventories]. intros Hn.
  rewrite bool_decide_eq_false_2 by exact Hn. apply merge_values_append_unique.
Qed.

(** ** Results of monadic maps *)

Lemma mapM_outcome_cons {A B} (f : A → outcome B) x l :
  mapM f (x :: l) = y ← f x; k ← mapM f l; Returned (y :: k).
Proof. reflexivity. Qed.

Lemma mapM_Returned {A B} (f : A → outcome B) (g : A → B) l :
  (∀ x, x ∈ l → f x = Returned (g x)) → mapM f l = Returned (g <$> l).
Proof.
  induction l as [|x l IH]; intros Hf; [done|].
  rewrite mapM_outcome_cons, Hf by left. rewrite IH; [done|].
  intros y Hy. apply Hf. by right.
Qed.

(** ** Serialization never raises *)

Section DumpFacts.
Context (os : OSEnv) (fs : FS) (context : ConfigContext).

Lemma VaultId_copy_eq v : source_is_path v = false → VaultId_copy os fs v = Returned v.
Proof.
  destruct v as [l s]. unfold source_is_path, VaultId_copy, VaultId_init. simpl.
  intros Hs. by rewrite andb_true_r, Hs.
Qed.

Lemma VaultIdField_serialize_eq v :
  VaultIdField_serialize os fs context v = Returned (PStr (vault_id_text context v)).
Proof.
  unfold VaultIdField_serialize, vault_id_text, VaultId_relative_to, source_path.
  destruct (serialize_relative_paths context); [|done].
  destruct (source_is_path v) eqn:Hp.
  - destruct (relative_to _ _); done.
  - by rewrite VaultId_copy_eq.
Qed.
End DumpFacts.

(** ** The dumped mapping, key by key *)

Lemma fields_lookup (v1 v2 v3 v4 v5 v6 v7 v8 v9 v10 v11 v12 : raw) :
  let m := dict_of_items
    [ ("config_file", v1); ("inventories", v2); ("vault_ids", v3);
      ("vault_password_files", v4); ("user_scripts", v5); ("vars_files", v6);
      ("vault_files", v7); ("private_key_file", v8); ("user", v9);
      ("vault_encrypt_identity", v10); ("log_path", v11); ("env_vars", v12) ] in
  m !! "config_file" = Some v1 ∧ m !! "inventories" = Some v2 ∧
  m !! "vault_ids" = Some v3 ∧ m !! "vault_password_files" = Some v4 ∧
  m !! "user_scripts" = Some v5 ∧ m !! "vars_files" = Some v6 ∧
  m !! "vault_files" = Some v7 ∧ m !! "private_key_file" = Some v8 ∧
  m !! "user" = Some v9 ∧ m !! "vault_encrypt_identity" = Some v10 ∧
  m !! "log_path" = Some v11 ∧ m !! "env_vars" = Some v12 ∧
  dom m = declared_fields.
Proof.
  intros m. repeat split; reflexivity.
Qed.

Lemma remove_none_lookup (m : gmap string raw) k :
  remove_none_values m !! k =
  match m !! k with
  | Some (RVal PNone) => None
  | o => o
  end.
Proof.
  unfold remove_none_values. rewrite map_lookup_filter.
  destruct (m !! k) as [r|]; simpl; [|done].
  destruct (decide (r = RVal PNone)) as [->|Hne].
  - by rewrite option_guard_False by (simpl; congruence).
  - rewrite option_guard_True by done. simpl.
    destruct r as [[]| |]; done.
Qed.

Section DumpLookup.
Context (os : OSEnv) (fs : FS) (context : ConfigContext).

Lemma PathField_serialize_eq p :
  PathField_serialize context (Some p) = PStr (path_text context p).
Proof.
  unfold PathField_serialize, path_text.
  destruct (serialize_relative_paths context); [|done].
  by destruct (relative_to _ _).
Qed.

Lemma dump_lookup c :
  ∃ d, AnsibleConfigSchema_dump os fs context c = Returned d ∧
    d !! "config_file" = path_value context (config_file c) ∧
    d !! "inventories" = Some (paths_value context (inventories c)) ∧
    d !! "vault_ids" =
      Some (RList ((λ v, PStr (vault_id_text context v)) <$> vault_ids c)) ∧
    d !! "vault_password_files" = Some (paths_value context (vault_password_files c)) ∧
    d !! "user_scripts" = Some (paths_value context (user_scripts c)) ∧
    d !! "vars_files" = Some (paths_value context (vars_files c)) ∧
    d !! "vault_files" = Some (paths_value context (vault_files c)) ∧
    d !! "private_key_file" = path_value context (private_key_file c) ∧
    d !! "user" = str_value (user c) ∧
    d !! "vault_encrypt_identity" = str_value (vault_encrypt_identity c) ∧
    d !! "log_path" = path_value context (log_path c) ∧
    d !! "env_vars" = Some (Dict_serialize (env_vars c)) ∧
    dom d ⊆ declared_fields.
Proof.
  unfold AnsibleConfigSchema_dump, AnsibleConfigSchema_serialize.
  rewrite (mapM_Returned _ (λ v, PStr (vault_id_text context v)))
    by (intros; apply VaultIdField_serialize_eq).
  cbn [mbind outcome_bind]. eexists. split; [reflexivity|].
  match goal with |- context [dict_of_items [(_, ?v1); (_, ?v2); (_, ?v3); (_, ?v4);
      (_, ?v5); (_, ?v6); (_, ?v7); (_, ?v8); (_, ?v9); (_, ?v10); (_, ?v11); (_, ?v12)]] =>
    destruct (fields_lookup v1 v2 v3 v4 v5 v6 v7 v8 v9 v10 v11 v12)
      as (H1 & H2 & H3 & H4 & H5 & H6 & H7 & H8 & H9 & H10 & H11 & H12 & Hdom)
  end.
  rewrite !remove_none_lookup, H1, H2, H3, H4, H5, H6, H7, H8, H9, H10, H11, H12.
  repeat split.
  - destruct (config_file c); [by rewrite PathField_serialize_eq|done].
  - unfold paths_value. f_equal. f_equal. apply list_fmap_ext. intros. apply PathField_serialize_eq.
  - unfold paths_value. f_equal. f_equal. apply list_fmap_ext. intros. apply PathField_serialize_eq.
  - unfold paths_value. f_equal. f_equal. apply list_fmap_ext. intros. apply PathField_serialize_eq.
  - unfold paths_value. f_equal. f_equal. apply list_fmap_ext. intros. apply PathField_serialize_eq.
  - unfold paths_value. f_equal. f_equal. apply list_fmap_ext. intros. apply PathField_serialize_eq.
  - destruct (private_key_file c); [by rewrite PathField_serialize_eq|done].
  - by destruct (user c).
  - by destruct (vault_encrypt_identity c).
  - destruct (log_path c); [by rewrite PathField_serialize_eq|done].
  - rewrite <- Hdom. unfold remove_none_values. apply dom_filter_subseteq.
Qed.
End DumpLookup.

(** ** Joining and relativizing paths *)

Lemma truediv_rooted p q : path_root q ≠ "" → truediv p q = q.
Proof. intros Hq. unfold truediv. by rewrite decide_False. Qed.

Lemma startswith_char c a s :
  Str.startswith (String c "") (String a s) = bool_decide (c = a).
Proof.
  change (Str.startswith (String c "") (String a s))
    with (if decide (c = a) then Str.startswith "" s else false).
  destruct (decide (c = a)).
  - rewrite bool_decide_eq_true_2 by done. by destruct s.
  - by rewrite bool_decide_eq_false_2.
Qed.

Lemma isabs_head s : isabs s = true ↔ ∃ s', s = String sep s'.
Proof.
  unfold isabs. destruct s as [|a s]; [split; [done|by intros [? ?]]|].
  rewrite startswith_char, bool_decide_eq_true. split.
  - intros <-. by eexists.
  - by intros [? [= -> _]].
Qed.

Lemma isabs_rooted s : isabs s = true → path_root (Path_of_string s) ≠ "".
Proof.
  intros [s' ->]%isabs_head. unfold Path_of_string, splitroot.
  rewrite decide_True by done. by case_decide.
Qed.

Lemma relative_to_Some p other rel :
  relative_to p other = Some rel →
  path_root rel = "" ∧ path_root p = path_root other ∧
  path_parts p = path_parts other ++ path_parts rel.
Proof.
  unfold relative_to. repeat case_decide; try done. intros [= <-]. simpl.
  repeat split; [done|].
  match goal with H : _ `prefix_of` _ |- _ => destruct H as [k Hk] end.
  rewrite Hk at 1. f_equal. by rewrite Hk, drop_app_length.
Qed.

Lemma relative_truediv p other rel :
  relative_to p other = Some rel → truediv other rel = p.
Proof.
  intros (Hr & Hroot & Hparts)%relative_to_Some. unfold truediv.
  rewrite decide_True by done. destruct p. simpl in *. by subst.
Qed.

Lemma relative_wf p other rel :
  wf_Path p → relative_to p other = Some rel → wf_Path rel.
Proof.
  intros [_ Hl] (Hr & _ & Hparts)%relative_to_Some. split; [by left|].
  rewrite Hparts in Hl. by apply Forall_app in Hl as [_ ?].
Qed.

Lemma Path_str_rel_head rel :
  wf_Path rel → path_root rel = "" →
  Path_str rel = "." ∧ path_parts rel = [] ∨
  ∃ a x l s, path_parts rel = String a x :: l ∧ Path_str rel = String a s ∧ a ≠ sep.
Proof.
  destruct rel as [r l]. simpl. intros [_ Hl] ->. unfold Path_str. simpl in *.
  destruct l as [|x l]; [by left|]. right.
  inversion_clear Hl as [|? ? (Hx & _ & Hs)].
  destruct x as [|a x]; [done|]. simpl in Hs. case_decide; [done|].
  exists a, x, l. change ("" +:+ ?s) with s.
  destruct l; simpl; eexists; (split; [done|]); split; done.
Qed.

Lemma Path_str_nonempty p : Path_str p ≠ "".
Proof. unfold Path_str. by case_decide. Qed.

Lemma Path_str_rel_not_abs rel :
  wf_Path rel → path_root rel = "" → isabs (Path_str rel) = false.
Proof.
  intros Hwf Hr. destruct (Path_str_rel_head rel Hwf Hr) as [[-> _]|(a & x & l & s & _ & -> & Ha)].
  - done.
  - unfold isabs. rewrite startswith_char. by apply bool_decide_eq_false_2.
Qed.

Section Expand.
Context (os : OSEnv).

Lemma expanduser_tilde_free rel :
  wf_Path rel → path_root rel = "" → tilde_free rel →
  expanduser os (Path_str rel) = Path_str rel.
Proof.
  intros Hwf Hr Ht.
  destruct (Path_str_rel_head rel Hwf Hr) as [[-> _]|(a & x & l & s & Hp & -> & Ha)].
  - done.
  - unfold tilde_free in Ht. rewrite Hp in Ht.
    rewrite startswith_char in Ht. apply bool_decide_eq_false in Ht.
    unfold expanduser.
    destruct a as [[] [] [] [] [] [] [] []]; done.
Qed.
End Expand.

(** ** Round trips of the fields *)

Lemma mapM_roundtrip {A} (f : pyval → outcome A) (g : A → string) (l : list A) :
  Forall (λ x, f (PStr (g x)) = Returned x) l →
  mapM (deserialize_not_none f) ((λ x, PStr (g x)) <$> l) = Returned l.
Proof.
  induction 1 as [|x l Hx Hl IH]; [done|].
  rewrite fmap_cons, mapM_outcome_cons.
  change (deserialize_not_none f (PStr (g x))) with (f (PStr (g x))).
  by rewrite Hx, IH.
Qed.

Lemma List_roundtrip {A} (f : pyval → outcome A) (g : A → string) (l : list A) :
  Forall (λ x, f (PStr (g x)) = Returned x) l →
  List_deserialize f (RList ((λ x, PStr (g x)) <$> l)) = Returned l.
Proof. apply mapM_roundtrip. Qed.

Lemma dict_of_items_list_to_map {V} (l : list (string * V)) :
  dict_of_items l = list_to_map (reverse l).
Proof.
  unfold dict_of_items. rewrite <- (reverse_involutive l) at 1.
  generalize (reverse l). clear l. intros l.
  induction l as [|[k v] l IH]; [done|].
  rewrite reverse_cons, foldl_app. simpl. by rewrite IH.
Qed.

Lemma dict_of_items_map_to_list {V} (m : gmap string V) :
  dict_of_items (map_to_list m) = m.
Proof.
  rewrite dict_of_items_list_to_map.
  rewrite <- (list_to_map_to_list m) at 2. symmetry.
  apply list_to_map_proper.
  - apply NoDup_fst_map_to_list.
  - symmetry. apply reverse_Permutation.
Qed.

Lemma dict_of_items_fmap {V W} (f : V → W) (l : list (string * V)) :
  dict_of_items (prod_map id f <$> l) = f <$> dict_of_items l.
Proof.
  rewrite !dict_of_items_list_to_map, <- fmap_reverse. apply list_to_map_fmap.
Qed.

Lemma Dict_roundtrip (m : gmap string pyval) :
  map_Forall (λ _ v, is_str v = true) m →
  ∃ m', Dict_deserialize (Dict_serialize m) = Returned m' ∧ PStr <$> m' = m.
Proof.
  intros Hm. unfold Dict_deserialize, Dict_serialize.
  rewrite (mapM_Returned _ (λ kv : pyval * pyval, (py_str kv.1, py_str kv.2))).
  - cbn [mbind outcome_bind]. eexists. split; [reflexivity|].
    rewrite <- list_fmap_compose, <- dict_of_items_fmap, <- list_fmap_compose.
    rewrite <- (dict_of_items_map_to_list m) at 2. f_equal.
    rewrite <- (list_fmap_id (map_to_list m)) at 2.
    apply list_fmap_ext. intros i [k v] Hkv.
    apply list_elem_of_lookup_2, elem_of_map_to_list in Hkv.
    specialize (Hm k v Hkv). simpl in Hm. destruct v; try done.
  - intros [k v] ([k0 v0] & [= -> ->] & Hin)%list_elem_of_fmap.
    apply elem_of_map_to_list in Hin. specialize (Hm k0 v0 Hin). simpl in Hm.
    destruct v0; done.
Qed.

Section FieldRoundtrip.
Context (os : OSEnv) (fs : FS) (f : Path).
Let context := ConfigContext_for f.

Lemma path_roundtrip p :
  path_under context p →
  PathField_deserialize os context (PStr (path_text context p)) = Returned p.
Proof.
  intros (Hwf & rel & Hrel & Ht). unfold path_text. simpl. rewrite Hrel.
  unfold PathField_deserialize. simpl.
  pose proof (relative_wf _ _ _ Hwf Hrel) as Hwr.
  destruct (relative_to_Some _ _ _ Hrel) as (Hr & _).
  rewrite expanduser_tilde_free, Path_of_string_str by done.
  by rewrite (relative_truediv _ _ _ Hrel).
Qed.

Lemma split_id l s :
  Str.contains "@" l = false →
  Str.contains "@" (l +:+ "@" +:+ s) = true ∧
  Str.split_first "@" (l +:+ "@" +:+ s) = (l, s).
Proof.
  intros Hl. split.
  - rewrite contains_app. apply orb_true_r.
  - by apply split_first_app.
Qed.

Lemma VaultId_of_id l s :
  Str.contains "@" l = false →
  VaultId_init os fs (Some (l +:+ "@" +:+ s)) None None SourceNone true =
  Returned (mkVaultId l
    (if negb (bool_decide (s = "")) && negb (bool_decide (s = "prompt"))
     then auto_realpath os fs s None true else s)).
Proof.
  intros Hl. destruct (split_id l s Hl) as [H1 H2].
  unfold VaultId_init. cbn [orb bool_decide negb].
  rewrite bool_decide_eq_false_2 by (by intros ?).
  rewrite bool_decide_eq_true_2 by done. cbn [orb negb].
  rewrite H1, H2. cbn [mbind outcome_bind source_truthy source_ne_prompt source_str].
  by rewrite andb_true_r.
Qed.

Lemma vault_id_roundtrip v :
  vault_id_under fs context v →
  VaultIdField_deserialize os fs context (PStr (vault_id_text context v)) = Returned v.
Proof.
  destruct v as [l s]. intros [Hl Hs]. simpl in *.
  unfold VaultIdField_deserialize, vault_id_text, source_path.
  cbn [serialize_relative_paths context ConfigContext_for String_deserialize mbind outcome_bind].
  destruct (source_is_path (mkVaultId l s)) eqn:Hp.
  - destruct (Hs eq_refl) as (Hn & rel & Hrel & Ht & Hnp & Hex). simpl. rewrite Hrel.
    pose proof (relative_wf _ _ _ (wf_Path_of_string s) Hrel) as Hwr.
    destruct (relative_to_Some _ _ _ Hrel) as (Hr & _).
    rewrite (VaultId_of_id l (Path_str rel) Hl).
    rewrite (bool_decide_eq_false_2 (Path_str rel = "")) by apply Path_str_nonempty.
    rewrite (bool_decide_eq_false_2 (Path_str rel = "prompt")) by done.
    cbn [negb andb mbind outcome_bind].
    unfold auto_realpath. rewrite Path_str_rel_not_abs, Hex by done.
    cbn [andb]. unfold source_is_path. cbn [source label].
    rewrite (bool_decide_eq_false_2 (Path_str rel = "")) by apply Path_str_nonempty.
    rewrite (bool_decide_eq_false_2 (Path_str rel = "prompt")) by done.
    cbn [negb andb].
    rewrite Path_of_string_str, expanduser_tilde_free, Path_of_string_str by done.
    rewrite (relative_truediv _ _ _ Hrel). by rewrite Hn.
  - unfold VaultId_id. cbn [label source]. rewrite (VaultId_of_id l s Hl).
    unfold source_is_path in Hp. cbn [source] in Hp. rewrite Hp.
    cbn [mbind outcome_bind]. unfold source_is_path. cbn [source]. by rewrite Hp.
Qed.
End FieldRoundtrip.

(** ** Loading what was dumped *)

Section LoadDump.
Context (os : OSEnv) (fs : FS) (f : Path).
Local Abbreviation context := (ConfigContext_for f).

Lemma load_path_value o :
  opt_under context o →
  match path_value context o with
  | None => Returned None
  | Some r => Some <$> scalar_field (PathField_deserialize os context) r
  end = Returned (Some <$> o).
Proof.
  intros Ho. destruct o as [p|]; [|done].
  change (path_value context (Some p)) with (Some (RVal (PStr (path_text context p)))).
  cbv beta iota.
  change (scalar_field ?g (RVal (PStr ?s))) with (Some <$> g (PStr s)).
  by rewrite path_roundtrip by (by apply Ho).
Qed.

Lemma load_str_value o :
  match str_value o with
  | None => Returned None
  | Some r => Some <$> scalar_field String_deserialize r
  end = Returned (Some <$> o).
Proof. by destruct o. Qed.

Lemma load_paths_value l :
  Forall (path_under context) l →
  List_deserialize (PathField_deserialize os context) (paths_value context l) = Returned l.
Proof.
  intros Hl. apply (List_roundtrip _ (path_text context)).
  eapply Forall_impl; [exact Hl|]. intros p Hp. by apply path_roundtrip.
Qed.

Lemma load_vault_ids l :
  Forall (vault_id_under fs context) l →
  List_deserialize (VaultIdField_deserialize os fs context)
    (RList ((λ v, PStr (vault_id_text context v)) <$> l)) = Returned l.
Proof.
  intros Hl. apply (List_roundtrip _ (vault_id_text context)).
  eapply Forall_impl; [exact Hl|]. intros p Hp. by apply vault_id_roundtrip.
Qed.

Lemma fields_of_dump c :
  settings_under fs context c →
  ∃ d, AnsibleConfigSchema_dump os fs context c = Returned d ∧
       ∃ a, AnsibleConfigSchema_fields os fs context d = Returned a ∧
            AnsibleConfig_of_data a = c.
Proof.
  intros (U1 & U2 & U3 & U4 & U5 & U6 & U7 & U8 & U9 & U10).
  destruct (dump_lookup os fs context c)
    as (d & Hd & H1 & H2 & H3 & H4 & H5 & H6 & H7 & H8 & H9 & H10 & H11 & H12 & Hdom).
  exists d. split; [exact Hd|].
  destruct (Dict_roundtrip _ U10) as (m' & Hm' & Hm).
  unfold AnsibleConfigSchema_fields, load_field.
  rewrite bool_decide_eq_true_2 by exact Hdom. cbn [negb].
  rewrite H1, H2, H3, H4, H5, H6, H7, H8, H9, H10, H11, H12.
  rewrite !load_path_value, !load_str_value by done.
  rewrite !load_paths_value, load_vault_ids, Hm' by done.
  cbn [fmap outcome_fmap mbind outcome_bind]. eexists. split; [reflexivity|].
  unfold AnsibleConfig_of_data. cbn. rewrite Hm.
  destruct c as [c1 ? ? ? ? ? ? c8 c9 c10 c11 ?]. cbn.
  by destruct c1, c8, c9, c10, c11.
Qed.
End LoadDump.

(** ** Environment variables *)

Lemma mapM_Returned_inv {A B} (f : A → outcome B) l k :
  mapM f l = Returned k → Forall2 (λ x y, f x = Returned y) l k.
Proof.
  revert k. induction l as [|x l IH]; intros k.
  - intros [= <-]. constructor.
  - rewrite mapM_outcome_cons. destruct (f x) as [y|] eqn:Hx; [|done].
    cbn [mbind outcome_bind]. destruct (mapM f l) as [k'|]; [|done].
    intros [= <-]. constructor; auto.
Qed.

Lemma Dict_deserialize_strings d m :
  Dict_deserialize (RDict d) = Returned m →
  Forall (λ kv, is_str kv.1 = true ∧ is_str kv.2 = true) d.
Proof.
  unfold Dict_deserialize.
  destruct (mapM _ d) as [items|] eqn:Hitems; [|done]. intros _.
  apply mapM_Returned_inv in Hitems.
  induction Hitems as [|[k v] y d items Hkv _ IH]; constructor; [|done].
  cbn [fst snd] in *. by destruct k, v.
Qed.

Lemma dict_of_items_lookup {V} (l : list (string * V)) k v :
  dict_of_items l !! k = Some v → (k, v) ∈ l.
Proof.
  rewrite dict_of_items_list_to_map. intros H%elem_of_list_to_map_2.
  by rewrite elem_of_reverse in H.
Qed.

Lemma env_vars_of_data_strings a :
  map_Forall (λ _ v, is_str v = true) (env_vars (AnsibleConfig_of_data a)).
Proof.
  unfold AnsibleConfig_of_data. cbn [env_vars].
  destruct (d_env_vars a) as [m|]; simpl.
  - intros k v. rewrite lookup_fmap. by intros (s & _ & ->)%fmap_Some.
  - apply map_Forall_empty.
Qed.

(** ** The backup loop ends *)

Lemma string_app_length s t : String.length (s +:+ t) = String.length s + String.length t.
Proof. induction s as [|a s IH]; simpl; [done|]. by rewrite IH. Qed.

Lemma string_app_assoc s t u : (s +:+ t) +:+ u = s +:+ t +:+ u.
Proof.
  induction s as [|a s IH]; [done|].
  change (String a ((s +:+ t) +:+ u) = String a (s +:+ t +:+ u)). by rewrite IH.
Qed.

Lemma string_app_empty_r s : s +:+ "" = s.
Proof.
  induction s as [|a s IH]; [done|].
  change (String a (s +:+ "") = String a s). by rewrite IH.
Qed.



(** The name found is free, and so are no names tried before it. *)
Lemma backup_name_free fs n s bak :
  backup_name fs n s = Some bak → path_exists fs bak = false.
Proof.
  revert s. induction n as [|n IH]; intros s; [done|]. simpl.
  destruct (path_exists fs s) eqn:He; [apply IH|]. by intros [= <-].
Qed.

(** ** The absolute-path form tells settings apart *)

Lemma dump_machine_independent os fs os' fs' context c :
  AnsibleConfigSchema_dump os fs context c = AnsibleConfigSchema_dump os' fs' context c.
Proof.
  unfold AnsibleConfigSchema_dump, AnsibleConfigSchema_serialize.
  by rewrite !(mapM_Returned _ (λ v, PStr (vault_id_text context v)))
    by (intros; apply VaultIdField_serialize_eq).
Qed.

Lemma fmap_inj_on {A B} (f : A → B) (P : A → Prop) (l k : list A) :
  (∀ x y, P x → P y → f x = f y → x = y) →
  Forall P l → Forall P k → f <$> l = f <$> k → l = k.
Proof.
  intros Hf Hl. revert k. induction Hl as [|x l Hx Hl IH]; intros [|y k] Hk; try done.
  inversion_clear Hk. rewrite !fmap_cons. intros [= Hxy Hlk].
  f_equal; [by apply Hf|by apply IH].
Qed.

Lemma VaultId_id_inj v w :
  Str.contains "@" (label v) = false → Str.contains "@" (label w) = false →
  VaultId_id v = VaultId_id w → v = w.
Proof.
  destruct v as [l s], w as [l' s']. unfold VaultId_id. simpl. intros Hl Hl' Heq.
  pose proof (split_first_app "@" l s Hl) as H1.
  pose proof (split_first_app "@" l' s' Hl') as H2.
  change (String "@" ?x) with ("@" +:+ x) in H1, H2.
  rewrite Heq in H1. rewrite H1 in H2. by injection H2 as -> ->.
Qed.

Lemma Dict_serialize_inj m1 m2 :
  map_Forall (λ _ v, is_str v = true) m1 → map_Forall (λ _ v, is_str v = true) m2 →
  Dict_serialize m1 = Dict_serialize m2 → m1 = m2.
Proof.
  intros (a & Ha & <-)%Dict_roundtrip (b & Hb & <-)%Dict_roundtrip Heq.
  rewrite Heq, Hb in Ha. by injection Ha as ->.
Qed.

Section Absolute.
Context (os : OSEnv) (fs : FS) (context : ConfigContext).
Hypothesis Habs : serialize_relative_paths context = false.

Lemma path_text_abs p : path_text context p = Path_str p.
Proof. unfold path_text. by rewrite Habs. Qed.

Lemma vault_id_text_abs v : vault_id_text context v = VaultId_id v.
Proof. unfold vault_id_text. by rewrite Habs. Qed.

Lemma path_value_inj o1 o2 :
  (∀ p, o1 = Some p → wf_Path p) → (∀ p, o2 = Some p → wf_Path p) →
  path_value context o1 = path_value context o2 → o1 = o2.
Proof.
  intros H1 H2. unfold path_value. destruct o1 as [p|], o2 as [q|]; try done.
  simpl. rewrite !path_text_abs. intros [= Heq]. f_equal.
  apply Path_str_inj; auto.
Qed.

Lemma paths_value_inj l k :
  Forall wf_Path l → Forall wf_Path k →
  Some (paths_value context l) = Some (paths_value context k) → l = k.
Proof.
  intros Hl Hk [= Heq]. revert Heq. apply fmap_inj_on with (P := wf_Path); auto.
  intros x y Hx Hy. rewrite !path_text_abs. intros [= ?]. by apply Path_str_inj.
Qed.

Lemma str_value_inj o1 o2 : str_value o1 = str_value o2 → o1 = o2.
Proof. destruct o1, o2; try done. by intros [= ->]. Qed.

Lemma dump_abs_inj c1 c2 :
  paths_wf c1 → paths_wf c2 → plainly_encoded c1 → plainly_encoded c2 →
  AnsibleConfigSchema_dump os fs context c1 = AnsibleConfigSchema_dump os fs context c2 →
  c1 = c2.
Proof.
  intros (W1 & W2 & W3 & W4 & W5 & W6 & W7 & W8) (V1 & V2 & V3 & V4 & V5 & V6 & V7 & V8)
    [L1 E1] [L2 E2] Heq.
  destruct (dump_lookup os fs context c1)
    as (d & Hd & H1 & H2 & H3 & H4 & H5 & H6 & H7 & H8 & H9 & H10 & H11 & H12 & _).
  destruct (dump_lookup os fs context c2)
    as (d' & Hd' & G1 & G2 & G3 & G4 & G5 & G6 & G7 & G8 & G9 & G10 & G11 & G12 & _).
  rewrite Hd, Hd' in Heq. injection Heq as <-.
  rewrite H1 in G1. rewrite H2 in G2. rewrite H3 in G3. rewrite H4 in G4.
  rewrite H5 in G5. rewrite H6 in G6. rewrite H7 in G7. rewrite H8 in G8.
  rewrite H9 in G9. rewrite H10 in G10. rewrite H11 in G11. rewrite H12 in G12.
  apply path_value_inj in G1, G8, G11; try done.
  apply paths_value_inj in G2, G4, G5, G6, G7; try done.
  apply str_value_inj in G9, G10.
  assert (E : env_vars c1 = env_vars c2)
    by (apply Dict_serialize_inj; [done|done|congruence]).
  injection G3 as G3.
  apply (fmap_inj_on _ (λ v, Str.contains "@" (label v) = false)) in G3; try done.
  - destruct c1, c2. simpl in *. by subst.
  - intros x y Hx Hy. rewrite !vault_id_text_abs. intros [= ?].
    by apply VaultId_id_inj.
Qed.
End Absolute.

(** ** Change detection *)

Lemma main_dump_machine_independent os fs os' fs' context m :
  MainConfigSchema_dump os fs context m = MainConfigSchema_dump os' fs' context m.
Proof.
  unfold MainConfigSchema_dump.
  by rewrite (dump_machine_independent os fs os' fs').
Qed.

Lemma config_to_dict_machine_independent os fs os' fs' m :
  config_to_dict os fs m = config_to_dict os' fs' m.
Proof.
  unfold config_to_dict. destruct (config_context m); [|done].
  apply main_dump_machine_independent.
Qed.

Lemma main_dump_inj os fs context m1 m2 :
  serialize_relative_paths context = false →
  paths_wf (ansible m1) → paths_wf (ansible m2) →
  plainly_encoded (ansible m1) → plainly_encoded (ansible m2) →
  MainConfigSchema_dump os fs context m1 = MainConfigSchema_dump os fs context m2 →
  ansible m1 = ansible m2.
Proof.
  intros Habs W1 W2 P1 P2. unfold MainConfigSchema_dump.
  destruct (dump_lookup os fs context (ansible m1)) as (d1 & Hd1 & _).
  destruct (dump_lookup os fs context (ansible m2)) as (d2 & Hd2 & _).
  rewrite Hd1, Hd2. cbn [mbind outcome_bind]. intros Heq.
  assert (Hl : ∀ d : gmap string raw,
            filter (λ kv : string * entry, kv.2 ≠ EScalar PNone)
              ({[ "ansible" := EMapping d ]} : gmap string entry) !! "ansible"
            = Some (EMapping d)).
  { intros d. apply map_lookup_filter_Some. split; [apply lookup_singleton_eq|done]. }
  assert (Hdd : Some (EMapping d1) = Some (EMapping d2)).
  { rewrite <- (Hl d1), <- (Hl d2). congruence. }
  apply (dump_abs_inj os fs context); [assumption..|].
  rewrite Hd1, Hd2. congruence.
Qed.

Lemma call_setter_frame os fs self c self' :
  call_setter os fs self c = Returned self' →
  config_context (_config self') = config_context (_config self) ∧
  _initial_config_dict self' = _initial_config_dict self.
Proof.
  destruct c; simpl;
    unfold set_ansible_private_key_file, set_ansible_config_file, set_ansible_log_path,
      set_ansible_vault_ids;
    try (by intros [= <-]);
    try (destruct (abspath_Path os value); simpl; [by intros [= <-]|done]).
  destruct (mapM _ _); simpl; [by intros [= <-]|done].
Qed.

Lemma config_changed_after_load os fs m d :
  config_to_dict os fs m = Returned d →
  ∀ debug fs', config_changed os fs' (mkConfigurator debug m d) = Returned false.
Proof.
  intros Hd debug fs'. unfold config_changed. simpl.
  rewrite (config_to_dict_machine_independent os fs' os fs), Hd. simpl.
  by rewrite bool_decide_eq_true_2.
Qed.

(** ** Every path the program builds is well formed *)

Lemma wf_truediv p q : wf_Path p → wf_Path q → wf_Path (truediv p q).
Proof.
  intros [Hr Hl] [Hr' Hl']. unfold truediv. case_decide; [|done].
  split; [done|]. simpl. by apply Forall_app.
Qed.

Lemma Forall_removelast {A} (P : A → Prop) l : Forall P l → Forall P (removelast l).
Proof.
  induction 1 as [|x l Hx Hl IH]; [constructor|].
  simpl. destruct l; [constructor|]. by constructor.
Qed.

Lemma wf_parent p : wf_Path p → wf_Path (parent p).
Proof. intros [Hr Hl]. split; [done|]. by apply Forall_removelast. Qed.

Lemma wf_AnsibleConfig_default : paths_wf AnsibleConfig_default.
Proof.
  unfold paths_wf. cbn. split; [by intros p [=]|].
  do 5 (split; [constructor|]). split; by intros p [=].
Qed.

Section LoadWf.
Context (os : OSEnv) (fs : FS) (context : ConfigContext).
Hypothesis Hdir : wf_Path (config_dir context).

Lemma PathField_deserialize_wf v p :
  PathField_deserialize os context v = Returned p → wf_Path p.
Proof.
  unfold PathField_deserialize. destruct (String_deserialize v); [|done].
  intros [= <-]. apply wf_truediv; [done|apply wf_Path_of_string].
Qed.

Lemma scalar_path_wf r o :
  scalar_field (PathField_deserialize os context) r = Returned o →
  ∀ p, o = Some p → wf_Path p.
Proof.
  destruct r as [v| |]; try done. unfold scalar_field, deserialize_allow_none.
  destruct v; [by intros [= <-]|..];
    (match goal with |- context [fmap _ ?x] => destruct x as [q|] eqn:Hq end; [|done]);
    intros [= <-] p [= <-]; by apply PathField_deserialize_wf in Hq.
Qed.

Lemma list_path_wf r l :
  List_deserialize (PathField_deserialize os context) r = Returned l → Forall wf_Path l.
Proof.
  destruct r as [|k|]; try done. simpl. intros H%mapM_Returned_inv.
  induction H as [|v p k l Hv _ IH]; constructor; [|done].
  destruct v; try done; by apply PathField_deserialize_wf in Hv.
Qed.

Lemma load_field_inv {A} (data : gmap string raw) key (f : raw → outcome A) (P : A → Prop) o :
  (∀ r a, f r = Returned a → P a) →
  load_field data key f = Returned o → ∀ a, o = Some a → P a.
Proof.
  intros Hf. unfold load_field. destruct (data !! key) as [r|]; [|by intros [= <-]].
  destruct (f r) as [b|] eqn:Hb; [|done]. intros [= <-] a [= <-]. by eapply Hf.
Qed.

Lemma default_list_wf (o : option (list Path)) :
  (∀ l, o = Some l → Forall wf_Path l) → Forall wf_Path (default [] o).
Proof. destruct o; simpl; [auto|constructor]. Qed.

Lemma default_opt_wf (o : option (option Path)) :
  (∀ x, o = Some x → ∀ p, x = Some p → wf_Path p) → ∀ p, default None o = Some p → wf_Path p.
Proof. destruct o; simpl; [eauto|done]. Qed.

Ltac opt_wf :=
  apply default_opt_wf;
  eapply (load_field_inv _ _ _ (λ x, ∀ p, x = Some p → wf_Path p));
  [apply scalar_path_wf|eassumption].
Ltac list_wf :=
  apply default_list_wf;
  eapply (load_field_inv _ _ _ (Forall wf_Path)); [apply list_path_wf|eassumption].

Lemma AnsibleConfigSchema_fields_wf data a :
  AnsibleConfigSchema_fields os fs context data = Returned a →
  paths_wf (AnsibleConfig_of_data a).
Proof.
  unfold AnsibleConfigSchema_fields. case_match; [done|].
  repeat (match goal with
          | |- context [mbind _ (load_field data ?k ?f)] =>
              let H := fresh "F" in
              destruct (load_field data k f) eqn:H; [|done]; cbn [mbind outcome_bind]
          end).
  intros [= <-]. unfold paths_wf, AnsibleConfig_of_data. cbn.
  split; [opt_wf|]. do 5 (split; [list_wf|]). split; opt_wf.
Qed.

Lemma MainConfigSchema_load_wf doc m :
  MainConfigSchema_load os fs context doc = Returned (Model m) → paths_wf (ansible m).
Proof.
  unfold MainConfigSchema_load. case_match; [done|].
  destruct (doc !! "ansible") as [[| |d]|]; try done; cbn [mbind outcome_bind].
  - destruct (AnsibleConfigSchema_fields os fs context d) as [a|] eqn:Ha; [|done].
    simpl. destruct (create_model context); [|done]. intros [= <-]. simpl.
    by eapply AnsibleConfigSchema_fields_wf.
  - destruct (create_model context); [|done]. intros [= <-]. apply wf_AnsibleConfig_default.
Qed.
End LoadWf.

Lemma merge_values_wf (l k : list Path) :
  Forall wf_Path l → Forall wf_Path k → Forall wf_Path (merge_values l k).
Proof.
  intros Hl Hk. apply Forall_app. split; [done|].
  apply Forall_forall. intros x [_ Hx]%list_elem_of_filter.
  rewrite Forall_forall in Hk. auto.
Qed.

Lemma MainConfig_merge_wf base overlay opts m r m' :
  AttrMerger_init opts = Returned m →
  MainConfig_merge base overlay m = Returned (r, m') →
  paths_wf (ansible base) → paths_wf (ansible overlay) → paths_wf (ansible r).
Proof.
  intros Hm Hr (B1 & B2 & B3 & B4 & B5 & B6 & B7 & B8) (O1 & O2 & O3 & O4 & O5 & O6 & O7 & O8).
  destruct (merge_fresh base overlay _ _ Hm) as (a & Hr' & Ha).
  rewrite Hr' in Hr. injection Hr as <- <-.
  rewrite AnsibleConfig_merge_eq in Ha. injection Ha as <-.
  clear Hr'. unfold paths_wf. cbn.
  split; [exact O1|].
  do 5 (split; [case_match; [assumption|by apply merge_values_wf]|]).
  split; assumption.
Qed.

Section InitWf.
Context (os : OSEnv) (yaml_load : bytes → outcome document).

Lemma the_model_inv {M D} (r : loaded M D) m : the_model r = Returned m → r = Model m.
Proof. destruct r; simpl; [by intros [= ->]|done]. Qed.


Lemma bind_inv {A B} (x : outcome A) (f : A → outcome B) b :
  x ≫= f = Returned b → ∃ a, x = Returned a ∧ f a = Returned b.
Proof. destruct x as [a|e]; [|done]. by exists a. Qed.

Lemma scan_merge_actions_inv doc m :
  scan_merge_actions doc = Returned m → doc = DocMapping m.
Proof. destruct doc; simpl; [by intros [= ->]|done..]. Qed.

Lemma load_document_inv fs context doc r :
  MainConfigSchema_load_document os fs context doc = Returned r →
  ∃ m, doc = DocMapping m ∧ MainConfigSchema_load os fs context m = Returned r.
Proof. destruct doc as [m| | |]; simpl; [|done..]. intros H. by exists m. Qed.

(** One round of the loop over the configuration files. *)
Lemma load_all_cons fs file files config_dict merged :
  load_all os yaml_load fs (file :: files) config_dict merged
  = load_config_dict yaml_load fs file config_dict ≫= λ doc,
    scan_merge_actions doc ≫= λ m,
    (MainConfigSchema_load os fs
       (mkConfigContext (Path_of_string (os_realpath os file)) true true)
       (filter (λ kv : string * entry, is_merge_action kv.1 = false) m) ≫= the_model) ≫=
    λ config_model,
    match merged with
    | None => Returned config_model
    | Some merged =>
        AttrMerger_init (filter (λ kv : string * entry, is_merge_action kv.1 = true) m) ≫=
        λ attr_merger, fst <$> MainConfig_merge merged config_model attr_merger
    end ≫= λ merged,
    load_all os yaml_load fs files
      (filter (λ kv : string * entry, is_merge_action kv.1 = false) m) (Some merged).
Proof. reflexivity. Qed.

Lemma load_all_nil fs config_dict merged :
  load_all os yaml_load fs [] config_dict merged = Returned merged.
Proof. reflexivity. Qed.

Lemma load_all_cons_inv fs file files config_dict merged r :
  load_all os yaml_load fs (file :: files) config_dict merged = Returned r →
  ∃ m model merged',
    load_config_dict yaml_load fs file config_dict = Returned (DocMapping m) ∧
    MainConfigSchema_load os fs
      (mkConfigContext (Path_of_string (os_realpath os file)) true true)
      (filter (λ kv : string * entry, is_merge_action kv.1 = false) m) ≫= the_model
    = Returned model ∧
    match merged with
    | None => merged' = model
    | Some base =>
        ∃ am, AttrMerger_init (filter (λ kv : string * entry, is_merge_action kv.1 = true) m)
              = Returned am ∧
              fst <$> MainConfig_merge base model am = Returned merged'
    end ∧
    load_all os yaml_load fs files
      (filter (λ kv : string * entry, is_merge_action kv.1 = false) m) (Some merged')
    = Returned r.
Proof.
  rewrite load_all_cons.
  intros (doc & Hdoc & H)%bind_inv. apply bind_inv in H as (m & Hm & H).
  apply scan_merge_actions_inv in Hm as ->.
  apply bind_inv in H as (model & Hmodel & H). apply bind_inv in H as (merged' & Hmerged & H).
  exists m, model, merged'. split; [done|]. split; [done|]. split; [|done].
  destruct merged as [base|]; [|by injection Hmerged].
  apply bind_inv in Hmerged as (am & Ham & Hmerged). by exists am.
Qed.

(** The single configuration file. *)
Lemma init_single_inv fs file debug self :
  Configurator_init os yaml_load fs [file] debug = Returned self →
  ∃ m, load_config_dict yaml_load fs file CONFIG_DEFAULTS = Returned (DocMapping m) ∧
       MainConfigSchema_load os fs
         (mkConfigContext (Path_of_string (os_realpath os file)) true true) m ≫= the_model
       = Returned (_config self) ∧
       config_to_dict os fs (_config self) = Returned (_initial_config_dict self).
Proof.
  unfold Configurator_init.
  intros (model & Hmodel & H)%bind_inv. apply bind_inv in H as (d & Hd & [= <-]).
  apply bind_inv in Hmodel as (doc & Hdoc & Hmodel).
  apply bind_inv in Hmodel as (r & Hr & Hmodel).
  apply load_document_inv in Hr as (m & -> & Hr).
  exists m. split; [done|]. split; [|done]. cbn [_config]. by rewrite Hr.
Qed.

Lemma init_several_inv fs file file' files debug self :
  Configurator_init os yaml_load fs (file :: file' :: files) debug = Returned self →
  load_all os yaml_load fs (file :: file' :: files) CONFIG_DEFAULTS None
  = Returned (Some (_config self)) ∧
  config_to_dict os fs (_config self) = Returned (_initial_config_dict self).
Proof.
  unfold Configurator_init.
  intros (model & Hmodel & H)%bind_inv. apply bind_inv in H as (d & Hd & [= <-]).
  apply bind_inv in Hmodel as ([x|] & Hall & Hx); [|done]. injection Hx as ->.
  by split.
Qed.

Lemma load_one_wf fs file doc m :
  MainConfigSchema_load os fs (mkConfigContext (Path_of_string file) true true) doc
    ≫= the_model = Returned m →
  paths_wf (ansible m).
Proof.
  destruct (MainConfigSchema_load _ _ _ _) as [r|] eqn:Hr; [|done].
  cbn [mbind outcome_bind]. intros ->%the_model_inv.
  eapply MainConfigSchema_load_wf; [|exact Hr].
  apply wf_parent, wf_Path_of_string.
Qed.

Lemma load_all_wf fs config_files config_dict merged r :
  (∀ m, merged = Some m → paths_wf (ansible m)) →
  load_all os yaml_load fs config_files config_dict merged = Returned (Some r) →
  paths_wf (ansible r).
Proof.
  revert config_dict merged. induction config_files as [|file files IH];
    intros config_dict merged Hm.
  - rewrite load_all_nil. intros [= ->]. by apply Hm.
  - intros (m & model & merged' & _ & Hmodel & Hmerged & Hall)%load_all_cons_inv.
    apply load_one_wf in Hmodel. eapply IH; [|exact Hall].
    intros x [= <-]. destruct merged as [base|]; [|by subst].
    destruct Hmerged as (am & Ham & Hx).
    destruct (MainConfig_merge base model am) as [[y am']|] eqn:Hy; [|done].
    injection Hx as <-. eapply MainConfig_merge_wf; eauto.
Qed.

Lemma Configurator_init_wf fs config_files debug self :
  Configurator_init os yaml_load fs config_files debug = Returned self →
  paths_wf (ansible (_config self)).
Proof.
  destruct config_files as [|file [|file' files]].
  - unfold Configurator_init. cbn [mbind outcome_bind].
    destruct (config_to_dict os fs _); [|done]. intros [= <-]. apply wf_AnsibleConfig_default.
  - intros (m & _ & Hm & _)%init_single_inv. by apply load_one_wf in Hm.
  - intros [Hall _]%init_several_inv. eapply load_all_wf; [|exact Hall]. done.
Qed.
End InitWf.

Lemma call_setter_wf os fs self c self' :
  call_setter os fs self c = Returned self' →
  paths_wf (ansible (_config self)) → paths_wf (ansible (_config self')).
Proof.
  assert (Hl : ∀ v, Forall wf_Path (paths_of os v)).
  { intros v. unfold paths_of. apply Forall_fmap, Forall_forall.
    intros ? _. apply wf_Path_of_string. }
  intros Hc (W1 & W2 & W3 & W4 & W5 & W6 & W7 & W8).
  destruct c; simpl in Hc;
    unfold set_ansible_private_key_file, set_ansible_config_file, set_ansible_log_path,
      set_ansible_vault_ids, abspath_Path in Hc;
    try (destruct value; [|done]);
    cbn [mbind outcome_bind] in Hc;
    repeat (match type of Hc with
            | context [mbind _ ?x] => destruct x; [|done]; cbn [mbind outcome_bind] in Hc
            end);
    injection Hc as <-; unfold paths_wf; cbn;
    refine (conj _ (conj _ (conj _ (conj _ (conj _ (conj _ (conj _ _)))))));
    first [assumption | solve [apply Hl] | (intros ? [= <-]; apply wf_Path_of_string)].
Qed.

(** ** Serialization is total; runs of setter calls *)

Lemma MainConfigSchema_dump_total os fs context m :
  ∃ a, AnsibleConfigSchema_dump os fs context (ansible m) = Returned a ∧
       MainConfigSchema_dump os fs context m = Returned {[ "ansible" := EMapping a ]}.
Proof.
  unfold MainConfigSchema_dump.
  destruct (dump_lookup os fs context (ansible m)) as (a & Ha & _).
  exists a. split; [done|]. rewrite Ha. cbn [mbind outcome_bind].
  by rewrite map_filter_singleton_True.
Qed.

Lemma call_setters_frame os fs self calls self' :
  call_setters os fs self calls = Returned self' →
  config_context (_config self') = config_context (_config self) ∧
  _initial_config_dict self' = _initial_config_dict self.
Proof.
  revert self. induction calls as [|c calls IH]; intros self; simpl.
  - by intros [= <-].
  - destruct (call_setter os fs self c) as [s|] eqn:Hc; [|done].
    cbn [mbind outcome_bind]. intros [H1 H2]%IH.
    apply call_setter_frame in Hc as [G1 G2]. split; congruence.
Qed.

Lemma call_setters_wf os fs self calls self' :
  call_setters os fs self calls = Returned self' →
  paths_wf (ansible (_config self)) → paths_wf (ansible (_config self')).
Proof.
  revert self. induction calls as [|c calls IH]; intros self; simpl.
  - by intros [= <-].
  - destruct (call_setter os fs self c) as [s|] eqn:Hc; [|done].
    cbn [mbind outcome_bind]. intros Hs W. apply (IH s Hs).
    by apply (call_setter_wf _ _ _ _ _ Hc).
Qed.

Lemma Configurator_init_snapshot os yaml_load fs config_files debug self :
  Configurator_init os yaml_load fs config_files debug = Returned self →
  config_to_dict os fs (_config self) = Returned (_initial_config_dict self).
Proof.
  unfold Configurator_init.
  intros (m & _ & H)%bind_inv. apply bind_inv in H as (d & Hd & [= <-]). exact Hd.
Qed.


(** ** Merging two configurations *)

Ltac merge_fields base overlay Hm a :=
  let Ha := fresh "Ha" in
  let Hr := fresh "Hr" in
  destruct (merge_fresh base overlay _ _ Hm) as (a & Hr & Ha);
  rewrite AnsibleConfig_merge_eq in Ha; injection Ha as <-;
  eexists; split; [exact Hr|]; cbn [ansible inventories vault_ids vault_password_files
    user_scripts vars_files vault_files config_file private_key_file user
    vault_encrypt_identity log_path env_vars].

(** C2, as the code has it. For a list-typed field [L] that is not marked
    for replacement, the merged [L] is the base's [L] in its order, followed
    by the elements of the overlay's [L] that the base's [L] lacks (equality
    of paths by value, of vault identities by label and source), in the
    overlay's order and each as often as the overlay has it; an appended
    element occurs exactly once when the overlay's list repeats nothing. *)
Theorem merge_append_unique (base overlay : MainConfig) opts m :
  AttrMerger_init opts = Returned m →
  ∃ r, MainConfig_merge base overlay m = Returned (r, m) ∧
    ("ansible.inventories" ∉ replace_vars m →
       append_unique (inventories (ansible base)) (inventories (ansible overlay))
         (inventories (ansible r))) ∧
    ("ansible.vault_ids" ∉ replace_vars m →
       append_unique (vault_ids (ansible base)) (vault_ids (ansible overlay))
         (vault_ids (ansible r))) ∧
    ("ansible.vault_password_files" ∉ replace_vars m →
       append_unique (vault_password_files (ansible base))
         (vault_password_files (ansible overlay)) (vault_password_files (ansible r))) ∧
    ("ansible.user_scripts" ∉ replace_vars m →
       append_unique (user_scripts (ansible base)) (user_scripts (ansible overlay))
         (user_scripts (ansible r))) ∧
    ("ansible.vars_files" ∉ replace_vars m →
       append_unique (vars_files (ansible base)) (vars_files (ansible overlay))
         (vars_files (ansible r))) ∧
    ("ansible.vault_files" ∉ replace_vars m →
       append_unique (vault_files (ansible base)) (vault_files (ansible overlay))
         (vault_files (ansible r))).
Proof.
  intros Hm. merge_fields base overlay Hm a.
  repeat split; intros Hn; rewrite bool_decide_eq_false_2 by exact Hn;
    apply merge_values_append_unique.
Qed.

Lemma merge_append_unique_witness :
  AttrMerger_init no_options = Returned (mkAttrMerger no_options ∅ "" []) ∧
  ∃ r, MainConfig_merge demo_base demo_overlay (mkAttrMerger no_options ∅ "" [])
       = Returned (r, mkAttrMerger no_options ∅ "" []).
Proof.
  assert (H : AttrMerger_init no_options = Returned (mkAttrMerger no_options ∅ "" []))
    by reflexivity.
  split; [exact H|].
  destruct (merge_append_unique demo_base demo_overlay _ _ H) as (r & Hr & _).
  exists r. exact Hr.
Defined.

(** C2 as stated fails: an element the overlay lists twice and the base lacks
    is appended twice. *)
Lemma merge_append_unique_counterexample :
  ∃ r m, AttrMerger_init no_options = Returned m ∧
         MainConfig_merge demo_base demo_overlay m = Returned (r, m) ∧
         ("ansible.inventories" ∉ replace_vars m) ∧
         (path_b ∈ inventories (ansible demo_overlay)) ∧
         (path_b ∉ inventories (ansible demo_base)) ∧
         inventories (ansible r) = [path_a; path_b; path_b] ∧
         occurrences path_b (inventories (ansible r)) = 2.
Proof.
  eexists _, _. split; [reflexivity|]. split; [vm_compute; reflexivity|].
  split; [simpl; set_solver|]. split; [simpl; set_solver|].
  split; [|split; reflexivity].
  simpl. intros [=]%list_elem_of_singleton.
Qed.

(** C3. When ["ansible.inventories"] is in the overlay's replace set, the
    merged inventories are the overlay's, whatever the base's are. *)
Theorem merge_replace_inventories (base overlay : MainConfig) opts m :
  AttrMerger_init opts = Returned m →
  "ansible.inventories" ∈ replace_vars m →
  ∃ r, MainConfig_merge base overlay m = Returned (r, m) ∧
       inventories (ansible r) = inventories (ansible overlay).
Proof.
  intros Hm Hin. merge_fields base overlay Hm a. by rewrite bool_decide_eq_true_2.
Qed.

Lemma replace_inventories_merger :
  AttrMerger_init replace_inventories
  = Returned (mkAttrMerger replace_inventories {[ "ansible.inventories" ]} "" []).
Proof.
  unfold AttrMerger_init, replace_vars_of, replace_inventories.
  rewrite lookup_singleton_eq. simpl. repeat f_equal; set_solver.
Qed.

Lemma merge_replace_inventories_witness :
  ∃ r, MainConfig_merge demo_base demo_overlay
         (mkAttrMerger replace_inventories {[ "ansible.inventories" ]} "" [])
       = Returned (r, mkAttrMerger replace_inventories {[ "ansible.inventories" ]} "" []) ∧
       inventories (ansible r) = [path_b; path_b].
Proof.
  apply (merge_replace_inventories demo_base demo_overlay replace_inventories).
  - exact replace_inventories_merger.
  - simpl. set_solver.
Defined.

(** C4, as the code has it. Whatever the policy, each scalar field of the
    merged settings is the overlay's value, also when that value is absent:
    the base's value is not kept. *)
Theorem merge_scalars (base overlay : MainConfig) opts m :
  AttrMerger_init opts = Returned m →
  ∃ r, MainConfig_merge base overlay m = Returned (r, m) ∧
       config_file (ansible r) = config_file (ansible overlay) ∧
       private_key_file (ansible r) = private_key_file (ansible overlay) ∧
       user (ansible r) = user (ansible overlay) ∧
       vault_encrypt_identity (ansible r) = vault_encrypt_identity (ansible overlay) ∧
       log_path (ansible r) = log_path (ansible overlay).
Proof. intros Hm. merge_fields base overlay Hm a. done. Qed.

Lemma merge_scalars_witness :
  ∃ r, MainConfig_merge demo_base demo_overlay (mkAttrMerger no_options ∅ "" [])
       = Returned (r, mkAttrMerger no_options ∅ "" []) ∧
       user (ansible r) = None.
Proof.
  destruct (merge_scalars demo_base demo_overlay no_options
              (mkAttrMerger no_options ∅ "" []) eq_refl) as (r & Hr & _ & _ & Hu & _).
  exists r. split; [exact Hr|exact Hu].
Defined.

(** C4 as stated fails: an overlay without a user erases the base's user. *)
Lemma merge_scalars_counterexample :
  ∃ r m, AttrMerger_init no_options = Returned m ∧
         MainConfig_merge demo_base demo_overlay m = Returned (r, m) ∧
         user (ansible demo_overlay) = None ∧
         user (ansible demo_base) = Some "alice" ∧
         user (ansible r) ≠ user (ansible demo_base).
Proof.
  eexists _, _. split; [reflexivity|]. split; [vm_compute; reflexivity|].
  repeat split; done.
Qed.

(** ** Sparse output *)

(** C5, as the code has it. The mapping [dump] produces has no key whose
    value is [None]: a scalar field is written exactly when it is not [None].
    The list fields and the environment variables are always written, an
    empty one as an empty list or mapping. *)
Theorem dump_omits_none (os : OSEnv) (fs : FS) (context : ConfigContext) (c : AnsibleConfig) :
  ∃ d, AnsibleConfigSchema_dump os fs context c = Returned d ∧
    (∀ k, d !! k ≠ Some (RVal PNone)) ∧
    (d !! "config_file" = None ↔ config_file c = None) ∧
    (d !! "private_key_file" = None ↔ private_key_file c = None) ∧
    (d !! "user" = None ↔ user c = None) ∧
    (d !! "vault_encrypt_identity" = None ↔ vault_encrypt_identity c = None) ∧
    (d !! "log_path" = None ↔ log_path c = None) ∧
    (∃ l, d !! "inventories" = Some (RList l) ∧ length l = length (inventories c)) ∧
    (∃ l, d !! "vault_ids" = Some (RList l) ∧ length l = length (vault_ids c)) ∧
    (∃ l, d !! "vault_password_files" = Some (RList l) ∧
          length l = length (vault_password_files c)) ∧
    (∃ l, d !! "user_scripts" = Some (RList l) ∧ length l = length (user_scripts c)) ∧
    (∃ l, d !! "vars_files" = Some (RList l) ∧ length l = length (vars_files c)) ∧
    (∃ l, d !! "vault_files" = Some (RList l) ∧ length l = length (vault_files c)) ∧
    (∃ l, d !! "env_vars" = Some (RDict l) ∧ length l = size (env_vars c)).
Proof.
  destruct (dump_lookup os fs context c)
    as (d & Hd & H1 & H2 & H3 & H4 & H5 & H6 & H7 & H8 & H9 & H10 & H11 & H12 & Hdom).
  exists d. split; [exact Hd|]. split.
  - intros k Hk. unfold AnsibleConfigSchema_dump in Hd.
    destruct (AnsibleConfigSchema_serialize os fs context c) as [data|]; [|done].
    injection Hd as <-. rewrite remove_none_lookup in Hk.
    by destruct (dict_of_items data !! k) as [[[]| |]|].
  - rewrite H1, H2, H3, H4, H5, H6, H7, H8, H9, H10, H11, H12.
    unfold path_value, str_value, paths_value, Dict_serialize.
    repeat split; try (by intros ?%fmap_None); try (by intros ->);
      eexists; (split; [reflexivity|]); rewrite ?length_fmap; try done.
    by rewrite length_map_to_list.
Qed.

(** C5 as stated fails: an empty list is written, not omitted. *)
Lemma dump_omits_none_counterexample :
  ∃ d, AnsibleConfigSchema_dump demo_os empty_fs demo_context AnsibleConfig_default
       = Returned d ∧
       inventories AnsibleConfig_default = [] ∧
       d !! "inventories" = Some (RList []) ∧
       d !! "env_vars" = Some (RDict []).
Proof. eexists. split; [reflexivity|]. repeat split; reflexivity. Qed.

(** ** Round trip *)

(** C1, as the code has it. Loading what was dumped under the context of a
    configuration file gives the settings back when, besides every path lying
    under the configuration directory, no path relative to that directory
    starts with a tilde, no vault identity has an [@] in its label, every
    vault identity's path source is spelled as [str] spells a path and its
    relative form is not the word [prompt] and names nothing that exists, and
    every environment variable holds a string. *)
Theorem load_dump_roundtrip (os : OSEnv) (fs : FS) (f : Path) (c : AnsibleConfig) :
  settings_under fs (ConfigContext_for f) c →
  ∃ d, AnsibleConfigSchema_dump os fs (ConfigContext_for f) c = Returned d ∧
       AnsibleConfigSchema_load os fs (ConfigContext_for f) d = Returned (Model c).
Proof.
  intros Hc. destruct (fields_of_dump os fs f c Hc) as (d & Hd & a & Ha & Hc').
  exists d. split; [exact Hd|].
  unfold AnsibleConfigSchema_load. rewrite Ha. simpl. by rewrite Hc'.
Qed.

Ltac path_is_under x :=
  split;
  [ split; [by right; left | repeat constructor; by repeat split]
  | exists (mkPath "" [x]); split; by vm_compute ].

Lemma demo_settings_under :
  settings_under empty_fs (ConfigContext_for (mkPath "/" ["etc"; "config.yml"])) demo_settings.
Proof.
  unfold settings_under, demo_settings, opt_under. cbn.
  split; [intros q [= <-]; path_is_under "ansible.cfg"|].
  split; [apply Forall_cons; split; [path_is_under "a"|];
          apply Forall_cons; split; [path_is_under "b"|constructor]|].
  split.
  { apply Forall_cons; split.
    - split; [done|]. intros _. split; [by vm_compute|].
      exists (mkPath "" ["vault_pw"]). by vm_compute.
    - apply Forall_cons; split; [|constructor].
      split; [done|]. intros Hp. by vm_compute in Hp. }
  do 4 (split; [constructor|]).
  do 2 (split; [by intros q [=]|]).
  by apply map_Forall_singleton.
Qed.

Lemma load_dump_roundtrip_witness :
  ∃ d, AnsibleConfigSchema_dump demo_os empty_fs demo_context demo_settings = Returned d ∧
       AnsibleConfigSchema_load demo_os empty_fs demo_context d = Returned (Model demo_settings).
Proof.
  exact (load_dump_roundtrip demo_os empty_fs _ demo_settings demo_settings_under).
Defined.

(** C1 as stated fails: a vault password file named [prompt] in the
    configuration directory is dumped as the word [prompt], which loads as the
    marker and not as the path. *)
Lemma load_dump_roundtrip_counterexample :
  ∃ d c, relative_to (Path_of_string "/etc/prompt") (config_dir demo_context)
           = Some (mkPath "" ["prompt"]) ∧
         AnsibleConfigSchema_dump demo_os empty_fs demo_context prompt_settings
           = Returned d ∧
         d !! "vault_ids" = Some (RList [PStr "prod@prompt"]) ∧
         AnsibleConfigSchema_load demo_os empty_fs demo_context d = Returned (Model c) ∧
         vault_ids c = [mkVaultId "prod" "prompt"] ∧
         c ≠ prompt_settings.
Proof.
  eexists _, _. split; [by vm_compute|]. split; [reflexivity|].
  split; [by vm_compute|]. split; [by vm_compute|]. split; [reflexivity|].
  intros [=].
Qed.

(** ** Absolute paths *)

(** C10. A raw string that is absolute after home-directory expansion is
    decoded by the path field to the path it spells, whatever the
    configuration directory is, and decoding does not fail; the same holds
    for the path source of a vault identity. *)
Theorem decode_keeps_absolute (os : OSEnv) (fs : FS) (context : ConfigContext) :
  (∀ raw_path, isabs (expanduser os raw_path) = true →
     PathField_deserialize os context (PStr raw_path)
     = Returned (Path_of_string (expanduser os raw_path))) ∧
  (∀ svalue v sp,
     VaultId_init os fs (Some svalue) None None SourceNone true = Returned v →
     source_path v = Some sp →
     isabs (expanduser os (Path_str sp)) = true →
     VaultIdField_deserialize os fs context (PStr svalue)
     = Returned (mkVaultId (label v)
                   (Path_str (Path_of_string (expanduser os (Path_str sp)))))).
Proof.
  split.
  - intros raw_path Habs. unfold PathField_deserialize. simpl.
    by rewrite truediv_rooted by (by apply isabs_rooted).
  - intros svalue v sp Hv Hsp Habs. unfold VaultIdField_deserialize. simpl.
    rewrite Hv. simpl. rewrite Hsp.
    by rewrite truediv_rooted by (by apply isabs_rooted).
Qed.

Lemma decode_keeps_absolute_witness :
  PathField_deserialize demo_os demo_context (PStr "~/keys/id_rsa")
  = Returned (mkPath "/" ["root"; "keys"; "id_rsa"]) ∧
  VaultIdField_deserialize demo_os empty_fs demo_context (PStr "prod@/srv/vault_pw")
  = Returned (mkVaultId "prod" "/srv/vault_pw").
Proof.
  destruct (decode_keeps_absolute demo_os empty_fs demo_context) as [Hp Hv]. split.
  - exact (Hp "~/keys/id_rsa" eq_refl).
  - exact (Hv "prod@/srv/vault_pw" (mkVaultId "prod" "/srv/vault_pw")
             (mkPath "/" ["srv"; "vault_pw"]) eq_refl eq_refl eq_refl).
Defined.

(** ** Environment variables *)

(** C9, as the code has it. Decoding accepts an environment mapping only if
    all its keys and values are strings, and the decoded values are strings;
    merging gives the overlay's environment; the setter turns every key into
    a string with [str] and stores the values as they were given, so they are
    strings when the given values are. *)
Theorem env_vars_strings :
  (∀ os fs context data c,
     AnsibleConfigSchema_load os fs context data = Returned (Model c) →
     map_Forall (λ _ v, is_str v = true) (env_vars c)) ∧
  (∀ d m, Dict_deserialize (RDict d) = Returned m →
     Forall (λ kv, is_str kv.1 = true ∧ is_str kv.2 = true) d) ∧
  (∀ base overlay opts m, AttrMerger_init opts = Returned m →
     ∃ r, MainConfig_merge base overlay m = Returned (r, m) ∧
          env_vars (ansible r) = env_vars (ansible overlay)) ∧
  (∀ self value k v,
     env_vars (ansible (_config (set_ansible_env_vars self value))) !! k = Some v →
     ∃ k0, (k0, v) ∈ value ∧ k = py_str k0) ∧
  (∀ self value, Forall (λ kv, is_str kv.2 = true) value →
     map_Forall (λ _ v, is_str v = true)
       (env_vars (ansible (_config (set_ansible_env_vars self value))))).
Proof.
  split; [|split; [|split; [|split]]].
  - intros os fs context data c. unfold AnsibleConfigSchema_load.
    destruct (AnsibleConfigSchema_fields os fs context data) as [a|]; [|done].
    simpl. destruct (create_model context); [|done].
    intros [= <-]. apply env_vars_of_data_strings.
  - apply Dict_deserialize_strings.
  - intros base overlay opts m Hm. merge_fields base overlay Hm a.
    clear Hr. case_match; reflexivity.
  - intros self value k v Hk. simpl in Hk.
    apply dict_of_items_lookup, list_elem_of_fmap in Hk as ([k0 v0] & [= -> ->] & Hin).
    by exists k0.
  - intros self value Hv k v Hk. simpl in Hk.
    apply dict_of_items_lookup, list_elem_of_fmap in Hk as ([k0 v0] & [= -> ->] & Hin).
    rewrite Forall_forall in Hv. by apply (Hv _ Hin).
Qed.

Lemma env_vars_strings_witness :
  map_Forall (λ _ v, is_str v = true)
    (env_vars (ansible (_config (set_ansible_env_vars
       (mkConfigurator false demo_base ∅) [(PInt 7, PStr "seven")])))).
Proof.
  destruct env_vars_strings as (_ & _ & _ & _ & H).
  apply H. by repeat constructor.
Defined.

(** C9 as stated fails: the setter keeps a value that is not a string. *)
Lemma env_vars_strings_counterexample :
  env_vars (ansible (_config (set_ansible_env_vars
    (mkConfigurator false demo_base ∅) [(PStr "A", PInt 1)]))) !! "A" = Some (PInt 1) ∧
  is_str (PInt 1) = false.
Proof. split; reflexivity. Qed.

(** ** Vault detection *)

(** C8. A file is classified as a vault exactly when it starts with the
    fifteen bytes of the magic prefix; a file shorter than the prefix, an
    empty one included, is not a vault, and neither is a name that does not
    exist. *)
Theorem is_vault_magic (fs : FS) (filename : string) :
  length ANSIBLE_VAULT_MAGIC = 15 ∧
  (∀ content, fs_nodes fs !! filename = Some (File content) →
     is_vault fs filename = Returned (bool_decide (take 15 content = ANSIBLE_VAULT_MAGIC)) ∧
     (is_vault fs filename = Returned true ↔ ANSIBLE_VAULT_MAGIC `prefix_of` content) ∧
     (length content < 15 → is_vault fs filename = Returned false)) ∧
  (fs_nodes fs !! filename = None → is_vault fs filename = Returned false).
Proof.
  split; [reflexivity|]. split.
  - intros content Hf.
    assert (Hv : is_vault fs filename
                 = Returned (bool_decide (take 15 content = ANSIBLE_VAULT_MAGIC))).
    { unfold is_vault, path_exists. rewrite Hf.
      by rewrite bool_decide_eq_true_2 by eauto. }
    split; [exact Hv|]. rewrite Hv. split.
    + split.
      * intros [= Ht]. apply bool_decide_eq_true in Ht.
        exists (drop 15 content). by rewrite <- Ht, take_drop.
      * intros [k ->]. rewrite bool_decide_eq_true_2; [done|].
        by rewrite take_app_length' by reflexivity.
    + intros Hlen. rewrite bool_decide_eq_false_2; [done|]. intros Ht.
      apply (f_equal length) in Ht. rewrite length_take in Ht.
      change (length ANSIBLE_VAULT_MAGIC) with 15 in Ht. lia.
  - intros Hn. unfold is_vault, path_exists. rewrite Hn.
    by rewrite bool_decide_eq_false_2 by (by intros [? ?]).
Qed.

Lemma is_vault_magic_witness :
  is_vault vault_fs "/etc/vault.yml" = Returned true ∧
  is_vault vault_fs "/etc/short" = Returned false ∧
  is_vault vault_fs "/etc/missing" = Returned false.
Proof.
  destruct (is_vault_magic vault_fs "/etc/vault.yml") as (_ & Hf & _).
  destruct (Hf vault_text eq_refl) as (H1 & _ & _).
  destruct (is_vault_magic vault_fs "/etc/short") as (_ & Hs & _).
  destruct (Hs (take 5 vault_text) eq_refl) as (_ & _ & H2).
  destruct (is_vault_magic vault_fs "/etc/missing") as (_ & _ & H3).
  split; [exact H1|]. split; [apply H2; simpl; lia|apply H3; reflexivity].
Defined.

(** ** Saving *)

Lemma save_config_dict_returns os yaml_dump fs filename config_dict do_backup :
  ∃ b fs', save_config_dict os yaml_dump fs filename config_dict do_backup
           = (Returned b, fs').
Proof.
  unfold save_config_dict, except_Exception.
  destruct do_backup.
  - destruct (backup_file os fs filename) as [[[]|e] fs1]; simpl; [|by eauto].
    destruct (write_config yaml_dump fs1 filename config_dict) as [[[]|e] fs2];
      simpl; eauto.
  - destruct (write_config yaml_dump fs filename config_dict) as [[[]|e] fs2];
      simpl; eauto.
Qed.

(** C7. With no target path, [force] false and an unchanged configuration,
    [save] writes nothing and returns [False]. [save_config_dict] never
    raises; when the backup or the write raises, [save] returns [False]. *)
Theorem save_reports_failure (os : OSEnv) (yaml_dump : gmap string entry → outcome bytes)
    (fs : FS) (self : Configurator) :
  (∀ do_backup, config_changed os fs self = Returned false →
     save os yaml_dump fs self None false do_backup = (Returned false, fs)) ∧
  (∀ filename config_dict do_backup,
     ∃ b fs', save_config_dict os yaml_dump fs filename config_dict do_backup
              = (Returned b, fs')) ∧
  (∀ filename force do_backup cc config_dict,
     save_plan os fs self filename force = Returned (Some (cc, config_dict)) →
     (do_backup = true → ∀ e fs1,
        backup_file os fs (Path_str (context_config_file cc)) = (Raised e, fs1) →
        save os yaml_dump fs self filename force do_backup = (Returned false, fs1)) ∧
     (∀ fs1,
        (if do_backup
         then backup_file os fs (Path_str (context_config_file cc)) = (Returned (), fs1)
         else fs1 = fs) →
        ∀ e fs2,
          write_config yaml_dump fs1 (Path_str (context_config_file cc)) config_dict
          = (Raised e, fs2) →
          save os yaml_dump fs self filename force do_backup = (Returned false, fs2))).
Proof.
  split; [|split].
  - intros do_backup Hc. unfold save, save_plan. simpl. by rewrite Hc.
  - intros. apply save_config_dict_returns.
  - intros filename force do_backup cc config_dict Hplan. unfold save. rewrite Hplan.
    unfold save_config_dict, except_Exception. split.
    + intros -> e fs1 Hb. by rewrite Hb.
    + intros fs1 Hb e fs2 Hw. destruct do_backup.
      * rewrite Hb. simpl. by rewrite Hw.
      * subst fs1. by rewrite Hw.
Qed.

Lemma save_reports_failure_witness :
  save demo_os demo_yaml_dump empty_fs demo_loaded None false true
  = (Returned false, empty_fs) ∧
  save demo_os demo_yaml_dump denied_fs demo_loaded None true true
  = (Returned false, denied_fs) ∧
  save demo_os demo_yaml_dump denied_fs demo_loaded None true false
  = (Returned false, denied_fs).
Proof.
  destruct (save_reports_failure demo_os demo_yaml_dump empty_fs demo_loaded) as (H1 & _ & _).
  destruct (save_reports_failure demo_os demo_yaml_dump denied_fs demo_loaded) as (_ & _ & H3).
  split; [apply H1; by vm_compute|].
  assert (Hplan : ∃ d, save_plan demo_os denied_fs demo_loaded None true
                       = Returned (Some (demo_context, d)))
    by (eexists; vm_compute; reflexivity).
  destruct Hplan as [d Hplan].
  destruct (H3 None true true demo_context d Hplan) as [Hb _].
  destruct (H3 None true false demo_context d Hplan) as [_ Hw].
  split.
  - by apply (Hb eq_refl OSError).
  - by apply (Hw denied_fs eq_refl OSError).
Defined.

(** ** Change detection *)

(** C6, as the code has it. Right after loading, [config_changed] is false,
    whatever happens to the files meanwhile. After any run of setter calls on
    the loaded configurator, [config_changed] is false when the settings are
    equal to the loaded ones (a value that is set and then set back is no
    change), and it is true when they differ from the loaded ones, provided
    that in the loaded settings and in the current ones no vault identity has
    an [@] in its label and every environment variable holds a string: the
    comparison is between the absolute-path serialized form and the snapshot
    taken at load time, and it cannot see a change that leaves the serialized
    form the same. *)
Theorem change_detection (os : OSEnv) :
  (∀ yaml_load fs config_files debug self fs',
     Configurator_init os yaml_load fs config_files debug = Returned self →
     config_changed os fs' self = Returned false) ∧
  (∀ yaml_load fs config_files debug self fs1 calls self' fs2,
     Configurator_init os yaml_load fs config_files debug = Returned self →
     call_setters os fs1 self calls = Returned self' →
     (ansible (_config self') = ansible (_config self) →
      config_changed os fs2 self' = Returned false) ∧
     (plainly_encoded (ansible (_config self)) →
      plainly_encoded (ansible (_config self')) →
      ansible (_config self') ≠ ansible (_config self) →
      config_changed os fs2 self' = Returned true)).
Proof.
  split.
  - intros yaml_load fs config_files debug self fs' Hi.
    pose proof (Configurator_init_snapshot _ _ _ _ _ _ Hi) as Hd.
    destruct self as [dbg m d]. by apply (config_changed_after_load os fs).
  - intros yaml_load fs config_files debug self fs1 calls self' fs2 Hi Hs.
    pose proof (Configurator_init_wf _ _ _ _ _ _ Hi) as W.
    pose proof (call_setters_wf _ _ _ _ _ Hs W) as W'.
    destruct (call_setters_frame _ _ _ _ _ Hs) as [Hctx Hinit].
    pose proof (Configurator_init_snapshot _ _ _ _ _ _ Hi) as Hsnap.
    unfold config_changed, config_to_dict in *. rewrite Hctx, Hinit.
    destruct (config_context (_config self)) as [cc|]; [|done].
    rewrite (main_dump_machine_independent os fs os fs2) in Hsnap.
    destruct (MainConfigSchema_dump_total os fs2
                (mkConfigContext (context_config_file cc) true false) (_config self'))
      as (a & Ha & Hd).
    rewrite Hd. cbn [mbind outcome_bind]. split.
    + intros Heq. f_equal. apply negb_false_iff, bool_decide_eq_true_2.
      unfold MainConfigSchema_dump in Hsnap. rewrite <- Heq, Ha in Hsnap.
      cbn [mbind outcome_bind] in Hsnap.
      rewrite map_filter_singleton_True in Hsnap by done. by injection Hsnap.
    + intros P P' Hne. f_equal. apply negb_true_iff, bool_decide_eq_false_2.
      intros Heq. apply Hne.
      apply (main_dump_inj os fs2 (mkConfigContext (context_config_file cc) true false));
        [reflexivity|assumption..|].
      rewrite Hd, Hsnap. by rewrite Heq.
Qed.

Lemma demo_initial_loaded :
  Configurator_init demo_os demo_yaml_load config_fs ["/etc/config.yml"] false
  = Returned demo_initial.
Proof. by vm_compute. Qed.

Lemma demo_initial_settings :
  ansible (_config demo_initial) =
  mkAnsibleConfig (Some (mkPath "/" ["etc"; "ansible.cfg"]))
    [mkPath "/" ["etc"; "inventory"]] [] [] [] [] [] None (Some "alice") None None
    {[ "A" := PStr "1" ]}.
Proof. by vm_compute. Qed.

Lemma demo_initial_plainly u :
  plainly_encoded (set_user (ansible (_config demo_initial)) u).
Proof.
  rewrite demo_initial_settings. split; [constructor|by apply map_Forall_singleton].
Qed.

Lemma change_detection_witness :
  config_changed demo_os empty_fs demo_initial = Returned false ∧
  (∃ self', call_setters demo_os config_fs demo_initial
              [Call_user (Some "bob"); Call_vault_encrypt_identity (Some "dev")]
            = Returned self' ∧
            config_changed demo_os config_fs self' = Returned true) ∧
  (∃ self', call_setters demo_os config_fs demo_initial
              [Call_user (Some "bob"); Call_user (Some "alice")]
            = Returned self' ∧
            config_changed demo_os config_fs self' = Returned false).
Proof.
  destruct (change_detection demo_os) as [Hload Hrun]. split; [|split].
  - exact (Hload _ _ _ _ _ empty_fs demo_initial_loaded).
  - eexists. split; [reflexivity|].
    apply (Hrun _ _ _ _ _ config_fs
             [Call_user (Some "bob"); Call_vault_encrypt_identity (Some "dev")]
             _ config_fs demo_initial_loaded eq_refl).
    + exact (demo_initial_plainly (Some "alice")).
    + simpl. rewrite demo_initial_settings.
      split; [constructor|by apply map_Forall_singleton].
    + simpl. rewrite demo_initial_settings. by intros [=].
  - eexists. split; [reflexivity|].
    apply (Hrun _ _ _ _ _ config_fs [Call_user (Some "bob"); Call_user (Some "alice")]
             _ config_fs demo_initial_loaded eq_refl).
    simpl. by rewrite demo_initial_settings.
Defined.

(** C6 as stated fails: after loading the value ["1"], the setter stores the
    number [1] in its place, and the change is not seen. *)
Lemma change_detection_counterexample :
  ∃ self',
    Configurator_init demo_os demo_yaml_load config_fs ["/etc/config.yml"] false
      = Returned demo_initial ∧
    call_setter demo_os config_fs demo_initial (Call_env_vars [(PStr "A", PInt 1)])
      = Returned self' ∧
    env_vars (ansible (_config demo_initial)) !! "A" = Some (PStr "1") ∧
    env_vars (ansible (_config self')) !! "A" = Some (PInt 1) ∧
    ansible (_config self') ≠ ansible (_config demo_initial) ∧
    config_changed demo_os config_fs self' = Returned false.
Proof.
  eexists. split; [exact demo_initial_loaded|]. split; [reflexivity|].
  split; [by vm_compute|]. split; [by vm_compute|]. split; [|by vm_compute].
  intros Heq. apply (f_equal (λ c, env_vars c !! "A")) in Heq. by vm_compute in Heq.
Qed.

(** * Further properties of the code *)

(** ** Backup and save *)

Lemma tildes_snoc s k : (s +:+ "~") +:+ tildes k = s +:+ tildes (S k).
Proof. by rewrite string_app_assoc. Qed.

Lemma backup_name_spec fs n s bak :
  backup_name fs n s = Some bak →
  ∃ k, bak = s +:+ tildes k ∧ path_exists fs bak = false ∧
       ∀ j, j < k → path_exists fs (s +:+ tildes j) = true.
Proof.
  revert s. induction n as [|n IH]; intros s; [done|]. simpl.
  destruct (path_exists fs s) eqn:He.
  - intros (k & -> & Hf & Hb)%IH. exists (S k). rewrite tildes_snoc in *.
    split; [done|]. split; [done|].
    intros [|j] Hj; [by rewrite string_app_empty_r|].
    rewrite <- tildes_snoc. apply Hb. lia.
  - intros [= <-]. exists 0. rewrite string_app_empty_r. split; [done|].
    split; [done|]. intros j Hj. lia.
Qed.



Lemma tildes_S_ne s k : s +:+ tildes (S k) ≠ s.
Proof.
  intros Heq. apply (f_equal String.length) in Heq.
  rewrite string_app_length in Heq. simpl in Heq. lia.
Qed.

Lemma backup_file_inv os fs path fs1 n :
  backup_file os fs path = (Returned (), fs1) →
  fs_nodes fs !! os_realpath os path = Some n →
  ∃ k, fs_nodes fs !! (os_realpath os path +:+ tildes (S k)) = None ∧
       fs1 = mkFS (<[os_realpath os path +:+ tildes (S k) := n]>
                     (delete (os_realpath os path) (fs_nodes fs))) (fs_denied fs).
Proof.
  unfold backup_file, path_exists. intros Hb Hn. rewrite Hn in Hb.
  rewrite bool_decide_eq_true_2 in Hb by eauto.
  destruct (backup_name fs _ _) as [bak|] eqn:Hbak; [|done].
  apply backup_name_spec in Hbak as (k & -> & Hf & _). rewrite tildes_snoc in *.
  exists k. split.
  - apply bool_decide_eq_false in Hf. by apply eq_None_not_Some.
  - unfold os_rename in Hb. destruct (_ || _); [done|]. rewrite Hn in Hb. by injection Hb as <-.
Qed.

Lemma write_config_inv yaml_dump fs filename d fs' :
  write_config yaml_dump fs filename d = (Returned (), fs') →
  ∃ text, yaml_dump d = Returned text ∧
          fs' = mkFS (<[filename := File text]> (fs_nodes fs)) (fs_denied fs).
Proof.
  unfold write_config. destruct (_ || _); [done|].
  destruct (yaml_dump d) as [text|]; [|done]. intros [= <-]. by exists text.
Qed.

(** X2. When [save_config_dict] returns [True], the file holds the dumped
    document; if a backup was asked for and the file, named by its real path,
    existed, its previous content is kept under a name [file~...~] that did
    not exist before. *)
Theorem save_config_dict_success (os : OSEnv) (yaml_dump : gmap string entry → outcome bytes)
    (fs : FS) (filename : string) (config_dict : gmap string entry) (do_backup : bool)
    (fs' : FS) :
  save_config_dict os yaml_dump fs filename config_dict do_backup = (Returned true, fs') →
  ∃ text, yaml_dump config_dict = Returned text ∧
          fs_nodes fs' !! filename = Some (File text) ∧
          (do_backup = true → os_realpath os filename = filename →
           ∀ n, fs_nodes fs !! filename = Some n →
             ∃ k, fs_nodes fs !! (filename +:+ tildes (S k)) = None ∧
                  fs_nodes fs' !! (filename +:+ tildes (S k)) = Some n).
Proof.
  unfold save_config_dict, except_Exception. destruct do_backup.
  - destruct (backup_file os fs filename) as [[[]|e] fs1] eqn:Hb; simpl; [|done].
    destruct (write_config yaml_dump fs1 filename config_dict) as [[[]|e] fs2] eqn:Hw;
      simpl; [|done].
    intros [= <-]. apply write_config_inv in Hw as (text & Ht & ->).
    exists text. split; [done|]. split; [apply lookup_insert_eq|].
    intros _ Hreal n Hn. rewrite <- Hreal in Hn.
    destruct (backup_file_inv _ _ _ _ _ Hb Hn) as (k & Hk & ->).
    rewrite Hreal in *. exists k. split; [done|]. simpl.
    rewrite lookup_insert_ne by (intros Heq; by apply (tildes_S_ne filename k)).
    apply lookup_insert_eq.
  - destruct (write_config yaml_dump fs filename config_dict) as [[[]|e] fs2] eqn:Hw;
      simpl; [|done].
    intros [= <-]. apply write_config_inv in Hw as (text & Ht & ->).
    exists text. split; [done|]. split; [apply lookup_insert_eq|done].
Qed.

Lemma save_config_dict_success_witness :
  ∃ fs', save_config_dict demo_os new_yaml_dump backup_fs "/etc/config.yml" ∅ true
         = (Returned true, fs') ∧
         fs_nodes fs' !! "/etc/config.yml" = Some (File new_text) ∧
         ∃ k, fs_nodes fs' !! ("/etc/config.yml" +:+ tildes (S k)) = Some (File old_text).
Proof.
  eexists. split; [by vm_compute|].
  destruct (save_config_dict_success demo_os new_yaml_dump backup_fs "/etc/config.yml" ∅ true
              _ eq_refl) as (text & Ht & Hf & Hb).
  injection Ht as <-. split; [exact Hf|].
  destruct (Hb eq_refl eq_refl (File old_text) eq_refl) as (k & _ & Hk). by exists k.
Defined.

(** ** Raw documents *)

Lemma simple_dict_merge_dom (a b : gmap string entry) :
  dom (simple_dict_merge a b) = dom a ∪ dom b.
Proof.
  unfold simple_dict_merge.
  apply set_eq. intros k. rewrite elem_of_union, !elem_of_dom, lookup_union_with.
  destruct (a !! k), (b !! k); simpl; split; intros H;
    try (destruct H as [H|H]); try (by inversion H); eauto.
Qed.

Lemma simple_dict_merge_empty_r (a : gmap string entry) : simple_dict_merge a ∅ = a.
Proof.
  unfold simple_dict_merge.
  apply map_eq. intros k. rewrite lookup_union_with, lookup_empty. by destruct (a !! k).
Qed.

(** X3. [simple_dict_merge a b] has the keys of both mappings; a key of [b]
    alone or whose value in [b] is not a mapping takes [b]'s value, a key of
    [a] alone keeps [a]'s value, and merging with the empty mapping on either
    side changes nothing. *)
Theorem simple_dict_merge_keys (a b : gmap string entry) :
  dom (simple_dict_merge a b) = dom a ∪ dom b ∧
  (∀ k w, b !! k = Some w → (∀ m, w ≠ EMapping m) → simple_dict_merge a b !! k = Some w) ∧
  (∀ k w, b !! k = Some w → a !! k = None → simple_dict_merge a b !! k = Some w) ∧
  (∀ k, b !! k = None → simple_dict_merge a b !! k = a !! k) ∧
  (∀ k m1 m2, a !! k = Some (EMapping m1) → b !! k = Some (EMapping m2) →
     simple_dict_merge a b !! k = Some (EMapping (simple_dict_merge_raw m1 m2))) ∧
  simple_dict_merge a ∅ = a ∧
  simple_dict_merge ∅ b = b.
Proof.
  split; [apply simple_dict_merge_dom|].
  unfold simple_dict_merge. split; [|split; [|split; [|split; [|split]]]].
  - intros k w Hb Hw. rewrite lookup_union_with, Hb.
    destruct (a !! k) as [v|]; simpl; [|done].
    destruct v, w; try done. by destruct (Hw m0).
  - intros k w Hb Ha. by rewrite lookup_union_with, Hb, Ha.
  - intros k Hb. rewrite lookup_union_with, Hb. by destruct (a !! k).
  - intros k m1 m2 Ha Hb. by rewrite lookup_union_with, Ha, Hb.
  - apply map_eq. intros k. rewrite lookup_union_with, lookup_empty. by destruct (a !! k).
  - apply map_eq. intros k. rewrite lookup_union_with, lookup_empty. by destruct (b !! k).
Qed.

Lemma simple_dict_merge_keys_witness :
  simple_dict_merge CONFIG_DEFAULTS policy_document !! "$replace_vars"
  = Some (EList [PStr "ansible.inventories"]).
Proof.
  destruct (simple_dict_merge_keys CONFIG_DEFAULTS policy_document) as (_ & H & _).
  apply H; [done|]. by intros m.
Defined.

(** X4. A configuration file that does not exist, is a directory, cannot be
    parsed or holds the empty document loads as the defaults alone. *)
Theorem load_config_dict_defaults (yaml_load : bytes → outcome document)
    (fs : FS) (filename : string) (defaults : gmap string entry) :
  fs_nodes fs !! filename = None ∨
  fs_nodes fs !! filename = Some Dir ∨
  (∃ text e, fs_nodes fs !! filename = Some (File text) ∧ yaml_load text = Raised e) ∨
  (∃ text, fs_nodes fs !! filename = Some (File text) ∧
           yaml_load text = Returned (DocScalar PNone)) →
  load_config_dict yaml_load fs filename defaults = Returned (DocMapping defaults).
Proof.
  intros H. unfold load_config_dict.
  assert (Hempty : (if negb (bool_decide (filename = "")) && path_exists fs filename
                    then match fs_nodes fs !! filename with
                         | Some (File text) =>
                             match yaml_load text with
                             | Returned (DocScalar PNone) => DocMapping ∅
                             | Returned d => d
                             | Raised _ => DocMapping ∅
                             end
                         | _ => DocMapping ∅
                         end
                    else DocMapping ∅) = DocMapping ∅).
  { destruct (_ && _); [|done].
    destruct H as [->|[->|[(text & e & -> & ->)|(text & -> & ->)]]]; done. }
  rewrite Hempty. clear Hempty H. destruct (decide (defaults = ∅)) as [->|Hd]; [done|].
  simpl. by rewrite simple_dict_merge_empty_r.
Qed.

Lemma load_config_dict_defaults_witness :
  load_config_dict demo_yaml_load empty_fs "/etc/config.yml" CONFIG_DEFAULTS
  = Returned (DocMapping CONFIG_DEFAULTS).
Proof.
  apply load_config_dict_defaults. left. reflexivity.
Defined.

(** ** Construction of the configurator *)

Lemma MainConfig_merge_context self other m r m' :
  MainConfig_merge self other m = Returned (r, m') →
  config_context r = config_context other.
Proof.
  unfold MainConfig_merge.
  destruct (AnsibleConfig_merge _ _ _) as [[a am]|]; [|done]. cbn [mbind outcome_bind].
  destruct (end_attr am); [|done]. by intros [= <- _].
Qed.

Lemma MainConfigSchema_load_context os fs context doc m :
  MainConfigSchema_load os fs context doc ≫= the_model = Returned m →
  config_context m = Some context.
Proof.
  unfold MainConfigSchema_load. case_match; [done|].
  match goal with |- context [mbind _ ?x ≫= _] => destruct x as [nested|] end; [|done].
  cbn [mbind outcome_bind]. destruct (create_model context); [|done].
  simpl. by intros [= <-].
Qed.

Lemma load_all_context os yaml_load fs config_files config_dict merged r :
  load_all os yaml_load fs config_files config_dict merged = Returned (Some r) →
  match last config_files with
  | Some f =>
      config_context r = Some (mkConfigContext (Path_of_string (os_realpath os f)) true true)
  | None => merged = Some r
  end.
Proof.
  revert config_dict merged. induction config_files as [|file files IH];
    intros config_dict merged; [simpl; by intros [= ->]|].
  intros (m & model & merged' & _ & Hmodel & Hm & Hall)%load_all_cons_inv.
  apply MainConfigSchema_load_context in Hmodel. apply IH in Hall.
  assert (Hc : config_context merged' = config_context model).
  { destruct merged as [base|]; [|by subst].
    destruct Hm as (am & _ & Hm).
    destruct (MainConfig_merge base model am) as [[x am']|] eqn:Hx; [|done].
    injection Hm as <-. by eapply MainConfig_merge_context. }
  destruct files as [|file' files].
  - simpl in *. injection Hall as <-. by rewrite Hc.
  - change (last (file :: file' :: files)) with (last (file' :: files)).
    destruct (last (file' :: files)) eqn:Hl; [exact Hall|].
    by apply last_None in Hl.
Qed.

(** X5. A configurator cannot be built from no file. When it is built, its
    context is that of the last configuration file given, so that [save]
    without a target writes to that file. *)
Theorem Configurator_init_context (os : OSEnv)
    (yaml_load : bytes → outcome document) (fs : FS)
    (config_files : list string) (debug : bool) (self : Configurator) :
  Configurator_init os yaml_load fs config_files debug = Returned self →
  ∃ f, last config_files = Some f ∧
       config_context (_config self)
       = Some (mkConfigContext (Path_of_string (os_realpath os f)) true true).
Proof.
  destruct config_files as [|file [|file' files]].
  - unfold Configurator_init. cbn [mbind outcome_bind]. done.
  - intros (m & _ & Hm & _)%init_single_inv. exists file. split; [done|].
    by apply MainConfigSchema_load_context in Hm.
  - intros [Hall _]%init_several_inv. apply load_all_context in Hall.
    destruct (last (file :: file' :: files)) as [f|] eqn:Hl; [by exists f|done].
Qed.

Lemma Configurator_init_context_witness :
  config_context (_config demo_initial)
  = Some (mkConfigContext (mkPath "/" ["etc"; "config.yml"]) true true).
Proof.
  destruct (Configurator_init_context demo_os demo_yaml_load config_fs ["/etc/config.yml"]
              false demo_initial demo_initial_loaded) as (f & Hf & Hc).
  injection Hf as <-. exact Hc.
Defined.

(** X6. With exactly one configuration file, a document that has a top-level
    key other than [ansible] (a [$replace_vars] policy, say) is refused: the
    merge options are taken out of the document only when several files are
    given. *)
Theorem single_file_rejects_extra_key (os : OSEnv)
    (yaml_load : bytes → outcome document) (fs : FS)
    (config_file : string) (text : bytes) (doc : gmap string entry) (k : string)
    (debug : bool) :
  config_file ≠ "" →
  fs_nodes fs !! config_file = Some (File text) →
  yaml_load text = Returned (DocMapping doc) →
  is_Some (doc !! k) → k ≠ "ansible" →
  Configurator_init os yaml_load fs [config_file] debug = Raised ValidationError.
Proof.
  intros Hne Hf Hy Hk Hka. unfold Configurator_init, load_config_dict, path_exists.
  rewrite Hf, Hy. rewrite bool_decide_eq_false_2 by done.
  rewrite bool_decide_eq_true_2 by eauto. cbn [negb andb].
  rewrite decide_False by (by intros Heq; apply (f_equal (λ m, m !! "ansible")) in Heq).
  cbn [simple_dict_merge_document mbind outcome_bind MainConfigSchema_load_document].
  unfold MainConfigSchema_load.
  rewrite bool_decide_eq_false_2; [done|].
  intros Hsub. rewrite simple_dict_merge_dom in Hsub. apply Hka.
  assert (Hin : k ∈ dom CONFIG_DEFAULTS ∪ dom doc)
    by (apply elem_of_union; right; by apply elem_of_dom).
  apply Hsub in Hin. by apply elem_of_singleton in Hin.
Qed.

Lemma single_file_rejects_extra_key_witness :
  Configurator_init demo_os policy_yaml_load config_fs ["/etc/config.yml"] false
  = Raised ValidationError.
Proof.
  apply (single_file_rejects_extra_key demo_os policy_yaml_load config_fs "/etc/config.yml"
           [] policy_document "$replace_vars"); done.
Defined.

(** ** More on merging *)

Lemma merge_values_self {A} `{EqDecision A} (l : list A) : merge_values l l = l.
Proof.
  unfold merge_values, list_mergeable.
  assert (Hnil : ∀ k : list A, k ⊆ l → filter (λ item, item ∉ l) k = []).
  { induction k as [|x k IH]; intros Hk; [done|].
    rewrite filter_cons. rewrite decide_False.
    - apply IH. intros y Hy. apply Hk. by right.
    - intros Hn. apply Hn, Hk. by left. }
  by rewrite Hnil, app_nil_r.
Qed.

(** X7. Merging a configuration with itself changes nothing, whatever the
    policy. *)
Theorem merge_self (m : MainConfig) (opts : gmap string entry) (am : AttrMerger) :
  AttrMerger_init opts = Returned am →
  MainConfig_merge m m am = Returned (m, am).
Proof.
  intros Hm. destruct (merge_fresh m m _ _ Hm) as (a & Hr & Ha).
  rewrite Hr. rewrite AnsibleConfig_merge_eq in Ha. injection Ha as <-.
  rewrite !merge_values_self. unfold merge_values, dict_mergeable.
  destruct m as [c ctx]. destruct c. cbn.
  repeat case_match; reflexivity.
Qed.

Lemma merge_self_witness :
  MainConfig_merge demo_main demo_main
    (mkAttrMerger replace_inventories {[ "ansible.inventories" ]} "" [])
  = Returned (demo_main, mkAttrMerger replace_inventories {[ "ansible.inventories" ]} "" []).
Proof.
  exact (merge_self demo_main replace_inventories _ replace_inventories_merger).
Defined.

Lemma NoDup_merge_values {A} `{EqDecision A} (l k : list A) :
  NoDup l → NoDup k → NoDup (merge_values l k).
Proof.
  intros Hl Hk. apply NoDup_app. split; [done|]. split.
  - intros x Hx [Hn _]%list_elem_of_filter. by apply Hn.
  - by apply NoDup_filter.
Qed.

(** X8. If a list field has no repeated element in the base and none in the
    overlay, it has none after the merge, under every policy. *)
Theorem merge_keeps_NoDup (base overlay : MainConfig) (opts : gmap string entry)
    (am : AttrMerger) :
  AttrMerger_init opts = Returned am →
  ∃ r, MainConfig_merge base overlay am = Returned (r, am) ∧
    (NoDup (inventories (ansible base)) → NoDup (inventories (ansible overlay)) →
     NoDup (inventories (ansible r))) ∧
    (NoDup (vault_ids (ansible base)) → NoDup (vault_ids (ansible overlay)) →
     NoDup (vault_ids (ansible r))) ∧
    (NoDup (vault_password_files (ansible base)) →
     NoDup (vault_password_files (ansible overlay)) →
     NoDup (vault_password_files (ansible r))) ∧
    (NoDup (user_scripts (ansible base)) → NoDup (user_scripts (ansible overlay)) →
     NoDup (user_scripts (ansible r))) ∧
    (NoDup (vars_files (ansible base)) → NoDup (vars_files (ansible overlay)) →
     NoDup (vars_files (ansible r))) ∧
    (NoDup (vault_files (ansible base)) → NoDup (vault_files (ansible overlay)) →
     NoDup (vault_files (ansible r))).
Proof.
  intros Hm. merge_fields base overlay Hm a.
  repeat split; intros Hb Ho;
    match goal with
    | |- NoDup (if ?b then _ else _) =>
        destruct b; [exact Ho | by apply NoDup_merge_values]
    end.
Qed.

Lemma merge_keeps_NoDup_witness :
  ∃ r, MainConfig_merge demo_base demo_main (mkAttrMerger no_options ∅ "" [])
       = Returned (r, mkAttrMerger no_options ∅ "" []) ∧
       NoDup (inventories (ansible r)).
Proof.
  destruct (merge_keeps_NoDup demo_base demo_main no_options _ eq_refl)
    as (r & Hr & Hi & _).
  exists r. split; [exact Hr|]. apply Hi.
  - apply NoDup_singleton.
  - apply NoDup_cons. split; [|apply NoDup_singleton].
    by intros [=]%list_elem_of_singleton.
Defined.

(** X9. The replace policy works for each of the seven merged attributes,
    the environment variables included: an attribute whose dotted name is in
    the replace set ends up with the overlay's value. *)
Theorem merge_replace_attr (base overlay : MainConfig) (opts : gmap string entry)
    (am : AttrMerger) (a : Attr) :
  AttrMerger_init opts = Returned am →
  a ∈ merged_attrs →
  "ansible." +:+ attr_name a ∈ replace_vars am →
  ∃ r, MainConfig_merge base overlay am = Returned (r, am) ∧
       attr_get a (ansible r) = attr_get a (ansible overlay).
Proof.
  intros Hm Ha Hin. unfold merged_attrs in Ha.
  merge_fields base overlay Hm c.
  repeat (apply elem_of_cons in Ha as [->|Ha];
          [cbn in Hin |- *; by rewrite bool_decide_eq_true_2 by exact Hin|]).
  by apply elem_of_nil in Ha.
Qed.

Lemma merge_replace_attr_witness :
  ∃ r, MainConfig_merge demo_base demo_overlay
         (mkAttrMerger replace_inventories {[ "ansible.inventories" ]} "" [])
       = Returned (r, mkAttrMerger replace_inventories {[ "ansible.inventories" ]} "" []) ∧
       inventories (ansible r) = [path_b; path_b].
Proof.
  apply (merge_replace_attr demo_base demo_overlay replace_inventories _
           (mkAttr _ "inventories" inventories set_inventories _)
           replace_inventories_merger).
  - by left.
  - simpl. set_solver.
Defined.

Lemma chars_of_length s x : x ∈ chars_of s → String.length x = 1.
Proof.
  induction s as [|a s IH]; simpl; [by intros ?%elem_of_nil|].
  intros [->|Hx]%elem_of_cons; [done|by apply IH].
Qed.

(** X10. A [$replace_vars] that is a number, a boolean or null makes the
    construction of the merger raise [TypeError]. One that is a bare string
    instead of a list gives the set of its characters, which holds no dotted
    attribute name: the list fields are then appended as without a policy. *)
Theorem replace_vars_scalar (opts : gmap string entry) :
  (∀ v, opts !! REPLACE_VARS_MERGE_ACTION = Some (EScalar v) → is_str v = false →
     AttrMerger_init opts = Raised TypeError) ∧
  (∀ s, opts !! REPLACE_VARS_MERGE_ACTION = Some (EScalar (PStr s)) →
     ∃ am, AttrMerger_init opts = Returned am ∧
       (∀ name, name ∈ replace_vars am → String.length name = 1) ∧
       ∀ base overlay,
         ∃ r, MainConfig_merge base overlay am = Returned (r, am) ∧
              append_unique (inventories (ansible base)) (inventories (ansible overlay))
                (inventories (ansible r))).
Proof.
  split.
  - intros v Hv Hs. unfold AttrMerger_init, replace_vars_of. rewrite Hv. by destruct v.
  - intros s Hs.
    assert (Hm : AttrMerger_init opts
                 = Returned (mkAttrMerger opts (list_to_set (chars_of s)) "" []))
      by (unfold AttrMerger_init, replace_vars_of; by rewrite Hs).
    eexists. split; [exact Hm|].
    assert (Hlen : ∀ name, name ∈ replace_vars (mkAttrMerger opts (list_to_set (chars_of s)) "" [])
                     → String.length name = 1).
    { intros name Hn. simpl in Hn. apply elem_of_list_to_set in Hn.
      by apply chars_of_length in Hn. }
    split; [exact Hlen|].
    intros base overlay.
    destruct (merge_append_unique_lists base overlay opts _ Hm) as (r & Hr & Hi).
    exists r. split; [exact Hr|]. apply Hi. intros Hn. by apply Hlen in Hn.
Qed.

Lemma replace_vars_scalar_witness :
  ∃ am r, AttrMerger_init string_policy = Returned am ∧
          MainConfig_merge demo_base demo_main am = Returned (r, am) ∧
          append_unique (inventories (ansible demo_base)) (inventories (ansible demo_main))
            (inventories (ansible r)).
Proof.
  destruct (replace_vars_scalar string_policy) as [_ H].
  destruct (H "ansible.inventories" eq_refl) as (am & Ham & _ & Hmerge).
  destruct (Hmerge demo_base demo_main) as (r & Hr & Hi).
  by exists am, r.
Defined.

(** ** Helpers of the command line *)

Lemma split_first_spec c s :
  Str.contains c s = true →
  s = (Str.split_first c s).1 +:+ String c (Str.split_first c s).2 ∧
  Str.contains c (Str.split_first c s).1 = false.
Proof.
  induction s as [|a s IH]; simpl; [done|].
  destruct (decide (a = c)) as [->|Hne]; [done|].
  intros Hc. destruct (IH Hc) as [Hs Hl].
  destruct (Str.split_first c s) as [l r]. simpl in *.
  rewrite decide_False by done. split; [|done].
  change (String a s = String a (l +:+ String c r)). by f_equal.
Qed.

(** X11. [vault_id_label] and [vault_id_source] both answer exactly when the
    text has an [@]; the text is then the label, an [@] and the source, and
    the label has no [@] (the split is at the first one). *)
Theorem vault_id_label_source (vault_id : string) :
  match vault_id_label vault_id, vault_id_source vault_id with
  | Some l, Some s => vault_id = l +:+ "@" +:+ s ∧ Str.contains "@" l = false
  | None, None => Str.contains "@" vault_id = false
  | _, _ => False
  end.
Proof.
  unfold vault_id_label, vault_id_source.
  destruct (Str.contains "@" vault_id) eqn:Hc; [|done].
  by apply split_first_spec.
Qed.

Lemma endswith_snoc c s : StrPath.endswith c (s +:+ String c "") = true.
Proof.
  induction s as [|a s IH]; simpl; [by apply bool_decide_eq_true_2|].
  destruct s; simpl in *; [by apply bool_decide_eq_true_2|exact IH].
Qed.

(** X12. [sep_at_end] gives a text that ends with the separator, leaves such
    a text as it is, and so does nothing when applied twice. *)
Theorem sep_at_end_ends (path : string) :
  StrPath.endswith sep (sep_at_end path) = true ∧
  (StrPath.endswith sep path = true → sep_at_end path = path) ∧
  (StrPath.endswith sep path = false → sep_at_end path = path +:+ "/") ∧
  sep_at_end (sep_at_end path) = sep_at_end path.
Proof.
  assert (H1 : StrPath.endswith sep (sep_at_end path) = true).
  { unfold sep_at_end. destruct (StrPath.endswith sep path) eqn:He; simpl; [done|].
    apply endswith_snoc. }
  split; [exact H1|]. split; [|split].
  - unfold sep_at_end. by intros ->.
  - unfold sep_at_end. by intros ->.
  - unfold sep_at_end at 1. by rewrite H1.
Qed.

Lemma sep_at_end_ends_witness : sep_at_end "/etc" = "/etc/".
Proof.
  destruct (sep_at_end_ends "/etc") as (_ & _ & H & _). by apply H.
Defined.

Section ListArgsFacts.
Context (value_class : string → string).

Lemma add_arg_mono l item x : x ∈ l → x ∈ add_arg value_class l item.
Proof.
  intros Hx. unfold add_arg. destruct (_ && _); [|done].
  apply elem_of_app. by left.
Qed.

Lemma foldl_add_arg_mono items l x : x ∈ l → x ∈ foldl (add_arg value_class) l items.
Proof.
  revert l. induction items as [|i items IH]; intros l Hx; [done|].
  simpl. apply IH. by apply add_arg_mono.
Qed.

Lemma add_arg_present l item :
  item ∈ add_arg value_class l item ∨ value_class item ∈ add_arg value_class l item.
Proof.
  unfold add_arg.
  destruct (decide (item ∈ l)) as [Hi|Hi].
  { rewrite (bool_decide_eq_true_2 _ Hi). simpl. by left. }
  destruct (decide (value_class item ∈ l)) as [Hv|Hv].
  { rewrite (bool_decide_eq_true_2 _ Hv). rewrite andb_false_r. by right. }
  rewrite (bool_decide_eq_false_2 _ Hi), (bool_decide_eq_false_2 _ Hv). simpl.
  left. apply elem_of_app. right. by left.
Qed.

Lemma foldl_add_arg_present items l item :
  item ∈ items →
  item ∈ foldl (add_arg value_class) l items ∨
  value_class item ∈ foldl (add_arg value_class) l items.
Proof.
  revert l. induction items as [|i items IH]; intros l Hi; [by apply elem_of_nil in Hi|].
  simpl. apply elem_of_cons in Hi as [->|Hi]; [|by apply IH].
  destruct (add_arg_present l i) as [H|H]; [left|right]; by apply foldl_add_arg_mono.
Qed.

Lemma add_arg_NoDup l item : NoDup l → NoDup (add_arg value_class l item).
Proof.
  intros Hl. unfold add_arg.
  destruct (decide (item ∈ l)) as [Hi|Hi].
  { by rewrite (bool_decide_eq_true_2 _ Hi). }
  rewrite (bool_decide_eq_false_2 _ Hi). destruct (_ && _); [|done].
  apply NoDup_app. split; [done|]. split; [|apply NoDup_singleton].
  intros x Hx ->%list_elem_of_singleton. by apply Hi.
Qed.

Lemma foldl_add_arg_NoDup items l : NoDup l → NoDup (foldl (add_arg value_class) l items).
Proof.
  revert l. induction items as [|i items IH]; intros l Hl; [done|].
  simpl. by apply IH, add_arg_NoDup.
Qed.

Lemma list_remove_sub x l y : y ∈ list_remove x l → y ∈ l.
Proof.
  induction l as [|z l IH]; simpl; [done|].
  destruct (decide (z = x)); [by right|].
  intros [->|Hy]%elem_of_cons; [by left|right; by apply IH].
Qed.

Lemma list_remove_NoDup x l : NoDup l → NoDup (list_remove x l).
Proof.
  induction 1 as [|z l Hz Hl IH]; simpl; [constructor|].
  destruct (decide (z = x)); [done|].
  constructor; [|done]. intros Hin. by apply Hz, (list_remove_sub x).
Qed.

Lemma list_remove_gone x l : NoDup l → x ∉ list_remove x l.
Proof.
  induction 1 as [|z l Hz Hl IH]; simpl; [by intros ?%elem_of_nil|].
  destruct (decide (z = x)) as [->|Hne]; [done|].
  intros [->|Hin]%elem_of_cons; [done|by apply IH].
Qed.

Lemma remove_arg_sub l item y : y ∈ remove_arg value_class l item → y ∈ l.
Proof.
  unfold remove_arg. repeat case_match; try done; apply list_remove_sub.
Qed.

Lemma remove_arg_NoDup l item : NoDup l → NoDup (remove_arg value_class l item).
Proof.
  intros Hl. unfold remove_arg. repeat case_match; try done; by apply list_remove_NoDup.
Qed.

Lemma foldl_remove_arg_sub items l y :
  y ∈ foldl (remove_arg value_class) l items → y ∈ l.
Proof.
  revert l. induction items as [|i items IH]; intros l; [done|].
  simpl. intros Hy. apply IH in Hy. by apply remove_arg_sub in Hy.
Qed.

Lemma foldl_remove_arg_NoDup items l :
  NoDup l → NoDup (foldl (remove_arg value_class) l items).
Proof.
  revert l. induction items as [|i items IH]; intros l Hl; [done|].
  simpl. by apply IH, remove_arg_NoDup.
Qed.

Lemma remove_arg_gone l item : NoDup l → item ∉ remove_arg value_class l item.
Proof.
  intros Hl. unfold remove_arg.
  destruct (decide (item ∈ l)) as [Hi|Hi].
  - rewrite (bool_decide_eq_true_2 _ Hi). by apply list_remove_gone.
  - rewrite (bool_decide_eq_false_2 _ Hi). case_match; [|done].
    intros Hin. by apply Hi, (list_remove_sub (value_class item)).
Qed.

Lemma foldl_remove_arg_gone items l item :
  NoDup l → item ∈ items → item ∉ foldl (remove_arg value_class) l items.
Proof.
  revert l. induction items as [|i items IH]; intros l Hl Hi; [by apply elem_of_nil in Hi|].
  simpl. apply elem_of_cons in Hi as [->|Hi].
  - intros Hin. apply foldl_remove_arg_sub in Hin. by apply (remove_arg_gone l i).
  - apply IH; [by apply remove_arg_NoDup|done].
Qed.

Lemma list_in_force_eq set_args add_args remove_args old_values :
  set_args ≠ [] ∨ add_args ≠ [] ∨ remove_args ≠ [] →
  list_in_force value_class set_args add_args remove_args old_values
  = processed_list value_class set_args add_args remove_args old_values.
Proof.
  intros Hne. unfold list_in_force, process_list_args.
  assert (Hb : negb (bool_decide (set_args = [])) || negb (bool_decide (remove_args = []))
               || negb (bool_decide (add_args = [])) = true).
  { destruct Hne as [H|[H|H]]; rewrite (bool_decide_eq_false_2 _ H); simpl;
      by rewrite ?orb_true_r. }
  rewrite Hb. cbv zeta.
  destruct (decide (processed_list value_class set_args add_args remove_args old_values
                    = old_values)) as [Heq|Hn].
  - rewrite bool_decide_eq_true_2 by exact Heq. simpl. by rewrite Heq.
  - by rewrite bool_decide_eq_false_2 by exact Hn.
Qed.

(** X13. After [process_list_args] every item asked to be added is in the
    list in force, as given or in its normal form [str(value_class(item))];
    when nothing is set or removed, every old value is still there, in its
    place at the front. *)
Theorem process_list_args_adds (set_args add_args remove_args old_values : list string) :
  (∀ item, item ∈ add_args →
     item ∈ list_in_force value_class set_args add_args remove_args old_values ∨
     value_class item ∈ list_in_force value_class set_args add_args remove_args old_values) ∧
  (set_args = [] → remove_args = [] →
   ∃ added, list_in_force value_class set_args add_args remove_args old_values = old_values ++ added ∧
            added ⊆ add_args).
Proof.
  split.
  - intros item Hi. rewrite list_in_force_eq.
    + unfold processed_list. by apply foldl_add_arg_present.
    + right; left. intros ->. by apply elem_of_nil in Hi.
  - intros -> ->. destruct add_args as [|a add_args]; [by exists []; rewrite app_nil_r|].
    rewrite list_in_force_eq by (right; by left).
    generalize (a :: add_args) as items. intros items. clear a add_args.
    unfold processed_list. simpl. revert old_values.
    induction items as [|i items IH]; intros l; [by exists []; rewrite app_nil_r|].
    simpl. unfold add_arg at 2. destruct (_ && _).
    + destruct (IH (l ++ [i])) as (added & -> & Hsub). exists (i :: added).
      split; [by rewrite <- app_assoc|].
      intros x [->|Hx]%elem_of_cons; [by left|right; by apply Hsub].
    + destruct (IH l) as (added & -> & Hsub). exists added. split; [done|].
      intros x Hx. right. by apply Hsub.
Qed.

(** X14. [process_list_args] introduces no repetition: if the list it starts
    from (the values set, or else the old ones) has none, the list in force
    has none; an item asked to be removed and not added again is then absent. *)
Theorem process_list_args_NoDup (set_args add_args remove_args old_values : list string) :
  NoDup (if bool_decide (set_args = []) then old_values else set_args) →
  NoDup (list_in_force value_class set_args add_args remove_args old_values) ∧
  (add_args = [] → ∀ item, item ∈ remove_args →
     item ∉ list_in_force value_class set_args add_args remove_args old_values).
Proof.
  intros Hnd.
  destruct (decide (set_args = [] ∧ add_args = [] ∧ remove_args = [])) as [(-> & -> & ->)|Hne].
  { rewrite bool_decide_eq_true_2 in Hnd by done. split; [exact Hnd|].
    intros _ item Hi. by apply elem_of_nil in Hi. }
  rewrite list_in_force_eq
    by (destruct set_args, add_args, remove_args; naive_solver).
  unfold processed_list.
  assert (Hstart : (if negb (bool_decide (set_args = [])) then set_args else old_values)
                   = (if bool_decide (set_args = []) then old_values else set_args))
    by (by destruct (bool_decide (set_args = []))).
  rewrite Hstart. split.
  - by apply foldl_add_arg_NoDup, foldl_remove_arg_NoDup.
  - intros -> item Hi. simpl. by apply foldl_remove_arg_gone.
Qed.
End ListArgsFacts.

Lemma process_list_args_adds_witness :
  "b" ∈ list_in_force demo_value_class [] ["b"] [] ["/work/a"] ∨
  "/work/b" ∈ list_in_force demo_value_class [] ["b"] [] ["/work/a"].
Proof.
  destruct (process_list_args_adds demo_value_class [] ["b"] [] ["/work/a"]) as [H _].
  apply H. by left.
Defined.

Lemma process_list_args_NoDup_witness :
  NoDup (list_in_force demo_value_class [] ["b"; "/work/a"] ["/work/c"] ["/work/a"; "/work/c"]).
Proof.
  apply (process_list_args_NoDup demo_value_class [] ["b"; "/work/a"] ["/work/c"]
           ["/work/a"; "/work/c"]).
  rewrite bool_decide_eq_true_2 by done.
  apply NoDup_cons. split; [|apply NoDup_singleton].
  by intros [=]%list_elem_of_singleton.
Defined.

Section KvlistArgsFacts.
Context (value_class : string → string).

Lemma kvlist_in_force_eq set_args add_args remove_args old_values :
  kvlist_in_force value_class set_args add_args remove_args old_values
  = processed_kvlist value_class set_args add_args remove_args old_values.
Proof.
  unfold kvlist_in_force, process_kvlist_args.
  destruct (_ || _) eqn:Hb.
  - cbv zeta.
    destruct (decide (processed_kvlist value_class set_args add_args remove_args old_values
                      = old_values)) as [Heq|Hn].
    + rewrite bool_decide_eq_true_2 by exact Heq. simpl. by rewrite Heq.
    + by rewrite bool_decide_eq_false_2 by exact Hn.
  - apply orb_false_iff in Hb as [[Hs Hr]%orb_false_iff Ha].
    apply negb_false_iff, bool_decide_eq_true_1 in Hs, Hr, Ha. subst. reflexivity.
Qed.

Lemma foldl_add_lookup_ne (items : list (string * string)) (m : gmap string pyval) k :
  k ∉ items.*1 →
  foldl (λ m kv, <[kv.1 := PStr kv.2]> m) m items !! k = m !! k.
Proof.
  revert m. induction items as [|[k0 v0] items IH]; intros m Hk; [done|].
  simpl in *. apply not_elem_of_cons in Hk as [Hne Hk].
  rewrite IH by done. by rewrite lookup_insert_ne.
Qed.

Lemma foldl_add_lookup (items : list (string * string)) (m : gmap string pyval) k v :
  NoDup items.*1 → (k, v) ∈ items →
  foldl (λ m kv, <[kv.1 := PStr kv.2]> m) m items !! k = Some (PStr v).
Proof.
  revert m. induction items as [|[k0 v0] items IH]; intros m Hnd Hin;
    [by apply elem_of_nil in Hin|].
  simpl in *. apply NoDup_cons in Hnd as [Hk0 Hnd].
  apply elem_of_cons in Hin as [[= -> ->]|Hin].
  - rewrite foldl_add_lookup_ne by done. apply lookup_insert_eq.
  - by apply IH.
Qed.

Lemma foldl_add_strings (items : list (string * string)) (m : gmap string pyval) :
  map_Forall (λ _ v, is_str v = true) m →
  map_Forall (λ _ v, is_str v = true) (foldl (λ m kv, <[kv.1 := PStr kv.2]> m) m items).
Proof.
  revert m. induction items as [|[k0 v0] items IH]; intros m Hm; [done|].
  simpl. apply IH. by apply map_Forall_insert_2.
Qed.

Lemma remove_key_lookup (m : gmap string pyval) key k v :
  remove_key value_class m key !! k = Some v → m !! k = Some v.
Proof.
  unfold remove_key. repeat case_match; try done; by intros [_ ?]%lookup_delete_Some.
Qed.

Lemma remove_key_gone (m : gmap string pyval) key :
  remove_key value_class m key !! key = None.
Proof.
  unfold remove_key. case_bool_decide as Hk; [apply lookup_delete_eq|].
  apply eq_None_not_Some. intros Hs. apply Hk.
  destruct Hs as [v Hv]. repeat case_match.
  - apply lookup_delete_Some in Hv as [_ Hv]. eauto.
  - eauto.
Qed.

Lemma remove_key_other (m : gmap string pyval) key k :
  k ≠ key → k ≠ value_class key → remove_key value_class m key !! k = m !! k.
Proof.
  intros H1 H2. unfold remove_key. repeat case_match; try done; by rewrite lookup_delete_ne.
Qed.

Lemma foldl_remove_key_lookup keys (m : gmap string pyval) k v :
  foldl (remove_key value_class) m keys !! k = Some v → m !! k = Some v.
Proof.
  revert m. induction keys as [|key keys IH]; intros m; [done|].
  simpl. intros Hk. apply IH in Hk. by apply remove_key_lookup in Hk.
Qed.

Lemma foldl_remove_key_gone keys (m : gmap string pyval) key :
  key ∈ keys → foldl (remove_key value_class) m keys !! key = None.
Proof.
  revert m. induction keys as [|k0 keys IH]; intros m Hin; [by apply elem_of_nil in Hin|].
  simpl. apply elem_of_cons in Hin as [->|Hin]; [|by apply IH].
  apply eq_None_not_Some. intros [v Hv]. apply foldl_remove_key_lookup in Hv.
  by rewrite remove_key_gone in Hv.
Qed.

Lemma foldl_remove_key_other keys (m : gmap string pyval) k :
  k ∉ keys → k ∉ value_class <$> keys →
  foldl (remove_key value_class) m keys !! k = m !! k.
Proof.
  revert m. induction keys as [|k0 keys IH]; intros m H1 H2; [done|].
  simpl in *. apply not_elem_of_cons in H1 as [? ?]. apply not_elem_of_cons in H2 as [? ?].
  rewrite IH by done. by apply remove_key_other.
Qed.

Lemma foldl_remove_key_strings keys (m : gmap string pyval) :
  map_Forall (λ _ v, is_str v = true) m →
  map_Forall (λ _ v, is_str v = true) (foldl (remove_key value_class) m keys).
Proof.
  intros Hm k v Hk. apply foldl_remove_key_lookup in Hk. by apply (Hm k).
Qed.

(** X15. The environment mapping in force after [process_kvlist_args]: a
    pair asked to be added is there (keys added once), a key asked to be
    removed and not added again is not, a key that no argument names keeps
    its old value when nothing is set, and the values are strings when
    variables are set or when the old values were strings. *)
Theorem process_kvlist_args_result (set_args add_args : list (string * string))
    (remove_args : list string) (old_values : gmap string pyval) :
  let r := kvlist_in_force value_class set_args add_args remove_args old_values in
  (NoDup add_args.*1 → ∀ k v, (k, v) ∈ add_args → r !! k = Some (PStr v)) ∧
  (∀ k, k ∈ remove_args → k ∉ add_args.*1 → r !! k = None) ∧
  (set_args = [] → ∀ k, k ∉ add_args.*1 → k ∉ remove_args →
     k ∉ value_class <$> remove_args → r !! k = old_values !! k) ∧
  (set_args ≠ [] ∨ map_Forall (λ _ v, is_str v = true) old_values →
   map_Forall (λ _ v, is_str v = true) r).
Proof.
  intros r. unfold r. rewrite kvlist_in_force_eq. unfold processed_kvlist.
  split; [|split; [|split]].
  - intros Hnd k v Hin. by apply foldl_add_lookup.
  - intros k Hr Ha. rewrite foldl_add_lookup_ne by done. by apply foldl_remove_key_gone.
  - intros -> k Ha Hr Hv. rewrite foldl_add_lookup_ne by done.
    by rewrite foldl_remove_key_other.
  - intros Hs. apply foldl_add_strings, foldl_remove_key_strings.
    destruct (decide (set_args = [])) as [->|Hne].
    + simpl. destruct Hs as [Hs|Hs]; done.
    + rewrite bool_decide_eq_false_2 by done. simpl.
      intros k v Hk%dict_of_items_lookup.
      by apply list_elem_of_fmap in Hk as ([k0 v0] & [= -> ->] & _).
Qed.
End KvlistArgsFacts.

Lemma process_kvlist_args_result_witness :
  kvlist_in_force id [] [("A", "1")] ["B"] {[ "B" := PStr "2" ]} !! "A" = Some (PStr "1") ∧
  kvlist_in_force id [] [("A", "1")] ["B"] {[ "B" := PStr "2" ]} !! "B" = None.
Proof.
  destruct (process_kvlist_args_result id [] [("A", "1")] ["B"] {[ "B" := PStr "2" ]})
    as (Hadd & Hrem & _).
  split.
  - apply Hadd; [apply NoDup_singleton|by left].
  - apply Hrem; [by left|]. simpl. by intros [=]%list_elem_of_singleton.
Defined.

(** ** The [ansible-vault] command line *)

Lemma foldl_extend {A} (f : A → list string) (l : list A) (args : list string) :
  foldl (λ args x, args ++ f x) args l = args ++ flat_map f l.
Proof.
  revert args. induction l as [|x l IH]; intros args; simpl; [by rewrite app_nil_r|].
  by rewrite IH, app_assoc.
Qed.

Lemma password_file_args_eq fs self args :
  add_ansible_vault_password_file_args fs self args
  = args ++ flat_map (λ f, ["--vault-password-file"; Path_str f])
              (filter (λ f, path_exists fs (Path_str f) = true)
                 (vault_password_files (ansible (_config self)))).
Proof.
  unfold add_ansible_vault_password_file_args.
  generalize (vault_password_files (ansible (_config self))) as l.
  intros l. revert args. induction l as [|f l IH]; intros args; simpl;
    [by rewrite app_nil_r|].
  rewrite IH, filter_cons. destruct (path_exists fs (Path_str f)) eqn:He.
  - rewrite decide_True by done. simpl. by rewrite <- app_assoc.
  - by rewrite decide_False by (by intros ?).
Qed.

(** X16. The argument list of [run_ansible_vault]: the program name and the
    command, then [--vault-password-file F] for each configured password file
    that exists, then [--vault-id L@S] for every configured vault identity,
    then the vault file and the extra arguments; and
    [has_ansible_vault_password_file] is false exactly when
    [add_ansible_vault_password_file_args] adds nothing. *)
Theorem ansible_vault_cmd_args_shape (fs : FS) (self : Configurator)
    (command vault_file : string) (extra_cmd_args : option (list string)) :
  ansible_vault_cmd_args fs self command vault_file extra_cmd_args
  = ["ansible-vault"; command]
    ++ flat_map (λ f, ["--vault-password-file"; Path_str f])
         (filter (λ f, path_exists fs (Path_str f) = true)
            (vault_password_files (ansible (_config self))))
    ++ flat_map (λ v, ["--vault-id"; VaultId_id v]) (vault_ids (ansible (_config self)))
    ++ [vault_file] ++ default [] extra_cmd_args ∧
  ∀ args, has_ansible_vault_password_file fs self = false ↔
          add_ansible_vault_password_file_args fs self args = args.
Proof.
  split.
  - unfold ansible_vault_cmd_args, add_ansible_vault_id_args.
    rewrite password_file_args_eq, foldl_extend.
    destruct extra_cmd_args as [[|x l]|]; simpl; rewrite <- ?app_assoc; simpl;
      by rewrite ?app_nil_r.
  - intros args. rewrite password_file_args_eq. unfold has_ansible_vault_password_file.
    generalize (vault_password_files (ansible (_config self))) as l. intros l.
    induction l as [|f l IH]; simpl; [by rewrite app_nil_r|].
    rewrite filter_cons. destruct (path_exists fs (Path_str f)) eqn:He.
    + rewrite decide_True by done. simpl. split; [done|].
      intros Heq. apply (f_equal length) in Heq. rewrite length_app in Heq.
      simpl in Heq. lia.
    + rewrite decide_False by (by intros ?). simpl. exact IH.
Qed.

(** ** Vault identities *)

(** X17. [VaultId(...)] raises exactly when a full identity is given together
    with a label or a source, or when neither an identity nor a label is
    given, and the error is [ValueError]. An identity without [@] is a label
    with the empty source; built from a label alone, the source is the text
    [None], which counts as a path. *)
Theorem VaultId_init_errors (os : OSEnv) (fs : FS) (vault_id base_dir label_arg : option string)
    (source_a : source_arg) (apply_realpath : bool) :
  (returns (VaultId_init os fs vault_id base_dir label_arg source_a apply_realpath) = false ↔
   (is_Some vault_id ∧ (is_Some label_arg ∨ source_a ≠ SourceNone)) ∨
   (vault_id = None ∧ label_arg = None)) ∧
  (∀ e, VaultId_init os fs vault_id base_dir label_arg source_a apply_realpath = Raised e →
        e = ValueError) ∧
  (∀ v, Str.contains "@" v = false →
        VaultId_init os fs (Some v) base_dir None SourceNone apply_realpath
        = Returned (mkVaultId v "")) ∧
  (∀ l, VaultId_init os fs None base_dir (Some l) SourceNone apply_realpath
        = Returned (mkVaultId l "None") ∧
        source_is_path (mkVaultId l "None") = true).
Proof.
  split; [|split; [|split]].
  - unfold VaultId_init. destruct vault_id as [v|], label_arg as [l|]; simpl.
    + split; [intros _|done]. left. eauto.
    + destruct (decide (source_a = SourceNone)) as [->|Hs].
      * simpl. destruct (Str.contains "@" v); [destruct (Str.split_first "@" v)|]; simpl;
          (split; [done|]); intros [[_ [[? [=]]|?]]|[[=] _]]; done.
      * rewrite (bool_decide_eq_false_2 _ Hs). simpl. split; [intros _|done].
        left. eauto.
    + split; [done|]. intros [[[? [=]] _]|[_ [=]]].
    + split; [intros _|done]. by right.
  - intros e. unfold VaultId_init. destruct vault_id as [v|], label_arg as [l|]; simpl;
      try (by intros [= <-]).
    destruct (negb _); simpl; [by intros [= <-]|].
    destruct (Str.contains "@" v); [destruct (Str.split_first "@" v)|]; done.
  - intros v Hv. unfold VaultId_init. simpl. by rewrite Hv.
  - intros l. split; [|done]. unfold VaultId_init. simpl.
    by rewrite andb_false_r || reflexivity.
Qed.

Lemma VaultId_init_errors_witness :
  VaultId_init demo_os empty_fs (Some "dev") None None SourceNone true
  = Returned (mkVaultId "dev" "").
Proof.
  destruct (VaultId_init_errors demo_os empty_fs (Some "dev") None None SourceNone true)
    as (_ & _ & H & _).
  by apply H.
Defined.

(** ** Saving to a named file *)

Lemma save_config_dict_true_inv os yaml_dump fs filename config_dict do_backup fs' :
  save_config_dict os yaml_dump fs filename config_dict do_backup = (Returned true, fs') →
  ∃ text, yaml_dump config_dict = Returned text ∧
          fs_nodes fs' !! filename = Some (File text).
Proof.
  unfold save_config_dict, except_Exception. destruct do_backup.
  - destruct (backup_file os fs filename) as [[[]|e] fs1]; simpl; [|done].
    destruct (write_config yaml_dump fs1 filename config_dict) as [[[]|e] fs2] eqn:Hw;
      simpl; [|done].
    intros [= <-]. apply write_config_inv in Hw as (text & Ht & ->).
    exists text. split; [done|]. apply lookup_insert_eq.
  - destruct (write_config yaml_dump fs filename config_dict) as [[[]|e] fs2] eqn:Hw;
      simpl; [|done].
    intros [= <-]. apply write_config_inv in Hw as (text & Ht & ->).
    exists text. split; [done|]. apply lookup_insert_eq.
Qed.

(** X18. [save] with a file name. A name with an embedded null byte makes
    [os.path.realpath] raise [ValueError], outside any [try], and nothing is
    written. For any other non-empty name [save] does not look at [force] or
    at whether the configuration changed, and it does not raise: it dumps the
    configuration relative to the directory of the real path of that name and
    hands it to [save_config_dict]; when it returns [True], the file of that
    path holds the dumped document. *)
Theorem save_to_filename (os : OSEnv) (yaml_dump : gmap string entry → outcome bytes)
    (fs : FS) (self : Configurator) (f : string) (force do_backup : bool) :
  f ≠ "" →
  (Str.contains "000" f = true →
   save os yaml_dump fs self (Some f) force do_backup = (Raised ValueError, fs)) ∧
  (Str.contains "000" f = false →
   let target := Path_of_string (os_realpath os f) in
   ∃ d b fs',
     MainConfigSchema_dump os fs (ConfigContext_for target) (_config self) = Returned d ∧
     save os yaml_dump fs self (Some f) force do_backup = (Returned b, fs') ∧
     save os yaml_dump fs self (Some f) force do_backup
     = save os yaml_dump fs self (Some f) (negb force) do_backup ∧
     (b = true → ∃ text, yaml_dump d = Returned text ∧
                         fs_nodes fs' !! Path_str target = Some (File text))).
Proof.
  intros Hf. split.
  { intros Hnul. unfold save, save_plan, realpath.
    rewrite bool_decide_eq_false_2 by done. by rewrite Hnul. }
  intros Hnul target.
  destruct (MainConfigSchema_dump_total os fs (ConfigContext_for target) (_config self))
    as (a & _ & Hd).
  assert (Hplan : ∀ force, save_plan os fs self (Some f) force
                  = Returned (Some (ConfigContext_for target, {[ "ansible" := EMapping a ]}))).
  { intros force'. unfold save_plan, realpath. rewrite bool_decide_eq_false_2 by done.
    rewrite Hnul. cbn [negb mbind outcome_bind]. fold target. by rewrite Hd. }
  destruct (save_config_dict_returns os yaml_dump fs (Path_str target)
              {[ "ansible" := EMapping a ]} do_backup) as (b & fs' & Hs).
  exists {[ "ansible" := EMapping a ]}, b, fs'. unfold save. rewrite !Hplan.
  cbn [context_config_file ConfigContext_for]. split; [done|]. split; [done|].
  split; [done|]. intros ->. by apply save_config_dict_true_inv in Hs.
Qed.

Lemma save_to_filename_witness :
  ∃ fs', save demo_os new_yaml_dump backup_fs demo_loaded (Some "/etc/config.yml") false true
         = (Returned true, fs') ∧
         fs_nodes fs' !! "/etc/config.yml" = Some (File new_text).
Proof.
  destruct (save_to_filename demo_os new_yaml_dump backup_fs demo_loaded "/etc/config.yml"
              false true) as [_ H]; [done|].
  destruct (H eq_refl) as (d & b & fs' & Hd & Hs & _ & Hb).
  assert (Htrue : ∃ fs1, save demo_os new_yaml_dump backup_fs demo_loaded
                           (Some "/etc/config.yml") false true = (Returned true, fs1))
    by (eexists; vm_compute; reflexivity).
  destruct Htrue as [fs1 Hfs1]. rewrite Hfs1 in Hs. injection Hs as <- <-.
  exists fs1. split; [done|].
  destruct (Hb eq_refl) as (text & Ht & Hfile).
  assert (Hnew : ∀ d, new_yaml_dump d = Returned new_text) by done.
  rewrite Hnew in Ht. injection Ht as <-. exact Hfile.
Defined.

(** ** Serialization *)

(** X19. [MainConfigSchema().dump] never raises, its result has the one key
    [ansible], a mapping over declared field names only, and it depends on
    the context and the configuration alone: not on the files present, the
    home directories or the working directory. *)
Theorem dump_total_and_pure (os : OSEnv) (fs : FS) (context : ConfigContext)
    (m : MainConfig) :
  ∃ a, MainConfigSchema_dump os fs context m = Returned {[ "ansible" := EMapping a ]} ∧
       dom a ⊆ declared_fields ∧
       ∀ os' fs', MainConfigSchema_dump os' fs' context m
                  = Returned {[ "ansible" := EMapping a ]}.
Proof.
  destruct (MainConfigSchema_dump_total os fs context m) as (a & Ha & Hd).
  exists a. split; [exact Hd|]. split.
  - destruct (dump_lookup os fs context (ansible m)) as (a' & Ha' & H).
    rewrite Ha in Ha'. injection Ha' as <-.
    by destruct H as (_ & _ & _ & _ & _ & _ & _ & _ & _ & _ & _ & _ & Hdom).
  - intros os' fs'. by rewrite (main_dump_machine_independent os' fs' os fs).
Qed.

(** ** The configurator across setter calls *)

(** X20. What holds of a configurator from its construction through any run
    of setter calls: the configuration context and the snapshot taken at load
    time stay what they were, and every path of the settings is in the normal
    form of a [pathlib] path (a root that is empty, [/] or [//], and no
    component that is empty, a dot or holds a slash). *)
Theorem setters_keep_invariant (os : OSEnv)
    (yaml_load : bytes → outcome document) (fs fs' : FS)
    (config_files : list string) (debug : bool) (calls : list setter_call)
    (self self' : Configurator) :
  Configurator_init os yaml_load fs config_files debug = Returned self →
  call_setters os fs' self calls = Returned self' →
  paths_wf (ansible (_config self')) ∧
  config_context (_config self') = config_context (_config self) ∧
  _initial_config_dict self' = _initial_config_dict self.
Proof.
  intros Hi Hs. split.
  - apply (call_setters_wf _ _ _ _ _ Hs). by eapply Configurator_init_wf.
  - by eapply call_setters_frame.
Qed.

Lemma setters_keep_invariant_witness :
  ∃ self',
    call_setters demo_os config_fs demo_initial
      [Call_inventories (ArgOne (Some "/srv/hosts")); Call_user None] = Returned self' ∧
    paths_wf (ansible (_config self')) ∧
    _initial_config_dict self' = _initial_config_dict demo_initial.
Proof.
  eexists. split; [reflexivity|].
  destruct (setters_keep_invariant demo_os demo_yaml_load config_fs config_fs
              ["/etc/config.yml"] false
              [Call_inventories (ArgOne (Some "/srv/hosts")); Call_user None]
              demo_initial _ demo_initial_loaded eq_refl) as (Hw & _ & Hd).
  split; [exact Hw|exact Hd].
Defined.

(** X21. After loading and any run of setter calls, [config_changed] does not
    raise, and it is true exactly when the settings differ from the loaded
    ones, provided that at both ends no vault identity has an [@] in its
    label and every environment variable holds a string. *)
Theorem config_changed_exact (os : OSEnv)
    (yaml_load : bytes → outcome document) (fs fs1 fs2 : FS)
    (config_files : list string) (debug : bool) (calls : list setter_call)
    (self self' : Configurator) :
  Configurator_init os yaml_load fs config_files debug = Returned self →
  call_setters os fs1 self calls = Returned self' →
  plainly_encoded (ansible (_config self)) →
  plainly_encoded (ansible (_config self')) →
  config_changed os fs2 self'
  = Returned (negb (bool_decide (ansible (_config self') = ansible (_config self)))).
Proof.
  intros Hi Hs P P'.
  pose proof (Configurator_init_wf _ _ _ _ _ _ Hi) as W.
  pose proof (call_setters_wf _ _ _ _ _ Hs W) as W'.
  destruct (call_setters_frame _ _ _ _ _ Hs) as [Hctx Hinit].
  pose proof (Configurator_init_snapshot _ _ _ _ _ _ Hi) as Hsnap.
  unfold config_changed, config_to_dict in *. rewrite Hctx, Hinit.
  destruct (config_context (_config self)) as [cc|]; [|done].
  rewrite (main_dump_machine_independent os fs os fs2) in Hsnap.
  destruct (MainConfigSchema_dump_total os fs2
              (mkConfigContext (context_config_file cc) true false) (_config self'))
    as (a & Ha & Hd).
  rewrite Hd. cbn [mbind outcome_bind]. do 2 f_equal.
  destruct (decide (ansible (_config self') = ansible (_config self))) as [Heq|Hne].
  - rewrite (bool_decide_eq_true_2 _ Heq). apply bool_decide_eq_true_2.
    unfold MainConfigSchema_dump in Hsnap. rewrite <- Heq, Ha in Hsnap.
    cbn [mbind outcome_bind] in Hsnap. rewrite map_filter_singleton_True in Hsnap by done.
    by injection Hsnap.
  - rewrite (bool_decide_eq_false_2 _ Hne). apply bool_decide_eq_false_2.
    intros Heq. apply Hne.
    apply (main_dump_inj os fs2 (mkConfigContext (context_config_file cc) true false));
      [reflexivity|assumption..|].
    rewrite Hd, Hsnap. by rewrite Heq.
Qed.

Lemma config_changed_exact_witness :
  ∃ self',
    call_setters demo_os config_fs demo_initial [Call_user (Some "bob"); Call_user (Some "alice")]
      = Returned self' ∧
    config_changed demo_os empty_fs self' = Returned false.
Proof.
  eexists. split; [reflexivity|].
  rewrite (config_changed_exact demo_os demo_yaml_load config_fs config_fs empty_fs
             ["/etc/config.yml"] false [Call_user (Some "bob"); Call_user (Some "alice")]
             demo_initial _ demo_initial_loaded eq_refl).
  - f_equal; try (apply negb_false_iff, bool_decide_eq_true_2; simpl;
                  by rewrite demo_initial_settings).
  - exact (demo_initial_plainly (Some "alice")).
  - exact (demo_initial_plainly (Some "alice")).
Defined.

(** ** Errors of loading *)













(** ** Paths of the schema and of the setters *)

Lemma expanduser_no_tilde os s : Str.startswith "~" s = false → expanduser os s = s.
Proof.
  destruct s as [|a s]; [done|]. rewrite startswith_char. intros Ha%bool_decide_eq_false.
  unfold expanduser. destruct a as [[] [] [] [] [] [] [] []]; try done.
Qed.

Lemma relative_root s : Str.startswith "/" s = false → path_root (Path_of_string s) = "".
Proof.
  destruct s as [|a s]; [done|]. rewrite startswith_char. intros Ha%bool_decide_eq_false.
  unfold Path_of_string, splitroot. by rewrite decide_False by (by intros ->).
Qed.

(** X23. A text that starts with neither a slash nor a tilde is decoded by
    [PathField] to the path of that text under the configuration directory,
    and that path is encoded again, relative to the same directory, as the
    text in the normal form of [pathlib]. *)
Theorem decode_then_encode (os : OSEnv) (context : ConfigContext) (s : string) :
  Str.startswith "/" s = false → Str.startswith "~" s = false →
  serialize_relative_paths context = true →
  ∃ p, PathField_deserialize os context (PStr s) = Returned p ∧
       p = truediv (config_dir context) (Path_of_string s) ∧
       relative_to p (config_dir context) = Some (Path_of_string s) ∧
       PathField_serialize context (Some p) = PStr (Path_str (Path_of_string s)).
Proof.
  intros Hs Ht Hrel. eexists. split.
  { unfold PathField_deserialize. simpl. by rewrite expanduser_no_tilde. }
  split; [done|].
  assert (Hr : relative_to (truediv (config_dir context) (Path_of_string s))
                 (config_dir context) = Some (Path_of_string s)).
  { pose proof (relative_root s Hs) as Hroot. unfold truediv, relative_to.
    rewrite (decide_True (P := path_root (Path_of_string s) = "")) by exact Hroot.
    simpl. rewrite decide_True by done. rewrite decide_True by (by eexists).
    rewrite drop_app_length. destruct (Path_of_string s) as [r l]. simpl in *. by subst. }
  split; [exact Hr|].
  unfold PathField_serialize. by rewrite Hrel, Hr.
Qed.

Lemma decode_then_encode_witness :
  ∃ p, PathField_deserialize demo_os demo_context (PStr "./hosts//prod/") = Returned p ∧
       PathField_serialize demo_context (Some p) = PStr "hosts/prod".
Proof.
  destruct (decode_then_encode demo_os demo_context "./hosts//prod/" eq_refl eq_refl eq_refl)
    as (p & Hp & _ & _ & Hs).
  exists p. split; [exact Hp|]. rewrite Hs. by vm_compute.
Defined.

Lemma work_os_abspath s : isabs (os_abspath work_os s) = true.
Proof. simpl. by destruct (isabs s) eqn:Hs. Qed.

Lemma to_abspath_list_abs os value :
  (∀ s, isabs (os_abspath os s) = true) →
  Forall (λ s, isabs s = true) (to_abspath_list os value).
Proof.
  intros Habs. unfold to_abspath_list. apply Forall_forall. intros x Hx.
  apply list_elem_of_omap in Hx as (o & _ & Ho).
  destruct (str_truthy o); [|done]. destruct o as [s|]; [|done].
  injection Ho as <-. apply Habs.
Qed.

Lemma paths_of_abs os value :
  (∀ s, isabs (os_abspath os s) = true) →
  Forall (λ p, path_root p ≠ "") (paths_of os value).
Proof.
  intros Habs. unfold paths_of. apply Forall_fmap.
  eapply Forall_impl; [by apply to_abspath_list_abs|].
  intros s Hs. by apply isabs_rooted.
Qed.

Lemma length_omap_le {A B} (f : A → option B) (l : list A) :
  length (omap f l) ≤ length l.
Proof.
  induction l as [|x l IH]; [done|]. csimpl. destruct (f x); simpl in *; lia.
Qed.

(** X24. [to_abspath_list] gives no more names than [to_list] gives entries
    (those that are [None] or empty are dropped), all of them made absolute;
    so on a machine whose [abspath] gives absolute names each list setter
    stores rooted paths only. A scalar path setter stores a rooted path too,
    and raises [TypeError] when called with [None]. *)
Theorem setters_store_absolute (os : OSEnv) (self : Configurator)
    (value : arg (option string)) :
  (∀ s, isabs (os_abspath os s) = true) →
  Forall (λ s, isabs s = true) (to_abspath_list os value) ∧
  length (to_abspath_list os value) ≤ length (to_list str_truthy value) ∧
  Forall (λ p, path_root p ≠ "")
    (inventories (ansible (_config (set_ansible_inventories os self value)))) ∧
  Forall (λ p, path_root p ≠ "")
    (vault_password_files (ansible (_config (set_ansible_vault_password_files os self value)))) ∧
  Forall (λ p, path_root p ≠ "")
    (vault_files (ansible (_config (set_ansible_vault_files os self value)))) ∧
  Forall (λ p, path_root p ≠ "")
    (vars_files (ansible (_config (set_ansible_vars_files os self value)))) ∧
  Forall (λ p, path_root p ≠ "")
    (user_scripts (ansible (_config (set_ansible_user_scripts os self value)))) ∧
  set_ansible_config_file os self None = Raised TypeError ∧
  ∀ s, ∃ self', set_ansible_config_file os self (Some s) = Returned self' ∧
                ∃ p, config_file (ansible (_config self')) = Some p ∧ path_root p ≠ "".
Proof.
  intros Habs. split; [by apply to_abspath_list_abs|].
  split; [apply length_omap_le|].
  do 5 (split; [by apply paths_of_abs|]).
  split; [done|]. intros s. eexists. split; [reflexivity|].
  eexists. split; [reflexivity|]. by apply isabs_rooted.
Qed.

Lemma setters_store_absolute_witness :
  Forall (λ p, path_root p ≠ "")
    (inventories (ansible (_config
       (set_ansible_inventories work_os demo_loaded
          (ArgList [Some "hosts"; None; Some ""; Some "/srv/hosts"]))))).
Proof.
  destruct (setters_store_absolute work_os demo_loaded
              (ArgList [Some "hosts"; None; Some ""; Some "/srv/hosts"]) work_os_abspath)
    as (_ & _ & H & _).
  exact H.
Defined.

(** ** Real paths *)

Lemma auto_realpath_no_base os fs path force :
  auto_realpath os fs path None force
  = if path_exists fs path then os_realpath os path else path.
Proof.
  unfold auto_realpath. destruct (path_exists fs path); [by destruct (isabs path)|].
  rewrite andb_false_r. by destruct force.
Qed.

(** X25. [auto_realpath] of an absolute name does not depend on the base
    directory or on [force_abs_path]: it is the real path when the name
    exists and the name itself otherwise. Without a base directory the same
    holds of every name. *)
Theorem auto_realpath_absolute (os : OSEnv) (fs : FS) (path : string)
    (base_dir : option string) (force_abs_path : bool) :
  isabs path = true ∨ base_dir = None →
  auto_realpath os fs path base_dir force_abs_path
  = if path_exists fs path then os_realpath os path else path.
Proof.
  intros H. unfold auto_realpath.
  assert (Habs : match base_dir with Some d => path_join d path | None => path end = path).
  { destruct base_dir as [d|]; [|done]. destruct H as [H|H]; [|done].
    unfold path_join. unfold isabs in H. by rewrite H. }
  rewrite Habs. destruct (path_exists fs path); [|by destruct force_abs_path; rewrite ?andb_false_r].
  by destruct (isabs path).
Qed.

Lemma auto_realpath_absolute_witness :
  auto_realpath demo_os config_fs "/etc/config.yml" (Some "/srv") true = "/etc/config.yml".
Proof.
  by rewrite (auto_realpath_absolute demo_os config_fs "/etc/config.yml" (Some "/srv") true)
    by (by left).
Defined.

(** X26. [VaultId.copy] never raises and keeps the label, but it resolves the
    source again: a source that is a path and exists is replaced by its real
    path. The copy is the identity itself when the source is empty, is
    [prompt], does not exist, or is its own real path. *)
Theorem VaultId_copy_resolves (os : OSEnv) (fs : FS) (v : VaultId) :
  VaultId_copy os fs v
  = Returned (mkVaultId (label v)
      (if source_is_path v && path_exists fs (source v)
       then os_realpath os (source v) else source v)).
Proof.
  destruct v as [l s]. unfold VaultId_copy, VaultId_init, source_is_path.
  cbn [label source mbind outcome_bind source_truthy source_ne_prompt source_str].
  rewrite andb_true_r.
  destruct (negb (bool_decide (s = "")) && negb (bool_decide (s = "prompt"))); [|done].
  cbn [andb]. by rewrite auto_realpath_no_base.
Qed.

(** ** Files that are not there *)









(** ** Helpers over sequences and directories *)








